(** * qa-system: scenario normalisation, navigation and evaluation form

    A shallow embedding of the data-normalisation and navigation core of the
    training console (app.js) and of the list de-duplication of the offline
    data editor (the PowerShell tool), with the properties the specification
    states about them; and, beyond these, of the console's scenario
    addressing by URL, unlock counter, conversation view, template choice,
    search highlighting, form-state snapshots and delayed draft save, and of
    the editor's JSON layout.

    The console reads its page, the browser storage and the network; these
    are inputs of the model ([page], [form_page], [outcome], [response]).
    What a handler does is the list of its effects ([effect]) or the place
    the page is sent to ([location]); what the conversation view and the
    highlighter build is the list of the nodes they append ([rendering],
    [piece]).  Timers are events: a timer that is set and not cleared may
    come due, and time is the order of the events ([autosave_event]).

    Conventions of the embedding.
    - A string is the sequence of its code units, and a [string] holds the
      code units below 256 (Latin-1 text).  On these, [trim], [toLowerCase]
      and the white space of .NET ([IsWhiteSpace]) are as in the engines;
      [toUpperCase] is, except on the two code units whose upper-case form
      lies above 255 ([has_upper_form]).  The label lists of the editor are
      modelled on ASCII text, which its FormKC normalisation leaves as it
      is and on which Trim() is [trim].
    - A JSON number is an integer ([Z]).  The model is that of the engine on
      the safe integers ([safe_integer]), which a number holds exactly and
      prints in plain decimal; fractional values are out of scope, and a
      statement that depends on the size of a number bounds it.
    - [undefined] is [None] in [option json]; [null] is [JNull].
    - An object is an association list in property order.  Property creation
      follows the ECMAScript order of own keys: array-index keys in ascending
      order first, every other key in creation order ([obj_set]).  Assigning
      to the name __proto__ creates no property ([addScenario]).
    - Own properties named toString or valueOf are out of scope (they change
      what String() does in the engine). *)

From Stdlib Require Import List String Ascii ZArith NArith Lia Bool.
From Stdlib Require Import Sorting.Sorted Sorting.Permutation.
From Stdlib Require Import Numbers.DecimalString Numbers.DecimalPos.
Import ListNotations.
Open Scope string_scope.
Set Warnings "-register-all".

(* ------------------------------------------------------------------ *)
(** ** Strings *)
(* ------------------------------------------------------------------ *)

(** White space removed by String.prototype.trim and skipped by parseInt,
    among the code units below 256: TAB, LF, VT, FF, CR, SPACE and the
    no-break space. *)
Definition is_ws (c : ascii) : bool :=
  let n := nat_of_ascii c in
  ((9 <=? n) && (n <=? 13))%nat || (n =? 32)%nat || (n =? 160)%nat.

Fixpoint trim_start (s : string) : string :=
  match s with
  | EmptyString => EmptyString
  | String c s' => if is_ws c then trim_start s' else s
  end.

Fixpoint trim_end (s : string) : string :=
  match s with
  | EmptyString => EmptyString
  | String c s' =>
      match trim_end s' with
      | EmptyString => if is_ws c then EmptyString else String c EmptyString
      | r => String c r
      end
  end.

(** [s.trim()] *)
Definition trim (s : string) : string := trim_end (trim_start s).

(** The lower-case form of a code unit: of A to Z, and of the capital
    letters 192 to 222 of Latin-1 (the multiplication sign 215 is none). *)
Definition lower_char (c : ascii) : ascii :=
  let n := nat_of_ascii c in
  if ((65 <=? n) && (n <=? 90))%nat
     || ((192 <=? n) && (n <=? 222) && negb (n =? 215))%nat
  then ascii_of_nat (n + 32) else c.

(** The upper-case form of a code unit: of a to z, and of the small letters
    224 to 254 of Latin-1 (the division sign 247 is none); the sharp s (223)
    becomes the two letters SS.  The upper-case forms of the micro sign (181)
    and of y with diaeresis (255) are code units above 255, which a [string]
    cannot hold: [upper_form] is defined there, as the code unit itself, but
    no statement relies on it ([has_upper_form]). *)
Definition upper_form (c : ascii) : string :=
  let n := nat_of_ascii c in
  if (n =? 223)%nat then "SS"
  else if ((97 <=? n) && (n <=? 122))%nat
          || ((224 <=? n) && (n <=? 254) && negb (n =? 247))%nat
  then String (ascii_of_nat (n - 32)) EmptyString
  else String c EmptyString.

Definition has_upper_form (c : ascii) : bool :=
  let n := nat_of_ascii c in negb ((n =? 181)%nat || (n =? 255)%nat).

Fixpoint map_chars (f : ascii -> ascii) (s : string) : string :=
  match s with
  | EmptyString => EmptyString
  | String c s' => String (f c) (map_chars f s')
  end.

(** [s.toLowerCase()] *)
Definition toLowerCase (s : string) : string := map_chars lower_char s.

(** [s.toUpperCase()] *)
Fixpoint toUpperCase (s : string) : string :=
  match s with
  | EmptyString => EmptyString
  | String c s' => upper_form c ++ toUpperCase s'
  end.

(** [s.charAt(0)] *)
Definition charAt0 (s : string) : string :=
  match s with
  | EmptyString => EmptyString
  | String c _ => String c EmptyString
  end.

(** A string is truthy when it is not empty. *)
Definition nonempty (s : string) : bool :=
  match s with EmptyString => false | _ => true end.

Definition is_digit (c : ascii) : bool :=
  let n := nat_of_ascii c in ((48 <=? n) && (n <=? 57))%nat.

Definition digit_value (c : ascii) : N := N.of_nat (nat_of_ascii c - 48).

Fixpoint all_chars (p : ascii -> bool) (s : string) : bool :=
  match s with
  | EmptyString => true
  | String c s' => p c && all_chars p s'
  end.

(** Value of a digit string read left to right, [acc] being the value of the
    digits already read. *)
Fixpoint digits_value (acc : N) (s : string) : N :=
  match s with
  | EmptyString => acc
  | String c s' => digits_value (acc * 10 + digit_value c)%N s'
  end.

(** [Array.prototype.join] on strings. *)
Fixpoint join (sep : string) (l : list string) : string :=
  match l with
  | [] => ""
  | [x] => x
  | x :: rest => x ++ sep ++ join sep rest
  end.

(** [Number.prototype.toString] on an integer. *)
Definition number_to_string (n : Z) : string :=
  NilZero.string_of_int (Z.to_int n).

(* ------------------------------------------------------------------ *)
(** ** JSON values and the JavaScript operations the code applies to them *)
(* ------------------------------------------------------------------ *)

Inductive json : Type :=
| JNull
| JBool (b : bool)
| JNum (n : Z)
| JStr (s : string)
| JArr (items : list json)
| JObj (props : list (string * json)).

(** An object body: the own properties in property order. *)
Definition props := list (string * json).

(** ToBoolean. *)
Definition truthy (v : json) : bool :=
  match v with
  | JNull => false
  | JBool b => b
  | JNum n => negb (n =? 0)%Z
  | JStr s => nonempty s
  | JArr _ | JObj _ => true
  end.

Definition otruthy (v : option json) : bool :=
  match v with Some x => truthy x | None => false end.

(** [a || b] *)
Definition js_or (a b : option json) : option json :=
  if otruthy a then a else b.

(** [typeof v === 'object'] *)
Definition typeof_object (v : json) : bool :=
  match v with JNull | JArr _ | JObj _ => true | _ => false end.

(** The guard [!v || typeof v !== 'object'] negated: a non-null object or
    array. *)
Definition is_object (v : json) : bool := truthy v && typeof_object v.

(** [Array.isArray(v)] *)
Definition isArray (v : option json) : bool :=
  match v with Some (JArr _) => true | _ => false end.

(** [v == null] *)
Definition is_nullish (v : option json) : bool :=
  match v with None | Some JNull => true | _ => false end.

(** [String(v)] *)
Fixpoint ToString (v : json) : string :=
  match v with
  | JNull => "null"
  | JBool true => "true"
  | JBool false => "false"
  | JNum n => number_to_string n
  | JStr s => s
  | JArr items =>
      (fix join_items (l : list json) : string :=
         match l with
         | [] => ""
         | x :: rest =>
             let piece := match x with JNull => "" | _ => ToString x end in
             match rest with
             | [] => piece
             | _ :: _ => piece ++ "," ++ join_items rest
             end
         end) items
  | JObj _ => "[object Object]"
  end.

(** [String(v || '')] *)
Definition string_or_empty (v : option json) : string :=
  match v with
  | Some x => if truthy x then ToString x else ""
  | None => ""
  end.

(** The array index a property key denotes, if any: a canonical decimal
    numeral below 2^32 - 1. *)
Definition array_index (k : string) : option N :=
  match k with
  | EmptyString => None
  | String c rest =>
      if all_chars is_digit k
         && (negb (Ascii.eqb c "0") || negb (nonempty rest))
      then
        let n := digits_value 0 k in
        if (n <? 4294967295)%N then Some n else None
      else None
  end.

(** Order of own property keys: an array index precedes a larger index and
    every other key; other keys keep their creation order. *)
Definition key_leb (k1 k2 : string) : bool :=
  match array_index k1, array_index k2 with
  | Some a, Some b => (a <=? b)%N
  | Some _, None => true
  | None, None => true
  | None, Some _ => false
  end.

Fixpoint assoc (k : string) (o : props) : option json :=
  match o with
  | [] => None
  | (k', v) :: o' => if String.eqb k k' then Some v else assoc k o'
  end.

Definition has_key (k : string) (o : props) : bool :=
  match assoc k o with Some _ => true | None => false end.

Fixpoint replace_prop (k : string) (v : json) (o : props) : props :=
  match o with
  | [] => []
  | (k', v') :: o' =>
      if String.eqb k k' then (k', v) :: o' else (k', v') :: replace_prop k v o'
  end.

Fixpoint insert_prop (k : string) (v : json) (o : props) : props :=
  match o with
  | [] => [(k, v)]
  | (k', v') :: o' =>
      if key_leb k' k then (k', v') :: insert_prop k v o'
      else (k, v) :: (k', v') :: o'
  end.

(** [o[k] = v] on an ordinary object: an existing property keeps its place,
    a new one is created at the place its key takes in the key order. *)
Definition obj_set (k : string) (v : json) (o : props) : props :=
  if has_key k o then replace_prop k v o else insert_prop k v o.

Fixpoint index_props_from (i : N) (l : list json) : props :=
  match l with
  | [] => []
  | x :: l' => (number_to_string (Z.of_N i), x) :: index_props_from (N.succ i) l'
  end.

Fixpoint string_chars (s : string) : list json :=
  match s with
  | EmptyString => []
  | String c s' => JStr (String c EmptyString) :: string_chars s'
  end.

(** Own enumerable string-keyed properties, as [Object.entries(v)] lists them
    and as [{...v}] copies them. *)
Definition own_entries (v : json) : props :=
  match v with
  | JObj o => o
  | JArr l => index_props_from 0 l
  | JStr s => index_props_from 0 (string_chars s)
  | _ => []
  end.

(** [v.k] / [v[k]] for an own property of a JSON value: a named property of
    an object, an element or the length of an array, a character or the
    length of a string. *)
Definition get (k : string) (v : json) : option json :=
  match v with
  | JObj o => assoc k o
  | JArr l =>
      if k =? "length" then Some (JNum (Z.of_nat (List.length l)))
      else match array_index k with
           | Some i => nth_error l (N.to_nat i)
           | None => None
           end
  | JStr s =>
      if k =? "length" then Some (JNum (Z.of_nat (String.length s)))
      else match array_index k with
           | Some i => nth_error (string_chars s) (N.to_nat i)
           | None => None
           end
  | _ => None
  end.

(** [Object.prototype.hasOwnProperty.call(v, k)] *)
Definition hasOwn (k : string) (v : json) : bool :=
  match get k v with Some _ => true | None => false end.

(** [{...acc, ...v}]: the own properties of [v] assigned onto [acc] in
    order. *)
Definition spread (acc : props) (v : json) : props :=
  fold_left (fun a kv => obj_set (fst kv) (snd kv) a) (own_entries v) acc.

(** The first truthy operand of [a || b || ... ], the last one otherwise. *)
Fixpoint first_truthy (l : list (option json)) : option json :=
  match l with
  | [] => None
  | [a] => a
  | a :: rest => if otruthy a then a else first_truthy rest
  end.

Fixpoint filter_map {A B : Type} (f : A -> option B) (l : list A) : list B :=
  match l with
  | [] => []
  | x :: l' =>
      match f x with
      | Some y => y :: filter_map f l'
      | None => filter_map f l'
      end
  end.

(* ------------------------------------------------------------------ *)
(** ** Scenario normaliser (app.js) *)
(* ------------------------------------------------------------------ *)

(** [getCompanyInitial(companyName)] *)
Definition getCompanyInitial (companyName : option json) : string :=
  let name := trim (string_or_empty companyName) in
  if nonempty name then toUpperCase (charAt0 name) else "".

(** [mapMessageTypeToRole(messageType)] *)
Definition mapMessageTypeToRole (messageType : option json) : string :=
  let type := toLowerCase (trim (string_or_empty messageType)) in
  if (type =? "subscriber") || (type =? "customer") || (type =? "user")
  then "customer"
  else if type =? "agent" then "agent"
  else if (type =? "system") || (type =? "template") || (type =? "escalation")
  then "system"
  else "".

(** The callback of [normalizeMessageMedia]: one media item, or [None] for
    the [null] that [filter(Boolean)] removes. *)
Definition normalizeMediaItem (item : json) : option json :=
  match item with
  | JStr s =>
      let url := trim s in
      if nonempty url then Some (JObj [("url", JStr url); ("type", JStr "")])
      else None
  | _ =>
      if negb (is_object item) then None
      else
        let rawUrl :=
          first_truthy [get "url" item; get "media_url" item; get "src" item;
                        get "link" item; Some (JStr "")] in
        let url := trim (string_or_empty rawUrl) in
        if negb (nonempty url) then None
        else
          let type :=
            toLowerCase (trim (string_or_empty
              (first_truthy [get "type" item; get "media_type" item;
                             get "mime_type" item; get "mimeType" item;
                             get "content_type" item]))) in
          Some (JObj [("url", JStr url); ("type", JStr type)])
  end.

(** [normalizeMessageMedia(media)] *)
Definition normalizeMessageMedia (media : option json) : list json :=
  match media with
  | Some (JArr items) => filter_map normalizeMediaItem items
  | _ => []
  end.

(** The coercion applied to content and date-time fields:
    [typeof raw === 'string' ? raw : (raw == null ? '' : String(raw))]. *)
Definition coerce_text (raw : option json) : string :=
  match raw with
  | Some (JStr s) => s
  | None | Some JNull => ""
  | Some v => ToString v
  end.

(** [a != null ? a : b] *)
Definition nullish_or (a b : option json) : option json :=
  if is_nullish a then b else a.

(** The fields [normalizeConversationMessage] reads off a raw message. *)
Definition messageType_of (message : json) : string :=
  toLowerCase (trim (string_or_empty
    (js_or (get "message_type" message) (get "messageType" message)))).

Definition explicitRole_of (message : json) : string :=
  toLowerCase (trim (string_or_empty (get "role" message))).

Definition role_of (message : json) : string :=
  let explicitRole := explicitRole_of message in
  if nonempty explicitRole then explicitRole
  else mapMessageTypeToRole (Some (JStr (messageType_of message))).

Definition content_of (message : json) : string :=
  coerce_text (nullish_or (get "content" message) (get "message_text" message)).

Definition isEventSystemMessage (messageType : string) : bool :=
  (messageType =? "template") || (messageType =? "escalation").

Definition dateTime_of (message : json) : string :=
  trim (coerce_text
    (nullish_or (get "dateTime" message)
       (nullish_or (get "date_time" message) (get "timestamp" message)))).

Definition id_of (message : json) : string :=
  trim (string_or_empty (js_or (get "id" message) (get "message_id" message))).

(** [if (cond) normalized[k] = v] *)
Definition set_if (cond : bool) (k : string) (v : json) (o : props) : props :=
  if cond then obj_set k v o else o.

(** [normalizeConversationMessage(message)]; [None] is the [null] result. *)
Definition normalizeConversationMessage (message : json) : option json :=
  if negb (is_object message) then None
  else
    let messageType := messageType_of message in
    let role := role_of message in
    if negb (nonempty role) then None
    else
      let content := content_of message in
      if negb (nonempty (trim content)) && negb (isEventSystemMessage messageType)
      then None
      else
        let normalized := [("role", JStr role); ("content", JStr content)] in
        let normalized :=
          set_if (nonempty messageType) "messageType" (JStr messageType) normalized in
        let media :=
          normalizeMessageMedia
            (js_or (get "media" message) (get "message_media" message)) in
        let normalized :=
          set_if (negb (Nat.eqb (List.length media) 0)) "media" (JArr media) normalized in
        let dateTime := dateTime_of message in
        let normalized :=
          set_if (nonempty dateTime) "dateTime" (JStr dateTime) normalized in
        let id := id_of message in
        let normalized := set_if (nonempty id) "id" (JStr id) normalized in
        Some (JObj normalized).

(** [isConversationMessageObject(item)] *)
Definition isConversationMessageObject (item : json) : bool :=
  if negb (is_object item) then false
  else hasOwn "message_text" item || hasOwn "message_type" item
       || hasOwn "content" item || hasOwn "role" item.

(** [isMessageArray(value)] *)
Definition isMessageArray (value : option json) : bool :=
  match value with
  | Some (JArr items) =>
      negb (Nat.eqb (List.length items) 0)
      && forallb isConversationMessageObject items
  | _ => false
  end.

(** [normalizeConversationList(list)] *)
Definition normalizeConversationList (value : option json) : list json :=
  match value with
  | Some (JArr items) => filter_map normalizeConversationMessage items
  | _ => []
  end.

(** A non-empty array: [Array.isArray(v) && v.length]. *)
Definition nonempty_array (v : option json) : bool :=
  match v with Some (JArr (_ :: _)) => true | _ => false end.

(** [re.test(key)] for the three legacy patterns: a case-insensitive literal
    prefix followed by digits only, at least [min_digits] of them. *)
Definition prefix_digits (prefix_lower : string) (min_digits : nat) (key : string) : bool :=
  let k := toLowerCase key in
  let n := String.length prefix_lower in
  String.eqb (substring 0 n k) prefix_lower
  && (let rest := substring n (String.length k - n) k in
      all_chars is_digit rest && (min_digits <=? String.length rest)%nat).

(** The body of the [entries.forEach] of [buildConversationFromScenario]: the
    message a legacy flat field contributes, if any. *)
Definition legacy_message (kv : string * json) : option json :=
  let (key, value) := kv in
  match value with
  | JStr s =>
      if negb (nonempty s) then None
      else if prefix_digits "systemmessage" 1 key
      then Some (JObj [("role", JStr "system"); ("content", value)])
      else if prefix_digits "customermessage" 0 key
      then Some (JObj [("role", JStr "customer"); ("content", value)])
      else if prefix_digits "agentmessage" 1 key
      then Some (JObj [("role", JStr "agent"); ("content", value)])
      else None
  | _ => None
  end.

(** [buildConversationFromScenario(scenario)] *)
Definition buildConversationFromScenario (scenario : option json) : list json :=
  match scenario with
  | None => []
  | Some sc =>
      if negb (truthy sc) then []
      else if nonempty_array scenario then normalizeConversationList scenario
      else if nonempty_array (get "conversation" sc)
      then normalizeConversationList (get "conversation" sc)
      else if nonempty_array (get "messages" sc)
      then normalizeConversationList (get "messages" sc)
      else
        normalizeConversationList
          (Some (JArr (filter_map legacy_message (own_entries sc))))
  end.

(** [x || {}] *)
Definition or_empty_object (v : option json) : json :=
  match js_or v (Some (JObj [])) with Some x => x | None => JObj [] end.

(** [conversation.find(m => m && m.role === 'customer' && m.content)] *)
Definition is_customer_with_content (m : json) : bool :=
  truthy m
  && match get "role" m with Some (JStr r) => r =? "customer" | _ => false end
  && otruthy (get "content" m).

(** The object [normalizeScenarioRecord] works on: an array is taken as the
    conversation of an otherwise empty scenario, anything that is not an
    object as the empty scenario. *)
Definition scenarioObject_of (rawScenario : json) : json :=
  match rawScenario with
  | JArr _ => JObj [("conversation", rawScenario)]
  | JObj _ => rawScenario
  | _ => JObj []
  end.

(** The object literal [mergedScenario] starts as:
    [{...defaults, ...scenarioObject, guidelines: {...}, notes: {...},
      rightPanel: {...}}]. *)
Definition merge_with_defaults (scenarioObject defaults : json) : props :=
  let scenarioNotes :=
    or_empty_object (js_or (get "notes" scenarioObject) (get "guidelines" scenarioObject)) in
  let defaultNotes :=
    or_empty_object (js_or (get "notes" defaults) (get "guidelines" defaults)) in
  let mergedScenario := spread (spread [] defaults) scenarioObject in
  let mergedScenario :=
    obj_set "guidelines"
      (JObj (spread (spread [] (or_empty_object (get "guidelines" defaults)))
               (or_empty_object (get "guidelines" scenarioObject))))
      mergedScenario in
  let mergedScenario :=
    obj_set "notes" (JObj (spread (spread [] defaultNotes) scenarioNotes))
      mergedScenario in
  obj_set "rightPanel"
    (JObj (spread (spread [] (or_empty_object (get "rightPanel" defaults)))
             (or_empty_object (get "rightPanel" scenarioObject))))
    mergedScenario.

(** [preloadedConversation] and the assignment it guards. *)
Definition preloadedConversation (scenarioObject : json) : option json :=
  if isArray (get "conversation" scenarioObject) then get "conversation" scenarioObject
  else if isArray (get "messages" scenarioObject) then get "messages" scenarioObject
  else Some (JArr []).

Definition preload_conversation (scenarioObject : json) (mergedScenario : props) : props :=
  match preloadedConversation scenarioObject with
  | Some (JArr (m :: ms)) => obj_set "conversation" (JArr (m :: ms)) mergedScenario
  | _ => mergedScenario
  end.

(** The first customer message's content, put in [customerMessage] when the
    scenario has none. *)
Definition fill_customerMessage (conversation : list json) (mergedScenario : props) : props :=
  if negb (otruthy (assoc "customerMessage" mergedScenario)) then
    match find is_customer_with_content conversation with
    | Some firstCustomer =>
        match get "content" firstCustomer with
        | Some c => obj_set "customerMessage" c mergedScenario
        | None => mergedScenario
        end
    | None => mergedScenario
    end
  else mergedScenario.

(** The end of [normalizeScenarioRecord], from the assignment of the built
    conversation on. *)
Definition fill_record (scenarioKey : string) (conversation : list json) (mergedScenario : props) : props :=
  let mergedScenario := obj_set "conversation" (JArr conversation) mergedScenario in
  let mergedScenario := fill_customerMessage conversation mergedScenario in
  let mergedScenario :=
    set_if (negb (otruthy (assoc "agentName" mergedScenario)))
      "agentName" (JStr "") mergedScenario in
  let mergedScenario :=
    set_if (negb (otruthy (assoc "companyName" mergedScenario)))
      "companyName" (JStr ("Scenario " ++ scenarioKey)) mergedScenario in
  obj_set "agentInitial" (JStr (getCompanyInitial (assoc "companyName" mergedScenario)))
    mergedScenario.

(** [normalizeScenarioRecord(rawScenario, defaults, scenarioKey)], the
    record's properties. *)
Definition normalizeScenarioRecord (rawScenario defaults : json) (scenarioKey : string) : props :=
  let scenarioObject := scenarioObject_of rawScenario in
  let mergedScenario :=
    preload_conversation scenarioObject (merge_with_defaults scenarioObject defaults) in
  fill_record scenarioKey
    (buildConversationFromScenario (Some (JObj mergedScenario))) mergedScenario.

(** The closure [addScenario(key, rawScenario)] acting on the map under
    construction.  Assigning to the name [__proto__] calls the setter the
    map inherits from [Object.prototype]: the record becomes the prototype of
    the map, and the map gets no property of its own. *)
Definition addScenario (defaults : json) (scenarios : props) (key : string) (rawScenario : json) : props :=
  if key =? "__proto__" then scenarios
  else obj_set key (JObj (normalizeScenarioRecord rawScenario defaults key)) scenarios.

(** [String(index + 1)] for the entries of an array, from position [i]. *)
Fixpoint add_indexed (defaults : json) (i : N) (items : list json) (scenarios : props) : props :=
  match items with
  | [] => scenarios
  | item :: rest =>
      add_indexed defaults (N.succ i) rest
        (addScenario defaults scenarios (number_to_string (Z.of_N (i + 1))) item)
  end.

(** [coerceScenariosPayloadToMap(data)], the properties of the returned
    scenario map. *)
Definition coerceScenariosPayloadToMap (data : json) : props :=
  let scenarios : props := [] in
  let defaults :=
    match data with
    | JObj _ => or_empty_object (get "defaults" data)
    | _ => JObj []
    end in
  let object_form :=
    match data with
    | JObj _ => otruthy (get "scenarios" data) && negb (isArray (get "scenarios" data))
    | _ => false
    end in
  if object_form then
    (* [data.scenarios], truthy in this branch *)
    let container := or_empty_object (get "scenarios" data) in
    fold_left
      (fun acc scenarioKey =>
         match get scenarioKey container with
         | Some raw => addScenario defaults acc scenarioKey raw
         | None => acc
         end)
      (map fst (own_entries container)) scenarios
  else
    let asArray :=
      match data with
      | JArr _ => Some data
      | JObj _ => if isArray (get "scenarios" data) then get "scenarios" data else None
      | _ => None
      end in
    match asArray with
    | Some (JArr items) =>
        if isMessageArray asArray then
          addScenario defaults scenarios "1" (JObj [("conversation", JArr items)])
        else add_indexed defaults 0 items scenarios
    | _ => scenarios
    end.

(* ------------------------------------------------------------------ *)
(** ** Label lists: the console's reader and the editor's de-duplication *)
(* ------------------------------------------------------------------ *)

(** The single and the double quotation mark (code units 39 and 34). *)
Definition is_quote (c : ascii) : bool :=
  (nat_of_ascii c =? 39)%nat || (nat_of_ascii c =? 34)%nat.

Definition strip_leading_quote (s : string) : string :=
  match s with
  | String c r => if is_quote c then r else s
  | EmptyString => EmptyString
  end.

Fixpoint strip_trailing_quote (s : string) : string :=
  match s with
  | EmptyString => EmptyString
  | String c EmptyString => if is_quote c then EmptyString else s
  | String c r => String c (strip_trailing_quote r)
  end.

(** [item.replace(/^['"]|['"]$/g, '')]: one quote removed at the start and
    one, at another position, at the end. *)
Definition strip_quotes (s : string) : string :=
  strip_trailing_quote (strip_leading_quote s).

(** The separators of [/[\n,|;]+/]. *)
Definition is_list_separator (c : ascii) : bool :=
  (nat_of_ascii c =? 10)%nat || Ascii.eqb c "," || Ascii.eqb c "|" || Ascii.eqb c ";".

(** [text.split(/[\n,|;]+/)]: [cur] is the piece being read, [in_sep] tells
    that the previous character was a separator. *)
Fixpoint split_runs (in_sep : bool) (cur : string) (s : string) : list string :=
  match s with
  | EmptyString => [cur]
  | String c r =>
      if is_list_separator c then
        if in_sep then split_runs true cur r
        else cur :: split_runs true EmptyString r
      else split_runs false (cur ++ String c EmptyString) r
  end.

(** The pipeline shared by the array and the object branch of
    [normalizeScenarioLabelList]. *)
Definition label_items (items : list json) : list string :=
  filter nonempty
    (map strip_quotes
       (filter (fun item => nonempty item && negb (item =? "[object Object]"))
          (map (fun item => trim (string_or_empty (Some item))) items))).

(** [normalizeScenarioLabelList(value)] *)
Definition normalizeScenarioLabelList (value : option json) : list string :=
  match value with
  | Some (JArr items) => label_items items
  | Some (JObj o) => label_items (map snd o)
  | None | Some JNull => []
  | Some v =>
      let text := trim (ToString v) in
      if negb (nonempty text) then []
      else
        filter nonempty
          (map (fun item => strip_quotes (trim item))
             (split_runs false EmptyString text))
  end.

(** Values the editor handles: what ConvertFrom-Json and the CSV import hand
    to [Convert-ToStringArray].  A scalar that is not a string (a number, a
    boolean, a date) is given by the text [[string]] converts it to. *)
Inductive psvalue : Type :=
| PsNull
| PsString (s : string)
| PsArray (items : list psvalue)
| PsDictionary (entries : list (string * psvalue))
| PsObject (properties : list (string * psvalue))
| PsScalar (text : string).

Section Editor.

(** The conversion [[string]$Value] of an array, a dictionary or an object,
    followed by FormKC normalisation. *)
Variable string_cast : psvalue -> string.

(** [Get-StringValue]; on ASCII text the FormKC normalisation changes
    nothing. *)
Definition Get_StringValue (v : psvalue) : string :=
  match v with
  | PsNull => ""
  | PsString s => s
  | PsScalar text => text
  | _ => string_cast v
  end.

(** The test [$txt -and $txt -ne "{}" -and $txt -ne "[]"]. *)
Definition keeps_text (txt : string) : bool :=
  nonempty txt && negb (txt =? "{}") && negb (txt =? "[]").

Definition collect_texts (values : list psvalue) : list string :=
  filter keeps_text (map (fun item => trim (Get_StringValue item)) values).

(** [Convert-ToStringArray] *)
Definition Convert_ToStringArray (v : psvalue) : list string :=
  match v with
  | PsNull => []
  | PsArray items => collect_texts items
  | PsDictionary entries => collect_texts (map snd entries)
  | PsObject (p :: ps) => collect_texts (map snd (p :: ps))
  | _ => collect_texts [v]
  end.

(** The [foreach] of [Get-UniqueTrimmedStringArray] with its two
    accumulators: the keys seen and the result built so far. *)
Fixpoint unique_loop (items : list string) (seen : list string) (result : list string) : list string :=
  match items with
  | [] => result
  | item :: rest =>
      let txt := trim (Get_StringValue (PsString item)) in
      if negb (nonempty txt) then unique_loop rest seen result
      else
        let key := toLowerCase txt in
        if existsb (String.eqb key) seen then unique_loop rest seen result
        else unique_loop rest (seen ++ [key]) (result ++ [txt])
  end.

(** [Get-UniqueTrimmedStringArray] *)
Definition Get_UniqueTrimmedStringArray (v : psvalue) : list string :=
  unique_loop (Convert_ToStringArray v) [] [].

(** [$out[name]] on the hashtable a record is copied into; its keys compare
    without regard to case. *)
Fixpoint hashtable_get (name : string) (out : list (string * psvalue)) : option psvalue :=
  match out with
  | [] => None
  | (k, v) :: rest =>
      if toLowerCase k =? toLowerCase name then Some v else hashtable_get name rest
  end.

(** The two label lists [Normalize-ScenarioRecordForStorage] stores: the
    snake-case property when the record has it, else the camel-case one,
    else the empty array, through [Get-UniqueTrimmedStringArray]. *)
Definition stored_label_list (snake camel : string) (out : list (string * psvalue)) : list string :=
  Get_UniqueTrimmedStringArray
    (match hashtable_get snake out with
     | Some source => source
     | None =>
         match hashtable_get camel out with
         | Some source => source
         | None => PsArray []
         end
     end).

Definition stored_blocklisted_words : list (string * psvalue) -> list string :=
  stored_label_list "blocklisted_words" "blocklistedWords".

Definition stored_escalation_preferences : list (string * psvalue) -> list string :=
  stored_label_list "escalation_preferences" "escalationPreferences".

End Editor.

(** The property as the specification words it: an entry is kept when no
    earlier entry has the same case-insensitive key. *)
Fixpoint first_occurrences (earlier : list string) (items : list string) : list string :=
  match items with
  | [] => []
  | x :: rest =>
      if existsb (fun y => toLowerCase y =? toLowerCase x) earlier
      then first_occurrences (earlier ++ [x]) rest
      else x :: first_occurrences (earlier ++ [x]) rest
  end.

(* ------------------------------------------------------------------ *)
(** ** Requests to the assignment endpoint and the assignment context *)
(* ------------------------------------------------------------------ *)

(** What [fetch] resolves to: the status class, the status code and the body
    when it parses as JSON. *)
Record response : Type := {
  res_ok : bool;
  res_status : Z;
  res_json : option json
}.

(** A function that may throw. *)
Inductive outcome (A : Type) : Type :=
| Returned (value : A)
| Threw (message : string).
Arguments Returned {A} value.
Arguments Threw {A} message.

(** Interpolation [`${v}`]. *)
Definition template_text (v : option json) : string :=
  match v with None => "undefined" | Some x => ToString x end.

(** [fetchAssignmentGet] and [fetchAssignmentPost] once the request has
    settled; [Threw] is a rejected [fetch]. *)
Definition fetchAssignment (settled : outcome response) : outcome json :=
  match settled with
  | Threw msg => Threw msg
  | Returned res =>
      let json := match res_json res with Some j => j | None => JObj [] end in
      if negb (res_ok res) || (truthy json && otruthy (get "error" json)) then
        Threw (if truthy json && otruthy (get "error" json)
               then template_text (get "error" json)
               else "Request failed (" ++ number_to_string (res_status res) ++ ")")
      else Returned json
  end.

(** [URLSearchParams.get]: the first value of a name, [None] for [null]. *)
Fixpoint query_get (name : string) (query : list (string * string)) : option string :=
  match query with
  | [] => None
  | (k, v) :: rest => if k =? name then Some v else query_get name rest
  end.

(** [value || fallback] on a string that may be [null]. *)
Definition str_or (value : option string) (fallback : string) : string :=
  match value with
  | Some v => if nonempty v then v else fallback
  | None => fallback
  end.

(** [getPageModeFromUrl] and the [mode] of [getAssignmentParamsFromUrl]. *)
Definition getPageModeFromUrl (query : list (string * string)) : string :=
  let mode := toLowerCase (str_or (query_get "mode" query) "edit") in
  if mode =? "view" then "view" else "edit".

Record assignment_params : Type := {
  param_aid : string;
  param_token : string;
  param_mode : string
}.

(** [getAssignmentParamsFromUrl] *)
Definition getAssignmentParamsFromUrl (query : list (string * string)) : assignment_params :=
  {| param_aid := str_or (query_get "aid" query) "";
     param_token := str_or (query_get "token" query) "";
     param_mode := getPageModeFromUrl query |}.

(** The module-level [assignmentContext] object. *)
Record assignment_context : Type := {
  assignment_id : option json;
  send_id : option json;
  role : string;
  mode : string;
  token : string;
  status : option json;
  scenarioKey : string;
  form_state_json : option json;
  internal_note : option json
}.

(** [findScenarioBySendId(scenarios, sendId)], the matching key and
    scenario. *)
Fixpoint find_by_id (target : string) (entries : props) : option (string * json) :=
  match entries with
  | [] => None
  | (key, scenario) :: rest =>
      if trim (string_or_empty (if truthy scenario then get "id" scenario else Some scenario))
         =? target
      then Some (key, scenario)
      else find_by_id target rest
  end.

Definition findScenarioBySendId (scenarios : props) (sendId : option json) : option (string * json) :=
  find_by_id (trim (string_or_empty sendId)) scenarios.

(** [response && response.assignment ? response.assignment : null] *)
Definition assignment_of (response : json) : option json :=
  if truthy response && otruthy (get "assignment" response)
  then get "assignment" response else None.

(** [loadAssignmentContextFromUrl(scenarios)]: [query] is the page's query
    string and [settled] the settled getAssignment request.  The value
    returned is also the one stored in [assignmentContext]. *)
Definition loadAssignmentContextFromUrl (query : list (string * string)) (settled : outcome response) (scenarios : props) : outcome (option assignment_context) :=
  let params := getAssignmentParamsFromUrl query in
  if negb (nonempty (param_aid params)) then Returned None
  else if negb (nonempty (param_token params))
  then Threw "Missing assignment token in URL."
  else
    match fetchAssignment settled with
    | Threw msg => Threw msg
    | Returned response =>
        match assignment_of response with
        | None => Threw "Assignment payload is missing."
        | Some assignment =>
            match findScenarioBySendId scenarios (get "send_id" assignment) with
            | None =>
                Threw ("Scenario for send_id "
                       ++ template_text (get "send_id" assignment)
                       ++ " was not found in loaded scenarios.")
            | Some (key, _) =>
                Returned (Some
                  {| assignment_id := get "assignment_id" assignment;
                     send_id := get "send_id" assignment;
                     role :=
                       match get "role" assignment with
                       | Some (JStr "viewer") => "viewer"
                       | _ => "editor"
                       end;
                     mode := param_mode params;
                     token := param_token params;
                     status := js_or (get "status" assignment) (Some (JStr ""));
                     scenarioKey := key;
                     form_state_json :=
                       js_or (get "form_state_json" assignment) (Some (JStr ""));
                     internal_note :=
                       js_or (get "internal_note" assignment) (Some (JStr "")) |})
            end
        end
    end.

(* ------------------------------------------------------------------ *)
(** ** Navigation between conversations *)
(* ------------------------------------------------------------------ *)

(** Skips the white space [parseInt] ignores in front of a numeral. *)
Definition skip_ws := trim_start.

(** The longest prefix of digits, as a number; [None] when there is no
    digit. *)
Fixpoint leading_digits (s : string) (acc : option N) : option N :=
  match s with
  | EmptyString => acc
  | String c r =>
      if is_digit c then
        leading_digits r
          (Some (match acc with Some a => a * 10 + digit_value c | None => digit_value c end)%N)
      else acc
  end.

(** [parseInt(s, 10)]; [None] is NaN. *)
Definition parseInt10 (s : string) : option Z :=
  match skip_ws s with
  | String "-" r =>
      match leading_digits r None with Some n => Some (- Z.of_N n)%Z | None => None end
  | String "+" r =>
      match leading_digits r None with Some n => Some (Z.of_N n) | None => None end
  | t => match leading_digits t None with Some n => Some (Z.of_N n) | None => None end
  end.

Fixpoint insert_sorted (n : Z) (l : list Z) : list Z :=
  match l with
  | [] => [n]
  | m :: l' => if (n <? m)%Z then n :: l else m :: insert_sorted n l'
  end.

(** [numbers.sort((a, b) => a - b)] *)
Definition sort_ascending (l : list Z) : list Z :=
  fold_left (fun acc n => insert_sorted n acc) l [].

(** The key list both scenario-list computations build:
    [Object.keys(data).map(k => parseInt(k, 10)).filter(n => !isNaN(n))
       .sort((a, b) => a - b).map(n => String(n))]. *)
Definition scenario_keys (data : props) : list string :=
  map number_to_string
    (sort_ascending (filter_map (fun kv => parseInt10 (fst kv)) data)).

(** [list.indexOf(x)] and [list.findIndex(p)]: the first position, -1 when
    there is none. *)
Fixpoint findIndex_from {A : Type} (i : Z) (p : A -> bool) (l : list A) : Z :=
  match l with
  | [] => (-1)%Z
  | x :: l' => if p x then i else findIndex_from (i + 1)%Z p l'
  end.

Definition findIndex {A : Type} (p : A -> bool) (l : list A) : Z :=
  findIndex_from 0%Z p l.

(** [list[i]] for an integer [i]; [None] out of range. *)
Definition at_index {A : Type} (l : list A) (i : Z) : option A :=
  if (i <? 0)%Z then None else nth_error l (Z.to_nat i).

(** The index both navigation paths compute:
    [currentIndex >= 0 ? (currentIndex + direction + length) % length
                       : (direction > 0 ? 0 : length - 1)]. *)
Definition targetIndex (currentIndex direction length : Z) : Z :=
  let fallbackIndex := if (0 <? direction)%Z then 0%Z else (length - 1)%Z in
  if (0 <=? currentIndex)%Z
  then Z.rem (currentIndex + direction + length) length
  else fallbackIndex.

(** Where [window.location.href] is sent: a URL handed over by the server,
    or the console's page with its query parameters in the order they were
    set (before URL encoding). *)
Inductive location : Type :=
| Href (url : string)
| AppHtml
| AppHtmlQuery (params : list (string * string)).

(** What the navigation code reads from the page, the browser storage and the
    network. *)
Record page : Type := {
  page_query : list (string * string);
  stored_agentName : option string;
  stored_agentEmail : option string;
  stored_unlockedScenario : option string;
  stored_currentScenarioNumber : option string;
  protocol_is_file : bool;
  scenarios_document : option json;
  queue_request : outcome response;
  cached_assignmentQueue : list json;
  current_assignmentContext : option assignment_context;
  has_assignmentSelect : bool
}.

(** [getScenarioNumberFromUrl] *)
Definition getScenarioNumberFromUrl (pg : page) : option string :=
  match query_get "scenario" (page_query pg) with
  | Some v => if nonempty v then Some v else None
  | None => None
  end.

(** [getCurrentScenarioNumber] *)
Definition getCurrentScenarioNumber (pg : page) : string :=
  match getScenarioNumberFromUrl pg with
  | Some v => v
  | None => str_or (stored_currentScenarioNumber pg) "1"
  end.

(** The value of a hexadecimal digit. *)
Definition hex_digit (c : ascii) : option N :=
  let n := nat_of_ascii c in
  if is_digit c then Some (N.of_nat (n - 48))
  else if ((97 <=? n) && (n <=? 102))%nat then Some (N.of_nat (n - 87))
  else if ((65 <=? n) && (n <=? 70))%nat then Some (N.of_nat (n - 55))
  else None.

(** The longest prefix of hexadecimal digits, as a number; [None] when there
    is no digit. *)
Fixpoint leading_hex_digits (s : string) (acc : option N) : option N :=
  match s with
  | EmptyString => acc
  | String c r =>
      match hex_digit c with
      | Some v =>
          leading_hex_digits r
            (Some (match acc with Some a => a * 16 + v | None => v end)%N)
      | None => acc
      end
  end.

(** The numeral [parseInt(s)] reads after the sign when no radix is given:
    hexadecimal digits after a [0x] or [0X] prefix, decimal digits
    otherwise. *)
Definition leading_numeral (s : string) : option N :=
  match s with
  | String "0" (String x r) =>
      if Ascii.eqb x "x" || Ascii.eqb x "X" then leading_hex_digits r None
      else leading_digits s None
  | _ => leading_digits s None
  end.

(** [parseInt(s)] without a radix; [None] is NaN. *)
Definition parseInt (s : string) : option Z :=
  match skip_ws s with
  | String "-" r =>
      match leading_numeral r with Some n => Some (- Z.of_N n)%Z | None => None end
  | String "+" r =>
      match leading_numeral r with Some n => Some (Z.of_N n) | None => None end
  | t => match leading_numeral t with Some n => Some (Z.of_N n) | None => None end
  end.

(** [getCurrentUnlockedScenario]; [None] is NaN. *)
Definition getCurrentUnlockedScenario (pg : page) : option Z :=
  match stored_unlockedScenario pg with
  | Some v => if nonempty v then parseInt v else Some 1%Z
  | None => Some 1%Z
  end.

(** [isAdminUser] *)
Definition isAdminUser (pg : page) : bool :=
  toLowerCase (trim (str_or (stored_agentName pg) "")) =? "admin".

Definition isCsvScenarioMode : bool := false.

(** [canAccessScenario(scenarioNumber)]; the argument is [None] when the
    caller read past the end of its key list. *)
Definition canAccessScenario (pg : page) (scenarioNumber : option string) : bool :=
  if isAdminUser pg then true
  else if isCsvScenarioMode then true
  else
    match scenarioNumber with
    | None => false
    | Some number =>
        match parseInt number, getCurrentUnlockedScenario pg with
        | Some requested, Some unlocked => (requested =? unlocked)%Z
        | _, _ => false
        end
    end.

(** [loadScenariosData]; [None] is the [null] of a failed load. *)
Definition loadScenariosData (pg : page) : option props :=
  if protocol_is_file pg then
    Some [("1", JObj
      [("companyName", JStr "Demo Company");
       ("agentName", JStr (str_or (stored_agentName pg) "Agent"));
       ("customerPhone", JStr "(000) 000-0000");
       ("customerMessage", JStr "Welcome! Start the conversation here.");
       ("agentInitial", JStr "A");
       ("notes", JObj [("important",
          JArr [JStr "Run with a local server to load full scenarios.json"])]);
       ("rightPanel", JObj [("source",
          JObj [("label", JStr "Source"); ("value", JStr "Local Demo");
                ("date", JStr "")])])])]
  else
    match scenarios_document pg with
    | Some data => Some (coerceScenariosPayloadToMap data)
    | None => None
    end.

(** [buildScenarioUrl(scenarioKey, scenariosOverride)] *)
Definition buildScenarioUrl (pg : page) (scenarioKey : option string) (scenarios : props) : location :=
  let key := trim (str_or scenarioKey "") in
  if negb (nonempty key) then AppHtml
  else
    let scenario :=
      match assoc key scenarios with
      | Some sc => if truthy sc then Some sc else None
      | None => None
      end in
    let scenarioId :=
      match scenario with
      | Some sc =>
          if otruthy (get "id" sc) then trim (template_text (get "id" sc)) else ""
      | None => ""
      end in
    AppHtmlQuery
      ([("scenario", key)]
       ++ (if nonempty scenarioId then [("sid", scenarioId)] else [])
       ++ [("mode", getPageModeFromUrl (page_query pg))]).

(** An option element of the assignment select; the placeholder has no data
    attributes. *)
Record select_option : Type := {
  option_value : string;
  option_textContent : string;
  option_editUrl : option string;
  option_viewUrl : option string
}.

(** The callback of the [forEach] of [renderAssignmentQueue]: the option
    built for one assignment; reading a property of [null] throws. *)
Definition assignment_option (assignment : json) : outcome select_option :=
  match assignment with
  | JNull => Threw "Cannot read properties of null"
  | _ =>
      Returned
        {| option_value :=
             template_text (js_or (get "assignment_id" assignment) (Some (JStr "")));
           option_textContent :=
             template_text (js_or (get "send_id" assignment)
                                  (get "assignment_id" assignment))
             ++ " ("
             ++ template_text (js_or (get "status" assignment) (Some (JStr "ASSIGNED")))
             ++ ")";
           option_editUrl :=
             Some (template_text (js_or (get "edit_url" assignment) (Some (JStr ""))));
           option_viewUrl :=
             Some (template_text (js_or (get "view_url" assignment) (Some (JStr "")))) |}
  end.

(** The [forEach]: it stops at the first assignment whose option cannot be
    built. *)
Fixpoint assignment_options (assignments : list json) : outcome (list select_option) :=
  match assignments with
  | [] => Returned []
  | assignment :: rest =>
      match assignment_option assignment with
      | Threw msg => Threw msg
      | Returned o =>
          match assignment_options rest with
          | Threw msg => Threw msg
          | Returned os => Returned (o :: os)
          end
      end
  end.

(** [renderAssignmentQueue(assignments)] on an array: the options the
    assignment select is given, none when the page has no such select. *)
Definition renderAssignmentQueue (pg : page) (assignments : list json) : outcome (list select_option) :=
  if negb (has_assignmentSelect pg) then Returned []
  else
    match assignments with
    | [] =>
        Returned [{| option_value := "";
                     option_textContent := "No active assignments";
                     option_editUrl := None;
                     option_viewUrl := None |}]
    | _ :: _ => assignment_options assignments
    end.

(** [refreshAssignmentQueue]: the assignments returned, which also replace
    the cached queue. *)
Definition refreshAssignmentQueue (pg : page) : outcome (list json) :=
  let email := toLowerCase (trim (str_or (stored_agentEmail pg) "")) in
  if negb (nonempty email) then Threw "Missing logged-in email."
  else
    match fetchAssignment (queue_request pg) with
    | Threw msg => Threw msg
    | Returned JNull => Threw "Cannot read properties of null"
    | Returned response =>
        let assignments :=
          match get "assignments" response with
          | Some (JArr l) => l
          | _ => []
          end in
        match renderAssignmentQueue pg assignments with
        | Threw msg => Threw msg
        | Returned _ => Returned assignments
        end
    end.

(** The queue [navigateAssignmentQueue] works on: the cached one, or the one
    a refresh returns when the cache is empty ([[]] when the refresh
    fails). *)
Definition navigation_queue (pg : page) : list json :=
  match cached_assignmentQueue pg with
  | _ :: _ => cached_assignmentQueue pg
  | [] =>
      match refreshAssignmentQueue pg with
      | Returned l => l
      | Threw _ => []
      end
  end.

(** The identifier of the open assignment, [''] when there is none. *)
Definition currentAssignmentId (pg : page) : string :=
  match current_assignmentContext pg with
  | Some ctx =>
      if otruthy (assignment_id ctx) then template_text (assignment_id ctx) else ""
  | None => ""
  end.

(** [String((item && item.assignment_id) || '')] *)
Definition queue_item_id (item : json) : string :=
  string_or_empty (if truthy item then get "assignment_id" item else Some item).

(** The position of the open assignment in the queue, -1 when absent. *)
Definition queue_currentIndex (pg : page) (queue : list json) : Z :=
  let currentId := currentAssignmentId pg in
  if nonempty currentId
  then findIndex (fun item => queue_item_id item =? currentId) queue
  else (-1)%Z.

(** The queue item [navigateAssignmentQueue] aims at: [queue[targetIndex]]. *)
Definition targetAssignment (pg : page) (direction : Z) (queue : list json) : option json :=
  at_index queue
    (targetIndex (queue_currentIndex pg queue) direction
       (Z.of_nat (List.length queue))).

(** [navigateAssignmentQueue(direction)]: the URL the page is sent to;
    [None] is the result [false]. *)
Definition navigateAssignmentQueue (pg : page) (direction : Z) : option string :=
  let queue := navigation_queue pg in
  match queue with
  | [] => None
  | _ :: _ =>
      let target := targetAssignment pg direction queue in
      let url :=
        match target with
        | Some item =>
            if truthy item && otruthy (get "edit_url" item)
            then template_text (get "edit_url" item)
            else ""
        | None => ""
        end in
      if nonempty url then Some url else None
  end.

(** The position of the current scenario in the sorted key list. *)
Definition scenario_currentIndex (pg : page) (keys : list string) : Z :=
  findIndex (fun k => k =? getCurrentScenarioNumber pg) keys.

(** The scenario [navigateScenarioList] aims at: [keys[targetIndex]]. *)
Definition targetScenario (pg : page) (direction : Z) (keys : list string) : option string :=
  at_index keys
    (targetIndex (scenario_currentIndex pg keys) direction
       (Z.of_nat (List.length keys))).

(** [navigateScenarioList(direction)]: the scenario stored as current (when
    there is one to store) and the page it navigates to; [None] when it
    returns without navigating. *)
Definition navigateScenarioList (pg : page) (direction : Z) : option (option string * location) :=
  match loadScenariosData pg with
  | None => None
  | Some data =>
      let keys := scenario_keys data in
      match keys with
      | [] => None
      | _ :: _ =>
          let target := targetScenario pg direction keys in
          if negb isCsvScenarioMode && negb (canAccessScenario pg target)
          then None
          else Some (target, buildScenarioUrl pg target data)
      end
  end.

(** [navigateConversation(direction)]: where the page goes, if anywhere. *)
Definition navigateConversation (pg : page) (direction : Z) : option location :=
  match navigateAssignmentQueue pg direction with
  | Some url => Some (Href url)
  | None =>
      match navigateScenarioList pg direction with
      | Some (_, loc) => Some loc
      | None => None
      end
  end.

(* ------------------------------------------------------------------ *)
(** ** Evaluation form: category cells and the submit handler *)
(* ------------------------------------------------------------------ *)

Definition CATEGORY_LABELS : list (string * list string) :=
  [("issue_identification", ["Intent Identified"; "Necessary Reply"]);
   ("proper_resolution",
    ["Efficient Troubleshooting"; "Correct Escalation"; "Double Text"; "Partial Reply"]);
   ("product_sales",
    ["General Recommendation"; "Discount Upsell"; "Restock Question"; "Upsell"]);
   ("accuracy",
    ["Credible Source"; "Promo - Active"; "Promo - Correct"; "Promo - Hallucinated";
     "Link - Broken"; "Link - Correct Page"; "Link - Correct Region";
     "Link - Correct Website"; "Link - Filtered"; "Link - Relevant Item"]);
   ("workflow",
    ["Checkout Page"; "Company Profile"; "Conversation"; "Customer Profile"; "Notes";
     "Product Information"; "Promo Notes"; "Templates"; "Website"]);
   ("clarity",
    ["Correct Grammar"; "No Typos"; "No Repetition"; "Understandable Message"]);
   ("tone", ["Preferred tone followed"; "Personalized"; "Empathetic"])].

Definition VALUE_TO_LABEL : list (string * list (string * string)) :=
  [("issue_identification",
    [("intent_identified", "Intent Identified"); ("necessary_reply", "Necessary Reply")]);
   ("proper_resolution",
    [("efficient_troubleshooting", "Efficient Troubleshooting");
     ("correct_escalation", "Correct Escalation"); ("double_text", "Double Text");
     ("partial_reply", "Partial Reply")]);
   ("product_sales",
    [("general_recommendation", "General Recommendation");
     ("discount_upsell", "Discount Upsell"); ("restock_question", "Restock Question");
     ("upsell", "Upsell")]);
   ("accuracy",
    [("credible_source", "Credible Source"); ("promo_active", "Promo - Active");
     ("promo_correct", "Promo - Correct"); ("promo_hallucinated", "Promo - Hallucinated");
     ("link_broken", "Link - Broken"); ("link_correct_page", "Link - Correct Page");
     ("link_correct_region", "Link - Correct Region");
     ("link_correct_website", "Link - Correct Website");
     ("link_filtered", "Link - Filtered"); ("link_relevant_item", "Link - Relevant Item")]);
   ("workflow",
    [("checkout_page", "Checkout Page"); ("company_profile", "Company Profile");
     ("conversation", "Conversation"); ("customer_profile", "Customer Profile");
     ("notes", "Notes"); ("product_information", "Product Information");
     ("promo_notes", "Promo Notes"); ("templates", "Templates"); ("website", "Website")]);
   ("clarity",
    [("correct_grammar", "Correct Grammar"); ("no_typos", "No Typos");
     ("no_repetition", "No Repetition");
     ("understandable_message", "Understandable Message")]);
   ("tone",
    [("preferred_tone_followed", "Preferred tone followed");
     ("personalized", "Personalized"); ("empathetic", "Empathetic")])].

Definition checkboxCategories : list string :=
  ["issue_identification"; "proper_resolution"; "product_sales"; "accuracy";
   "workflow"; "clarity"; "tone"].

(** [table[k]] on one of the constant tables above (an own property). *)
Fixpoint lookup {A : Type} (k : string) (table : list (string * A)) : option A :=
  match table with
  | [] => None
  | (k', v) :: rest => if k =? k' then Some v else lookup k rest
  end.

(** [formData.getAll(name)]; a form's data is its list of (name, value)
    entries in document order. *)
Definition getAll (name : string) (formData : list (string * string)) : list string :=
  map snd (filter (fun entry => fst entry =? name) formData).

(** The object [selectedByCategory] the handler fills for the seven checkbox
    categories. *)
Definition selectedByCategory (formData : list (string * string)) : list (string * list string) :=
  map (fun category => (category, getAll category formData)) checkboxCategories.

(** The labels put into the [Set] named [selected]:
    [slugs.map(v => valueMap[v]).filter(Boolean)]. *)
Definition selected_labels (valueMap : list (string * string)) (slugs : list string) : list string :=
  filter nonempty (filter_map (fun v => lookup v valueMap) slugs).

(** [buildCategoryCell(categoryKey)] for the slugs selected per category. *)
Definition buildCategoryCell (selection : list (string * list string)) (categoryKey : string) : string :=
  let full := match lookup categoryKey CATEGORY_LABELS with Some l => l | None => [] end in
  let valueMap := match lookup categoryKey VALUE_TO_LABEL with Some m => m | None => [] end in
  let selected :=
    selected_labels valueMap
      (match lookup categoryKey selection with Some l => l | None => [] end) in
  let included := filter (fun label => existsb (String.eqb label) selected) full in
  join "," included.

(** Everything the submit handler does that can be observed from outside. *)
Inductive effect : Type :=
| PreventDefault
| SetFormStatus (text color : string)
| ResetTimer
| SetSubmitDisabled (disabled : bool)
| PostEvaluation (payload : props)
| PostAssignment (action : string) (payload : props)
| StoreItem (key value : string)
| RemoveItem (key : string)
| RenderAssignmentQueue (assignments : list json)
| SetLocation (url : string)
| ResetForm
| ConsoleError.

(** The effects that issue a network request. *)
Definition is_request (e : effect) : bool :=
  match e with
  | PostEvaluation _ | PostAssignment _ _ => true
  | _ => false
  end.

(** What the submit handler reads: the page, the form and the requests as
    they will settle. *)
Record form_page : Type := {
  form_context : option assignment_context;
  has_formStatus : bool;
  has_formSubmitBtn : bool;
  form_data : list (string * string);
  zeroToleranceLabel : string;
  form_state_raw : string;
  internalNotes_value : option string;
  form_agentName : option string;
  form_agentEmail : option string;
  timer_time : string;
  est_timestamp : string;
  app_base_url : string;
  evaluation_request : outcome response;
  done_request : outcome response
}.

Definition set_status (fp : form_page) (text color : string) : list effect :=
  if has_formStatus fp then [SetFormStatus text color] else [].

Definition set_disabled (fp : form_page) (disabled : bool) : list effect :=
  if has_formSubmitBtn fp then [SetSubmitDisabled disabled] else [].

(** The guard at the top of the handler:
    [assignmentContext && (role !== 'editor' || mode === 'view')]. *)
Definition submission_blocked (ctx : option assignment_context) : bool :=
  match ctx with
  | Some c => negb (role c =? "editor") || (mode c =? "view")
  | None => false
  end.

Definition some_or_empty (v : option json) : json :=
  match v with Some x => x | None => JStr "" end.

(** A property of an object literal that [JSON.stringify] leaves out when
    its value is [undefined]. *)
Definition optional_prop (k : string) (v : option json) : props :=
  match v with Some x => [(k, x)] | None => [] end.

(** [assignmentFormStateStorageKey()] and [assignmentNotesStorageKey()] *)
Definition assignmentStorageKey (prefix : string) (ctx : option assignment_context) : string :=
  match ctx with
  | Some c =>
      if otruthy (assignment_id c) then prefix ++ template_text (assignment_id c) else ""
  | None => ""
  end.

(** The storage key the form state lives under. *)
Definition formStateKey (ctx : option assignment_context) : string :=
  match ctx with
  | Some c =>
      if otruthy (assignment_id c)
      then assignmentStorageKey "customFormState_assignment_" ctx
      else "customFormState"
  | None => "customFormState"
  end.

(** [saveAssignmentDraft(customForm)]; the handler ignores the way its
    request settles. *)
Definition saveAssignmentDraft (fp : form_page) : list effect :=
  match form_context fp with
  | None => []
  | Some c =>
      if negb (role c =? "editor") then []
      else if negb (otruthy (assignment_id c)) || negb (nonempty (token c)) then []
      else
        let notesValue := match internalNotes_value fp with Some v => v | None => "" end in
        let formKey := assignmentStorageKey "customFormState_assignment_" (Some c) in
        let notesKey := assignmentStorageKey "internalNotes_assignment_" (Some c) in
        (if nonempty formKey then [StoreItem formKey (form_state_raw fp)] else [])
        ++ (if nonempty notesKey then [StoreItem notesKey notesValue] else [])
        ++ [PostAssignment "saveDraft"
              (optional_prop "assignment_id" (assignment_id c)
               ++ [("token", JStr (token c));
                   ("form_state_json", JStr (form_state_raw fp));
                   ("internal_note", JStr notesValue)])%list]
  end.

(** The body sent with the evaluation. *)
Definition evaluation_payload (fp : form_page) (notesVal : string) : props :=
  let selection := selectedByCategory (form_data fp) in
  let agentUsername := str_or (form_agentName fp) "Unknown Agent" in
  let agentEmail := str_or (form_agentEmail fp) "" in
  [("eventType", JStr "evaluationFormSubmission");
   ("timestamp", JStr (est_timestamp fp));
   ("emailAddress", JStr (if nonempty agentEmail then agentEmail else agentUsername));
   ("messageId",
    match form_context fp with
    | Some c => some_or_empty (js_or (send_id c) (Some (JStr "")))
    | None => JStr ""
    end);
   ("auditTime", JStr (timer_time fp));
   ("issueIdentification", JStr (buildCategoryCell selection "issue_identification"));
   ("properResolution", JStr (buildCategoryCell selection "proper_resolution"));
   ("productSales", JStr (buildCategoryCell selection "product_sales"));
   ("accuracy", JStr (buildCategoryCell selection "accuracy"));
   ("workflow", JStr (buildCategoryCell selection "workflow"));
   ("clarity", JStr (buildCategoryCell selection "clarity"));
   ("tone", JStr (buildCategoryCell selection "tone"));
   ("zeroTolerance", JStr (zeroToleranceLabel fp));
   ("notes", JStr notesVal)].

Definition failure_effects (fp : form_page) : list effect :=
  ConsoleError :: set_status fp "Submission failed. Please try again." "#e74c3c".

(** What follows a successful submission when no next assignment is
    opened. *)
Definition after_success (fp : form_page) : list effect :=
  set_status fp "Submitted successfully." "#28a745"
  ++ [ResetForm; RemoveItem (formStateKey (form_context fp))].

(** The [if (success)] branch of the handler. *)
Definition on_success (fp : form_page) : list effect :=
  match form_context fp with
  | Some c =>
      if role c =? "editor" then
        saveAssignmentDraft fp
        ++ PostAssignment "done"
             (optional_prop "assignment_id" (assignment_id c)
              ++ [("token", JStr (token c));
                  ("app_base", JStr (app_base_url fp))])%list
           :: match fetchAssignment (done_request fp) with
              | Threw _ => failure_effects fp
              | Returned JNull => failure_effects fp
              | Returned doneRes =>
                  let nextQueue :=
                    match get "assignments" doneRes with
                    | Some (JArr l) => l
                    | _ => []
                    end in
                  RenderAssignmentQueue nextQueue
                  :: match nextQueue with
                     | JNull :: _ => failure_effects fp
                     | first :: _ =>
                         if otruthy (get "edit_url" first)
                         then [SetLocation (template_text (get "edit_url" first))]
                         else after_success fp
                     | [] => after_success fp
                     end
              end
      else after_success fp
  | None => after_success fp
  end.

(** The submit listener of the evaluation form. *)
Definition submit_handler (fp : form_page) : list effect :=
  PreventDefault
  :: if submission_blocked (form_context fp)
     then set_status fp "View-only link cannot submit." "#e74c3c"
     else
       let notesVal := str_or (query_get "notes" (form_data fp)) "" in
       if negb (nonempty (trim notesVal))
       then set_status fp "Notes field is required." "#e74c3c"
       else
         ResetTimer
         :: set_disabled fp true
         ++ set_status fp "Submitting..." "#555"
         ++ PostEvaluation (evaluation_payload fp notesVal)
            :: match evaluation_request fp with
               | Threw _ => failure_effects fp
               | Returned res =>
                   let success :=
                     match res_json res with
                     | Some json =>
                         res_ok res && truthy json
                         && match get "status" json with
                            | Some (JStr "success") => true
                            | _ => false
                            end
                     | None => res_ok res
                     end in
                   let serverMsg :=
                     match res_json res with
                     | Some json =>
                         if truthy json && otruthy (get "message" json)
                         then get "message" json else None
                     | None => None
                     end in
                   if success then on_success fp
                   else
                     set_status fp
                       ("Submission failed. "
                        ++ (if otruthy serverMsg
                            then "Details: " ++ template_text serverMsg
                            else "Please try again."))
                       "#e74c3c"
               end
         ++ set_disabled fp false.

(* ------------------------------------------------------------------ *)
(** ** Opening a scenario: the unlock counter and the requested scenario *)
(* ------------------------------------------------------------------ *)

(** The page after [localStorage.setItem('unlockedScenario', value)]. *)
Definition store_unlockedScenario (pg : page) (value : string) : page :=
  {| page_query := page_query pg;
     stored_agentName := stored_agentName pg;
     stored_agentEmail := stored_agentEmail pg;
     stored_unlockedScenario := Some value;
     stored_currentScenarioNumber := stored_currentScenarioNumber pg;
     protocol_is_file := protocol_is_file pg;
     scenarios_document := scenarios_document pg;
     queue_request := queue_request pg;
     cached_assignmentQueue := cached_assignmentQueue pg;
     current_assignmentContext := current_assignmentContext pg;
     has_assignmentSelect := has_assignmentSelect pg |}.

(** [String(n)] for a number that may be NaN. *)
Definition number_text (n : option Z) : string :=
  match n with Some z => number_to_string z | None => "NaN" end.

(** [unlockNextScenario]: the number it returns ([None] is NaN) and the page
    it leaves, with that number stored as [unlockedScenario]. *)
Definition unlockNextScenario (pg : page) : option Z * page :=
  let nextScenario :=
    match getCurrentUnlockedScenario pg with
    | Some currentUnlocked => Some (currentUnlocked + 1)%Z
    | None => None
    end in
  (nextScenario, store_unlockedScenario pg (number_text nextScenario)).

(** [getScenarioIdFromUrl] *)
Definition getScenarioIdFromUrl (pg : page) : string :=
  match query_get "sid" (page_query pg) with
  | Some v => if nonempty v then trim v else ""
  | None => ""
  end.

(** The loop of [findScenarioKeyById]. *)
Fixpoint find_key_by_id (target : string) (entries : props) : string :=
  match entries with
  | [] => ""
  | (key, scenario) :: rest =>
      if trim (string_or_empty (if truthy scenario then get "id" scenario else Some scenario))
         =? target
      then key
      else find_key_by_id target rest
  end.

(** [findScenarioKeyById(scenarios, scenarioId)] *)
Definition findScenarioKeyById (scenarios : props) (scenarioId : option json) : string :=
  let target := trim (string_or_empty scenarioId) in
  if negb (nonempty target) then "" else find_key_by_id target scenarios.

(** The names an object inherits from [Object.prototype]; reading one of
    them gives a function, or the prototype for [__proto__]. *)
Definition inherited_names : list string :=
  ["constructor"; "hasOwnProperty"; "isPrototypeOf"; "propertyIsEnumerable";
   "toLocaleString"; "toString"; "valueOf"; "__proto__"; "__defineGetter__";
   "__defineSetter__"; "__lookupGetter__"; "__lookupSetter__"].

(** Whether [scenarios[key]] is truthy: an own property with a truthy value,
    or an inherited one. *)
Definition has_member (key : string) (scenarios : props) : bool :=
  match assoc key scenarios with
  | Some v => truthy v
  | None => existsb (String.eqb key) inherited_names
  end.

(** [resolveRequestedScenarioKey(scenarios)] *)
Definition resolveRequestedScenarioKey (pg : page) (scenarios : props) : string :=
  let sid := getScenarioIdFromUrl pg in
  let byId :=
    if nonempty sid then findScenarioKeyById scenarios (Some (JStr sid)) else "" in
  if nonempty byId then byId
  else
    let fromStorage :=
      match stored_currentScenarioNumber pg with
      | Some stored =>
          if nonempty stored && has_member stored scenarios then stored else ""
      | None => ""
      end in
    match getScenarioNumberFromUrl pg with
    | Some byNumber =>
        if nonempty byNumber && has_member byNumber scenarios then byNumber
        else fromStorage
    | None => fromStorage
    end.

(** The [activeScenario] of the start-up code:
    [scenarios[requestedScenario] ? requestedScenario : (scenarioKeys[0] || '1')]
    with [requestedScenario] the resolved key or else the current scenario
    number. *)
Definition activeScenario (pg : page) (scenarios : props) : string :=
  let resolved := resolveRequestedScenarioKey pg scenarios in
  let requestedScenario :=
    if nonempty resolved then resolved else getCurrentScenarioNumber pg in
  if has_member requestedScenario scenarios then requestedScenario
  else
    match scenario_keys scenarios with
    | first :: _ => if nonempty first then first else "1"
    | [] => "1"
    end.

(** What the start-up code opens once the scenarios are loaded: the page of
    an assignment, or a scenario, stored as the current one and loaded. *)
Inductive opened : Type :=
| OpenedAssignment (url : string)
| OpenedScenario (key : string).

(** The start-up code on a page whose URL names no assignment ([hasAid] is
    false).  The queue is refreshed; when it has a first assignment with a
    truthy [edit_url], the page goes there.  Otherwise, and when the refresh
    throws or the first assignment is [null] (the [catch] branch), the active
    scenario is opened. *)
Definition startup_without_assignment (pg : page) (scenarios : props) : opened :=
  match refreshAssignmentQueue pg with
  | Threw _ => OpenedScenario (activeScenario pg scenarios)
  | Returned [] => OpenedScenario (activeScenario pg scenarios)
  | Returned (JNull :: _) => OpenedScenario (activeScenario pg scenarios)
  | Returned (first :: _) =>
      let firstEditUrl := js_or (get "edit_url" first) (Some (JStr "")) in
      if otruthy firstEditUrl then OpenedAssignment (template_text firstEditUrl)
      else OpenedScenario (activeScenario pg scenarios)
  end.

(* ------------------------------------------------------------------ *)
(** ** Templates offered for a scenario, and amounts *)
(* ------------------------------------------------------------------ *)

(** [normalizeName(value)] *)
Definition normalizeName (value : option json) : string :=
  toLowerCase (trim (string_or_empty value)).

(** [template && template.companyName] *)
Definition template_companyName (template : json) : option json :=
  if truthy template then get "companyName" template else Some template.

(** [isGlobalTemplate(template)] *)
Definition isGlobalTemplate (template : json) : bool :=
  negb (nonempty (normalizeName (template_companyName template))).

(** [formatDollarAmount(rawValue)] *)
Definition formatDollarAmount (rawValue : option json) : string :=
  if is_nullish rawValue then ""
  else
    let text := trim (template_text rawValue) in
    if negb (nonempty text) then ""
    else
      match text with
      | String "$" _ => text
      | _ => "$" ++ text
      end.

(** The templates [getTemplatesForScenario] chooses from, for a scenario
    that is not [null]: the loaded templates.json when it has entries, the
    scenario's own otherwise. *)
Definition sourceTemplates (templatesData : list json) (scenario : json) : list json :=
  match templatesData with
  | _ :: _ => templatesData
  | [] =>
      match get "rightPanel" scenario with
      | Some rightPanel =>
          if truthy rightPanel
          then match get "templates" rightPanel with
               | Some (JArr templates) => templates
               | _ => []
               end
          else []
      | None => []
      end
  end.

(** One round of the [forEach] that fills [matching] and [global]. *)
Definition sort_template (companyKey : string) (lists : list json * list json) (template : json) : list json * list json :=
  let templateCompany := normalizeName (template_companyName template) in
  if negb (nonempty templateCompany) then (fst lists, (snd lists ++ [template])%list)
  else if templateCompany =? companyKey then ((fst lists ++ [template])%list, snd lists)
  else lists.

(** [getTemplatesForScenario(scenario)], [templatesData] being the loaded
    templates.json.  Reading [rightPanel] or [companyName] of [null]
    throws. *)
Definition getTemplatesForScenario (templatesData : list json) (scenario : json) : outcome (list json) :=
  match scenario with
  | JNull => Threw "Cannot read properties of null"
  | _ =>
      Returned
        (match sourceTemplates templatesData scenario with
         | [] => []
         | source =>
             let companyKey := normalizeName (get "companyName" scenario) in
             let lists := fold_left (sort_template companyKey) source ([], []) in
             (fst lists ++ snd lists)%list
         end)
  end.

(* ------------------------------------------------------------------ *)
(** ** The conversation view *)
(* ------------------------------------------------------------------ *)

(** The double quote. *)
Definition dquote : string := String (ascii_of_nat 34) EmptyString.

(** [v === text] for a string literal. *)
Definition is_text (v : option json) (text : string) : bool :=
  match v with
  | Some (JStr s) => s =? text
  | _ => false
  end.

(** [/^prefix/i.test(text)], the prefix being written in lower case. *)
Definition starts_with_ci (prefix text : string) : bool :=
  String.prefix prefix (toLowerCase text).

Fixpoint drop_chars (n : nat) (s : string) : string :=
  match n, s with
  | S n', String _ s' => drop_chars n' s'
  | _, _ => s
  end.

(** [text.replace(/^prefix/i, '')] *)
Definition strip_prefix_ci (prefix text : string) : string :=
  if starts_with_ci prefix text then drop_chars (String.length prefix) text else text.

(** What a message adds to the chat: nothing, a system note with its part in
    bold and the text after it, or a bubble on the sent or the received
    side, with a selector or without. *)
Inductive rendering : Type :=
| Hidden
| SystemNote (centered : bool) (strong text : string)
| Bubble (sent : bool) (content : json) (selector : bool).

(** The [displayText] of a system message. *)
Definition system_displayText (systemType rawSystemText : string) : string :=
  if systemType =? "template" then
    if negb (nonempty rawSystemText)
    then "Template used: " ++ dquote ++ "Unknown template" ++ dquote ++ ";"
    else if starts_with_ci "template used:" rawSystemText then rawSystemText
    else "Template used: " ++ dquote ++ rawSystemText ++ dquote ++ ";"
  else if systemType =? "escalation" then
    let escalationText :=
      trim (trim_start (strip_prefix_ci "conversation escalated:" rawSystemText)) in
    if nonempty escalationText
    then "Conversation escalated: " ++ dquote ++ escalationText ++ dquote
    else "Conversation escalated:"
  else rawSystemText.

(** The text node put after the bold part: [tail ? ` ${tail}` : '']. *)
Definition after_strong (prefix displayText : string) : string :=
  let tail := trim_start (strip_prefix_ci prefix displayText) in
  if nonempty tail then " " ++ tail else "".

(** The body of the [forEach] of [renderConversationMessages]. *)
Definition render_message (lastAgentConversationIndex index : Z) (message : json) : rendering :=
  if negb (truthy message) then Hidden
  else if is_text (get "role" message) "system" then
    let rawSystemText := trim (string_or_empty (get "content" message)) in
    let systemType := toLowerCase (trim (string_or_empty (get "messageType" message))) in
    let isTemplateEvent := systemType =? "template" in
    let isEscalationEvent := systemType =? "escalation" in
    let isCenteredSystemNote :=
      isTemplateEvent || isEscalationEvent
      || starts_with_ci "template used:" rawSystemText
      || starts_with_ci "escalation note:" rawSystemText
      || starts_with_ci "escalation notes:" rawSystemText in
    let displayText := system_displayText systemType rawSystemText in
    if negb (nonempty displayText) then Hidden
    else if isTemplateEvent
    then SystemNote isCenteredSystemNote "Template used"
           (after_strong "template used" displayText)
    else if isEscalationEvent
    then SystemNote isCenteredSystemNote "Conversation escalated"
           (after_strong "conversation escalated" displayText)
    else SystemNote isCenteredSystemNote "" displayText
  else
    match get "content" message with
    | Some content =>
        if negb (truthy content) then Hidden
        else
          let isAgent := is_text (get "role" message) "agent" in
          Bubble isAgent content
            (isAgent && negb (index =? lastAgentConversationIndex)%Z)
    | None => Hidden
    end.

(** The test of both loops over the conversation:
    [m && m.role === role && m.content]. *)
Definition has_role_and_content (role : string) (message : json) : bool :=
  truthy message && is_text (get "role" message) role
  && otruthy (get "content" message).

(** The last position at or after [i] whose message passes the test, -1
    when there is none: the loop runs from the end of the conversation
    down. *)
Fixpoint last_index_from (p : json -> bool) (i : Z) (conversation : list json) : Z :=
  match conversation with
  | [] => (-1)%Z
  | message :: rest =>
      let later := last_index_from p (i + 1)%Z rest in
      if (0 <=? later)%Z then later
      else if p message then i else (-1)%Z
  end.

(** [lastAgentConversationIndex] *)
Definition lastAgentConversationIndex (conversation : list json) : Z :=
  last_index_from (has_role_and_content "agent") 0%Z conversation.

Fixpoint render_from (lastAgent : Z) (index : Z) (conversation : list json) : list rendering :=
  match conversation with
  | [] => []
  | message :: rest =>
      render_message lastAgent index message
      :: render_from lastAgent (index + 1)%Z rest
  end.

(** [conversation.forEach(...)] of [renderConversationMessages] on a
    conversation that is not empty: what each message adds, in order. *)
Definition render_conversation (conversation : list json) : list rendering :=
  render_from (lastAgentConversationIndex conversation) 0%Z conversation.

(* ------------------------------------------------------------------ *)
(** ** Saving and restoring the state of the evaluation form *)
(* ------------------------------------------------------------------ *)

(** What the code reads and writes of a form control. *)
Record control : Type := {
  el_type : string;
  el_tagName : string;
  el_name : string;
  el_id : string;
  el_value : string;
  el_checked : bool
}.

(** [`${el.name}::${el.value}`] *)
Definition checkbox_key (el : control) : string :=
  el_name el ++ "::" ++ el_value el.

(** [el.name || el.id] *)
Definition control_key (el : control) : string :=
  if nonempty (el_name el) then el_name el else el_id el.

(** [el.tagName === 'SELECT' || el.tagName === 'TEXTAREA' || el.type === 'text'] *)
Definition is_valued (el : control) : bool :=
  (el_tagName el =? "SELECT") || (el_tagName el =? "TEXTAREA")
  || (el_type el =? "text").

(** One round of the loop of [collectCustomFormState]. *)
Definition collect_control (state : props) (el : control) : props :=
  if negb (nonempty (el_name el)) && negb (nonempty (el_id el)) then state
  else if el_type el =? "checkbox"
  then obj_set (checkbox_key el) (JBool (el_checked el)) state
  else if is_valued el
  then obj_set (control_key el) (JStr (el_value el)) state
  else state.

(** [collectCustomFormState(customForm)]; the form is the list of its
    elements, [None] when there is no form. *)
Definition collectCustomFormState (customForm : option (list control)) : props :=
  match customForm with
  | Some elements => fold_left collect_control elements []
  | None => []
  end.

(** [el.checked = b] *)
Definition set_checked (el : control) (b : bool) : control :=
  {| el_type := el_type el; el_tagName := el_tagName el; el_name := el_name el;
     el_id := el_id el; el_value := el_value el; el_checked := b |}.

Section FormState.

(** What [el.value = v] makes of a control; the browser decides (a select
    picks the option with that value, a text field drops line breaks). *)
Variable assign_value : control -> json -> control.

(** One round of the loop of [applyCustomFormState]. *)
Definition apply_to_control (parsedState : json) (el : control) : control :=
  if el_type el =? "checkbox" then
    match get (checkbox_key el) parsedState with
    | Some v => set_checked el (truthy v)
    | None => el
    end
  else if is_valued el then
    match get (control_key el) parsedState with
    | Some v => assign_value el v
    | None => el
    end
  else el.

(** [applyCustomFormState(customForm, parsedState)]: the form it leaves. *)
Definition applyCustomFormState (customForm : option (list control)) (parsedState : option json) : option (list control) :=
  match customForm, parsedState with
  | Some elements, Some state =>
      if negb (truthy state) || negb (typeof_object state) then customForm
      else Some (map (apply_to_control state) elements)
  | _, _ => customForm
  end.

End FormState.

(* ------------------------------------------------------------------ *)
(** ** The editor's JSON layout (Format-JsonPretty) *)
(* ------------------------------------------------------------------ *)

(** [[char]::IsWhiteSpace] on the code units below 256: TAB, LF, VT, FF, CR,
    SPACE, the next-line control (133) and the no-break space (160). *)
Definition IsWhiteSpace (c : ascii) : bool :=
  let n := nat_of_ascii c in
  ((9 <=? n) && (n <=? 13))%nat || (n =? 32)%nat || (n =? 133)%nat
  || (n =? 160)%nat.

(** [' ' * n] *)
Fixpoint spaces (n : nat) : string :=
  match n with
  | O => EmptyString
  | S n' => String " " (spaces n')
  end.

(** The variables of the loop of [Format-JsonPretty]: the text built so
    far, the depth, and whether the loop is inside a string literal and
    after a backslash. *)
Record pretty_state : Type := {
  sb : string;
  indent : nat;
  inString : bool;
  escape : bool
}.

Section Pretty.

(** [Environment.NewLine], which [AppendLine] writes. *)
Variable NewLine : string.

Variable IndentSize : nat.

(** One round of the loop. *)
Definition pretty_char (st : pretty_state) (ch : ascii) : pretty_state :=
  if inString st then
    {| sb := sb st ++ String ch EmptyString;
       indent := indent st;
       inString :=
         if escape st then true
         else if Ascii.eqb ch "\" then true
         else negb (Ascii.eqb ch (ascii_of_nat 34));
       escape := if escape st then false else Ascii.eqb ch "\" |}
  else if Ascii.eqb ch (ascii_of_nat 34) then
    {| sb := sb st ++ String ch EmptyString;
       indent := indent st; inString := true; escape := escape st |}
  else if Ascii.eqb ch "{" || Ascii.eqb ch "[" then
    {| sb := sb st ++ String ch EmptyString ++ NewLine
             ++ spaces (S (indent st) * IndentSize);
       indent := S (indent st); inString := false; escape := escape st |}
  else if Ascii.eqb ch "}" || Ascii.eqb ch "]" then
    {| sb := sb st ++ NewLine ++ spaces (Nat.pred (indent st) * IndentSize)
             ++ String ch EmptyString;
       indent := Nat.pred (indent st); inString := false; escape := escape st |}
  else if Ascii.eqb ch "," then
    {| sb := sb st ++ String ch EmptyString ++ NewLine
             ++ spaces (indent st * IndentSize);
       indent := indent st; inString := false; escape := escape st |}
  else if Ascii.eqb ch ":" then
    {| sb := sb st ++ ": ";
       indent := indent st; inString := false; escape := escape st |}
  else if negb (IsWhiteSpace ch) then
    {| sb := sb st ++ String ch EmptyString;
       indent := indent st; inString := false; escape := escape st |}
  else st.

(** [foreach ($ch in $Json.ToCharArray())] *)
Fixpoint pretty_loop (st : pretty_state) (Json : string) : pretty_state :=
  match Json with
  | EmptyString => st
  | String ch rest => pretty_loop (pretty_char st ch) rest
  end.

(** [Format-JsonPretty -Json $Json -IndentSize $IndentSize].  The parameter
    [Json] is mandatory: binding an empty string to it fails before the body
    runs. *)
Definition Format_JsonPretty (Json : string) : outcome string :=
  match Json with
  | EmptyString =>
      Threw "Cannot bind argument to parameter 'Json' because it is an empty string."
  | _ =>
      if all_chars IsWhiteSpace Json then Returned Json
      else Returned (sb (pretty_loop {| sb := ""; indent := 0; inString := false;
                                        escape := false |} Json))
  end.

End Pretty.

(* ------------------------------------------------------------------ *)
(** ** Highlighting a search term in a template *)
(* ------------------------------------------------------------------ *)

Fixpoint take_chars (n : nat) (s : string) : string :=
  match n, s with
  | S n', String c s' => String c (take_chars n' s')
  | _, _ => EmptyString
  end.

(** What [createHighlightedFragment] appends to the fragment: text nodes and
    [mark] elements. *)
Inductive piece : Type :=
| TextNode (text : string)
| MarkNode (text : string).

(** [safePattern.exec(rest)] from the start of [rest]: the index of the first
    place where the search term stands, whatever the case of the letters.
    The pattern is the escaped term, so it matches the term literally. *)
Fixpoint search_ci (searchTerm rest : string) : option nat :=
  match rest with
  | EmptyString => None
  | String _ rest' =>
      if starts_with_ci (toLowerCase searchTerm) rest then Some 0
      else match search_ci searchTerm rest' with
           | Some i => Some (S i)
           | None => None
           end
  end.

(** The [while] loop and the statement after it, [rest] being
    [text.slice(lastIndex)]; each round of the loop takes one unit of
    [rounds]. *)
Fixpoint highlight_loop (rounds : nat) (searchTerm rest : string) : list piece :=
  match rounds with
  | O => []
  | S rounds' =>
      match search_ci searchTerm rest with
      | Some start =>
          (if (0 <? start)%nat then [TextNode (take_chars start rest)] else [])
          ++ MarkNode (take_chars (String.length searchTerm) (drop_chars start rest))
             :: highlight_loop rounds' searchTerm
                  (drop_chars (String.length searchTerm) (drop_chars start rest))
      | None => if nonempty rest then [TextNode rest] else []
      end
  end.

(** [createHighlightedFragment(text, searchTerm)]: the children of the
    fragment.  The loop makes at most one round per character. *)
Definition createHighlightedFragment (text searchTerm : string) : list piece :=
  if negb (nonempty searchTerm) then [TextNode text]
  else highlight_loop (S (String.length text)) searchTerm text.

(* ------------------------------------------------------------------ *)
(** ** The delayed draft save *)
(* ------------------------------------------------------------------ *)

(** The module variable [draftSaveTimer], the timers the browser holds for
    the page (set and neither cleared nor run), the handle [setTimeout]
    returns next, and the page as it is now. *)
Record autosave_state : Type := {
  draftSaveTimer : option nat;
  armed : list nat;
  next_timer : nat;
  form_now : form_page
}.

(** What happens to the page: an edit of the form or of the notes, after
    which the page is [fp], and the browser running the callback of a timer,
    the request of the callback settling as [settled]. *)
Inductive autosave_event : Type :=
| FormEdited (fp : form_page)
| TimerDue (handle : nat) (settled : outcome response).

(** One run of the timer's callback: what [saveAssignmentDraft] did and the
    call of [setAssignmentsStatus] that follows. *)
Record draft_run : Type := {
  run_effects : list effect;
  run_message : string;
  run_isError : bool
}.

(** [clearTimeout(handle)] *)
Definition clearTimeout (handle : nat) (timers : list nat) : list nat :=
  filter (fun h => negb (Nat.eqb h handle)) timers.

(** [scheduleAssignmentDraftSave(customForm)] *)
Definition scheduleAssignmentDraftSave (st : autosave_state) : autosave_state :=
  match form_context (form_now st) with
  | None => st
  | Some c =>
      if negb (role c =? "editor") then st
      else
        let timers :=
          match draftSaveTimer st with
          | Some handle =>
              if negb (Nat.eqb handle 0) then clearTimeout handle (armed st)
              else armed st
          | None => armed st
          end in
        {| draftSaveTimer := Some (next_timer st);
           armed := (timers ++ [next_timer st])%list;
           next_timer := S (next_timer st);
           form_now := form_now st |}
  end.

(** The callback given to [setTimeout]. *)
Definition draft_save_callback (fp : form_page) (settled : outcome response) : draft_run :=
  let effects := saveAssignmentDraft fp in
  if existsb is_request effects then
    match fetchAssignment settled with
    | Returned _ =>
        {| run_effects := effects; run_message := "Draft saved."; run_isError := false |}
    | Threw message =>
        {| run_effects := effects;
           run_message := "Draft save failed: " ++ message;
           run_isError := true |}
    end
  else {| run_effects := effects; run_message := "Draft saved."; run_isError := false |}.

(** One event: the state it leaves and the runs of the callback so far. *)
Definition autosave_step (before : autosave_state * list draft_run) (e : autosave_event) : autosave_state * list draft_run :=
  let (st, runs) := before in
  match e with
  | FormEdited fp =>
      (scheduleAssignmentDraftSave
         {| draftSaveTimer := draftSaveTimer st; armed := armed st;
            next_timer := next_timer st; form_now := fp |},
       runs)
  | TimerDue handle settled =>
      if existsb (Nat.eqb handle) (armed st)
      then ({| draftSaveTimer := draftSaveTimer st;
               armed := clearTimeout handle (armed st);
               next_timer := next_timer st; form_now := form_now st |},
            (runs ++ [draft_save_callback (form_now st) settled])%list)
      else (st, runs)
  end.

Definition autosave_run (start : autosave_state * list draft_run) (events : list autosave_event) : autosave_state * list draft_run :=
  fold_left autosave_step events start.

(* ------------------------------------------------------------------ *)
(** ** Notions used in the statements *)
(* ------------------------------------------------------------------ *)

(** The sharp s, code unit 223. *)
Definition sharp_s : ascii := ascii_of_nat 223.

(** The integers a JavaScript number holds exactly, and prints in plain
    decimal: those of absolute value at most 2^53. *)
Definition safe_integer (n : Z) : bool :=
  ((- 9007199254740992 <=? n) && (n <=? 9007199254740992))%Z.

(** The stored unlocked number, when it is a number, is a safe integer. *)
Definition safe_unlocked (pg : page) : bool :=
  match getCurrentUnlockedScenario pg with
  | Some n => safe_integer n
  | None => true
  end.

(** The keys of [data] that are numerals denote safe integers. *)
Definition safe_keys (data : props) : bool :=
  forallb (fun kv => match parseInt10 (fst kv) with
                     | Some n => safe_integer n
                     | None => true
                     end) data.

(** A string that does not begin with white space. *)
Definition starts_clean (s : string) : Prop :=
  match s with
  | EmptyString => True
  | String c _ => is_ws c = false
  end.

(** The properties of a normalised message, in the order the code creates
    them. *)
Definition message_props (role content messageType : string) (media : list json) (dateTime id : string) : props :=
  (("role", JStr role) :: ("content", JStr content)
   :: (if nonempty messageType then [("messageType", JStr messageType)] else [])
   ++ (match media with [] => [] | _ :: _ => [("media", JArr media)] end)
   ++ (if nonempty dateTime then [("dateTime", JStr dateTime)] else [])
   ++ (if nonempty id then [("id", JStr id)] else []))%list.

(** What [normalizeConversationMessage] returns for a message it keeps. *)
Definition normalized_message (message : json) : json :=
  JObj (message_props (role_of message) (content_of message)
          (messageType_of message)
          (normalizeMessageMedia
             (js_or (get "media" message) (get "message_media" message)))
          (dateTime_of message) (id_of message)).

(** The company name the merge of scenario and defaults provides. *)
Definition merged_companyName (rawScenario defaults : json) : option json :=
  assoc "companyName" (spread (spread [] defaults) (scenarioObject_of rawScenario)).

(** A payload the normaliser finds something to enumerate in: a non-empty
    array, or an object whose [scenarios] member is a non-empty object, array
    or string. *)
Definition enumerable_payload (data : json) : bool :=
  match data with
  | JArr (_ :: _) => true
  | JObj _ =>
      match get "scenarios" data with
      | Some (JObj (_ :: _)) | Some (JArr (_ :: _)) | Some (JStr (String _ _)) => true
      | _ => false
      end
  | _ => false
  end.

Definition category_labels (categoryKey : string) : list string :=
  match lookup categoryKey CATEGORY_LABELS with Some l => l | None => [] end.

Definition category_valueMap (categoryKey : string) : list (string * string) :=
  match lookup categoryKey VALUE_TO_LABEL with Some m => m | None => [] end.

Definition selected_slugs (selection : list (string * list string)) (categoryKey : string) : list string :=
  match lookup categoryKey selection with Some l => l | None => [] end.

(** The label is the one some selected slug stands for. *)
Definition label_selected (valueMap : list (string * string)) (slugs : list string) (label : string) : Prop :=
  exists slug, In slug slugs /\ lookup slug valueMap = Some label.

(** Sublists: the elements of the first list are elements of the second, in
    the same order. *)
Inductive subsequence {A : Type} : list A -> list A -> Prop :=
| subsequence_nil : subsequence [] []
| subsequence_skip (x : A) (l1 l2 : list A) :
    subsequence l1 l2 -> subsequence l1 (x :: l2)
| subsequence_keep (x : A) (l1 l2 : list A) :
    subsequence l1 l2 -> subsequence (x :: l1) (x :: l2).

(** A complete, valid form submitted through a viewer link. *)
Definition viewer_page : form_page :=
  {| form_context :=
       Some {| assignment_id := Some (JStr "a1"); send_id := Some (JStr "s9");
               role := "viewer"; mode := "edit"; token := "t1";
               status := Some (JStr ""); scenarioKey := "1";
               form_state_json := Some (JStr ""); internal_note := Some (JStr "") |};
     has_formStatus := true;
     has_formSubmitBtn := true;
     form_data := [("product_sales", "upsell"); ("notes", "All good")];
     zeroToleranceLabel := "None";
     form_state_raw := "{}";
     internalNotes_value := Some "";
     form_agentName := Some "Kim";
     form_agentEmail := Some "kim@example.com";
     timer_time := "00:42";
     est_timestamp := "1/30/2025 13:24:49";
     app_base_url := "https://example.com/app.html";
     evaluation_request :=
       Returned {| res_ok := true; res_status := 200;
                   res_json := Some (JObj [("status", JStr "success")]) |};
     done_request :=
       Returned {| res_ok := true; res_status := 200;
                   res_json := Some (JObj [("assignments", JArr [])]) |} |}.

(** The same form submitted through an editor link. *)
Definition editor_page : form_page :=
  {| form_context :=
       Some {| assignment_id := Some (JStr "a1"); send_id := Some (JStr "s9");
               role := "editor"; mode := "edit"; token := "t1";
               status := Some (JStr ""); scenarioKey := "1";
               form_state_json := Some (JStr ""); internal_note := Some (JStr "") |};
     has_formStatus := has_formStatus viewer_page;
     has_formSubmitBtn := has_formSubmitBtn viewer_page;
     form_data := form_data viewer_page;
     zeroToleranceLabel := zeroToleranceLabel viewer_page;
     form_state_raw := form_state_raw viewer_page;
     internalNotes_value := internalNotes_value viewer_page;
     form_agentName := form_agentName viewer_page;
     form_agentEmail := form_agentEmail viewer_page;
     timer_time := timer_time viewer_page;
     est_timestamp := est_timestamp viewer_page;
     app_base_url := app_base_url viewer_page;
     evaluation_request := evaluation_request viewer_page;
     done_request := done_request viewer_page |}.

(** The rule both navigation paths follow on a non-empty list [items] whose
    first element is [first]: [current] is the position of the current item
    (-1 when it is not in the list) and [target] the element navigated to. *)
Definition circular_rule {A : Type} (items : list A) (first : A) (current direction : Z) (target : option A) : Prop :=
  let n := Z.of_nat (List.length items) in
  ((current = -1 \/ 0 <= current < n)
   /\ (0 <= current -> target = at_index items ((current + direction + n) mod n))
   /\ (0 <= current -> exists x, target = Some x /\ In x items)
   /\ (direction = 1 -> current = n - 1 -> target = Some first)
   /\ (direction = -1 -> current = 0 -> target = Some (last items first))
   /\ (direction = 1 -> current = -1 -> target = Some first)
   /\ (direction = -1 -> current = -1 -> target = Some (last items first)))%Z.

(** A queue of three assignments with the last one open, and no scenarios
    document. *)
Definition queue_page : page :=
  {| page_query := [("aid", "a3"); ("token", "t3")];
     stored_agentName := Some "Kim";
     stored_agentEmail := Some "kim@example.com";
     stored_unlockedScenario := None;
     stored_currentScenarioNumber := None;
     protocol_is_file := false;
     scenarios_document := None;
     queue_request := Threw "offline";
     cached_assignmentQueue :=
       [JObj [("assignment_id", JStr "a1"); ("edit_url", JStr "app.html?aid=a1")];
        JObj [("assignment_id", JStr "a2"); ("edit_url", JStr "app.html?aid=a2")];
        JObj [("assignment_id", JStr "a3"); ("edit_url", JStr "app.html?aid=a3")]];
     current_assignmentContext :=
       Some {| assignment_id := Some (JStr "a3"); send_id := Some (JStr "s3");
               role := "editor"; mode := "edit"; token := "t3";
               status := Some (JStr ""); scenarioKey := "3";
               form_state_json := Some (JStr ""); internal_note := Some (JStr "") |};
     has_assignmentSelect := true |}.

(** The entries [Convert-ToStringArray] returns are trimmed and not empty. *)
Definition clean_text (x : string) : Prop := trim x = x /\ nonempty x = true.

(** The loop of [Get-UniqueTrimmedStringArray] on clean entries: what it
    appends to [result], given the keys already [seen]. *)
Fixpoint appended (seen : list string) (items : list string) : list string :=
  match items with
  | [] => []
  | x :: rest =>
      if existsb (String.eqb (toLowerCase x)) seen then appended seen rest
      else x :: appended (seen ++ [toLowerCase x]) rest
  end.

(** The keys seen are the keys of the entries met so far. *)
Definition same_keys (seen earlier : list string) : Prop :=
  forall k, existsb (String.eqb k) seen
            = existsb (fun y => toLowerCase y =? k) earlier.

Definition key_le (k1 k2 : string) : Prop := key_leb k1 k2 = true.

(** The keys of an object an engine can hold: no key twice, array indices
    first and ascending. *)
Definition ordered_keys (o : props) : Prop :=
  NoDup (map fst o) /\ StronglySorted key_le (map fst o).

(** A media item as [normalizeMessageMedia] writes it. *)
Definition normal_media_item (item : json) : Prop :=
  exists url type : string,
    item = JObj [("url", JStr url); ("type", JStr type)]
    /\ nonempty url = true
    /\ trim url = url
    /\ toLowerCase (trim type) = type.

(** A message as [normalizeConversationMessage] writes it. *)
Definition normal_message (message : json) : Prop :=
  exists (role content messageType : string) (media : list json) (dateTime id : string),
    message = JObj (message_props role content messageType media dateTime id)
    /\ nonempty role = true
    /\ toLowerCase (trim role) = role
    /\ toLowerCase (trim messageType) = messageType
    /\ nonempty (trim content) || isEventSystemMessage messageType = true
    /\ Forall normal_media_item media
    /\ trim dateTime = dateTime
    /\ trim id = id.

(** What every record [normalizeScenarioRecord] returns satisfies. *)
Definition normal_record (r : props) : Prop :=
  ordered_keys r
  /\ (exists g, assoc "guidelines" r = Some (JObj g) /\ ordered_keys g)
  /\ (exists n, assoc "notes" r = Some (JObj n) /\ ordered_keys n)
  /\ (exists p, assoc "rightPanel" r = Some (JObj p) /\ ordered_keys p)
  /\ (exists conversation,
        assoc "conversation" r = Some (JArr conversation)
        /\ Forall normal_message conversation
        /\ (otruthy (assoc "customerMessage" r) = false ->
            find is_customer_with_content conversation = None))
  /\ (otruthy (assoc "agentName" r) = true \/ assoc "agentName" r = Some (JStr ""))
  /\ otruthy (assoc "companyName" r) = true
  /\ assoc "agentInitial" r
     = Some (JStr (getCompanyInitial (assoc "companyName" r))).

(** What holds of the map while [coerceScenariosPayloadToMap] builds it. *)
Definition normal_map (scenarios : props) : Prop :=
  ordered_keys scenarios
  /\ (forall key value, In (key, value) scenarios ->
        exists r, value = JObj r /\ normal_record r)
  /\ ~ In "__proto__" (map fst scenarios).

(** The normalised map presented again under a [scenarios] member. *)
Definition as_payload (scenarios : props) : json :=
  JObj [("scenarios", JObj scenarios)].

(** Two scenarios given as an array, each with a conversation. *)
Definition two_scenarios : json :=
  JArr [JObj [("companyName", JStr "Acme"); ("customerMessage", JStr "Hi")];
        JObj [("id", JStr "s9");
              ("messages",
               JArr [JObj [("message_type", JStr "Agent"); ("message_text", JStr "Hello ")];
                     JObj [("message_type", JStr "template"); ("message_text", JStr "")]])]].

(** What the handler does to conclude a submission: everything except
    cancelling the browser's submission, the timer, the button, the
    evaluation request itself and the messages other than the success
    message. *)
Definition concluding (e : effect) : bool :=
  match e with
  | PostAssignment _ _ | StoreItem _ _ | RemoveItem _
  | RenderAssignmentQueue _ | SetLocation _ | ResetForm => true
  | SetFormStatus text _ => text =? "Submitted successfully."
  | _ => false
  end.

(** The text both scenario searches compare with their target:
    [String((scenario && scenario.id) || '').trim()]. *)
Definition scenario_id_text (scenario : json) : string :=
  trim (string_or_empty (if truthy scenario then get "id" scenario else Some scenario)).

(** A trainee on the first of two scenarios, with the second one unlocked
    and no assignment queue. *)
Definition trainee_page : page :=
  {| page_query := [("scenario", "1")];
     stored_agentName := Some "Kim";
     stored_agentEmail := None;
     stored_unlockedScenario := Some "2";
     stored_currentScenarioNumber := None;
     protocol_is_file := false;
     scenarios_document :=
       Some (JArr [JObj [("companyName", JStr "Acme")];
                   JObj [("companyName", JStr "Bolt")]]);
     queue_request := Threw "offline";
     cached_assignmentQueue := [];
     current_assignmentContext := None;
     has_assignmentSelect := true |}.

(** The same browser on a page with another query string. *)
Definition page_at (pg : page) (query : list (string * string)) : page :=
  {| page_query := query;
     stored_agentName := stored_agentName pg;
     stored_agentEmail := stored_agentEmail pg;
     stored_unlockedScenario := stored_unlockedScenario pg;
     stored_currentScenarioNumber := stored_currentScenarioNumber pg;
     protocol_is_file := protocol_is_file pg;
     scenarios_document := scenarios_document pg;
     queue_request := queue_request pg;
     cached_assignmentQueue := cached_assignmentQueue pg;
     current_assignmentContext := current_assignmentContext pg;
     has_assignmentSelect := has_assignmentSelect pg |}.

(** Two scenarios with their ids. *)
Definition two_with_ids : props :=
  [("1", JObj [("id", JStr "s1")]); ("2", JObj [("id", JStr " s9 ")])].

(** A template written for the company with this normalised name. *)
Definition company_template (companyKey : string) (template : json) : bool :=
  negb (isGlobalTemplate template)
  && (normalizeName (template_companyName template) =? companyKey).

(** An agent message, the customer's answer and the agent's reply. *)
Definition three_messages : list json :=
  [JObj [("role", JStr "agent"); ("content", JStr "Hello")];
   JObj [("role", JStr "customer"); ("content", JStr "Hi")];
   JObj [("role", JStr "agent"); ("content", JStr "How can I help?")]].

(** The controls whose state is saved, and the key each is saved under. *)
Definition saved_kind (el : control) : bool :=
  (el_type el =? "checkbox") || is_valued el.

Definition state_key (el : control) : string :=
  if el_type el =? "checkbox" then checkbox_key el else control_key el.

(** A form with two checkboxes of one category, a select and a text area. *)
Definition small_form : list control :=
  [{| el_type := "checkbox"; el_tagName := "INPUT"; el_name := "tone";
      el_id := ""; el_value := "personalized"; el_checked := true |};
   {| el_type := "checkbox"; el_tagName := "INPUT"; el_name := "tone";
      el_id := ""; el_value := "empathetic"; el_checked := false |};
   {| el_type := "select-one"; el_tagName := "SELECT"; el_name := "";
      el_id := "zeroTolerance"; el_value := "none"; el_checked := false |};
   {| el_type := "textarea"; el_tagName := "TEXTAREA"; el_name := "notes";
      el_id := "notes"; el_value := "All good"; el_checked := false |};
   {| el_type := "submit"; el_tagName := "BUTTON"; el_name := "";
      el_id := "formSubmitBtn"; el_value := ""; el_checked := false |}].

(** A setter that stores the text of what it is given. *)
Definition assign_text (el : control) (v : json) : control :=
  {| el_type := el_type el; el_tagName := el_tagName el; el_name := el_name el;
     el_id := el_id el; el_value := ToString v; el_checked := el_checked el |}.

(** The content of a JSON text: the text without the white space that
    stands outside its string literals.  [inside] and [escaped] say where
    the text starts: inside a literal, and after a backslash in it. *)
Fixpoint significant_from (inside escaped : bool) (s : string) : string :=
  match s with
  | EmptyString => EmptyString
  | String ch rest =>
      if inside then
        String ch
          (significant_from
             (if escaped then true
              else if Ascii.eqb ch "\" then true
              else negb (Ascii.eqb ch (ascii_of_nat 34)))
             (if escaped then false else Ascii.eqb ch "\")
             rest)
      else if Ascii.eqb ch (ascii_of_nat 34)
      then String ch (significant_from true false rest)
      else if IsWhiteSpace ch then significant_from false false rest
      else String ch (significant_from false false rest)
  end.

Definition significant (s : string) : string := significant_from false false s.

(** What the loop of [Format-JsonPretty] appends for a text, from a depth
    and a place in the text. *)
Fixpoint pretty_out (NewLine : string) (IndentSize : nat) (depth : nat) (inside escaped : bool) (s : string) : string :=
  match s with
  | EmptyString => EmptyString
  | String ch rest =>
      let st := pretty_char NewLine IndentSize
                  {| sb := ""; indent := depth; inString := inside;
                     escape := escaped |} ch in
      sb st ++ pretty_out NewLine IndentSize (indent st) (inString st) (escape st) rest
  end.

(** Carriage return and line feed, the line break of the editor's platform. *)
Definition crlf : string :=
  String (ascii_of_nat 13) (String (ascii_of_nat 10) EmptyString).

(** The compact text of an object with one string member and one array
    member. *)
Definition compact_sample : string :=
  "{" ++ dquote ++ "a b" ++ dquote ++ ":" ++ dquote ++ "x, y" ++ dquote
  ++ "," ++ dquote ++ "n" ++ dquote ++ ":[1,2]}".

Definition piece_text (p : piece) : string :=
  match p with TextNode s | MarkNode s => s end.

(** The text a fragment shows: the texts of its children, joined. *)
Fixpoint fragment_text (pieces : list piece) : string :=
  match pieces with
  | [] => EmptyString
  | p :: rest => piece_text p ++ fragment_text rest
  end.

(** The scenarios an array payload gives, from number [i] on: each element
    under the decimal numeral of its position, normalised with the
    defaults. *)
Fixpoint numbered (defaults : json) (i : N) (items : list json) : props :=
  match items with
  | [] => []
  | item :: rest =>
      (number_to_string (Z.of_N i),
       JObj (normalizeScenarioRecord item defaults (number_to_string (Z.of_N i))))
      :: numbered defaults (N.succ i) rest
  end.

(** A member whose name can be assigned to: any name but [__proto__]. *)
Definition assignable (kv : string * json) : bool := negb (fst kv =? "__proto__").

(** The scenarios an object payload gives: each member of [scenarios] under
    its own key, normalised with the defaults. *)
Definition keyed (defaults : json) (entries : props) : props :=
  map (fun kv => (fst kv, JObj (normalizeScenarioRecord (snd kv) defaults (fst kv))))
    entries.

(** The page is open on an assignment as its editor. *)
Definition editing (fp : form_page) : Prop :=
  exists c, form_context fp = Some c /\ role c = "editor".

(** The timers of the page are at most the one [draftSaveTimer] names, and
    handles are positive and new. *)
Definition one_timer (st : autosave_state) : Prop :=
  (0 < next_timer st)%nat
  /\ (forall h, In h (armed st) ->
        draftSaveTimer st = Some h /\ (0 < h < next_timer st)%nat)
  /\ NoDup (armed st).

(** The page as it is loaded: no timer yet. *)
Definition loaded (fp : form_page) : autosave_state :=
  {| draftSaveTimer := None; armed := []; next_timer := 1; form_now := fp |}.

(** A JSON value as an engine holds it: no object in it has a key twice. *)
Fixpoint distinct_keys (v : json) : Prop :=
  match v with
  | JObj o =>
      NoDup (map fst o)
      /\ (fix members (l : list (string * json)) : Prop :=
            match l with
            | [] => True
            | kv :: l' => distinct_keys (snd kv) /\ members l'
            end) o
  | JArr items =>
      (fix elements (l : list json) : Prop :=
         match l with
         | [] => True
         | x :: l' => distinct_keys x /\ elements l'
         end) items
  | _ => True
  end.

(** The value a merge gives to a key: the specific one, else the default. *)
Definition override (specific defaults : props) (k : string) : option json :=
  match assoc k specific with
  | Some v => Some v
  | None => assoc k defaults
  end.

(** The names [normalizeScenarioRecord] sets itself. *)
Definition derived_fields : list string :=
  ["guidelines"; "notes"; "rightPanel"; "conversation"; "customerMessage";
   "agentName"; "companyName"; "agentInitial"].

(** A scenario with a field and a panel of its own, and defaults. *)
Definition branded_scenario : json :=
  JObj [("messageTone", JStr "warm");
        ("rightPanel", JObj [("source", JStr "own")])].

Definition house_defaults : json :=
  JObj [("messageTone", JStr "plain"); ("customerPhone", JStr "555");
        ("rightPanel", JObj [("source", JStr "house"); ("orders", JArr [])])].

(* ================================================================== *)
(** * Properties *)
(* ================================================================== *)

(* ------------------------------------------------------------------ *)
(** ** Strings *)
(* ------------------------------------------------------------------ *)

Ltac by_cases_on_char c :=
  destruct c as [[] [] [] [] [] [] [] []]; reflexivity.

Lemma is_ws_lower_char (c : ascii) : is_ws (lower_char c) = is_ws c.
Proof. by_cases_on_char c. Qed.

Lemma lower_char_idem (c : ascii) : lower_char (lower_char c) = lower_char c.
Proof. by_cases_on_char c. Qed.

Lemma toLowerCase_idem (s : string) : toLowerCase (toLowerCase s) = toLowerCase s.
Proof.
  unfold toLowerCase.
  induction s as [|c s IH]; simpl; [reflexivity|].
  now rewrite IH, lower_char_idem.
Qed.

Lemma nonempty_toLowerCase (s : string) : nonempty (toLowerCase s) = nonempty s.
Proof. now destruct s. Qed.

Lemma trim_start_toLowerCase (s : string) :
  trim_start (toLowerCase s) = toLowerCase (trim_start s).
Proof.
  unfold toLowerCase.
  induction s as [|c s IH]; simpl; [reflexivity|].
  rewrite is_ws_lower_char. destruct (is_ws c); [exact IH | reflexivity].
Qed.

Lemma trim_end_toLowerCase (s : string) :
  trim_end (toLowerCase s) = toLowerCase (trim_end s).
Proof.
  unfold toLowerCase.
  induction s as [|c s IH]; simpl; [reflexivity|].
  rewrite IH, is_ws_lower_char.
  destruct (trim_end s); simpl; [destruct (is_ws c)|]; reflexivity.
Qed.

Lemma trim_toLowerCase (s : string) : trim (toLowerCase s) = toLowerCase (trim s).
Proof. unfold trim. now rewrite trim_start_toLowerCase, trim_end_toLowerCase. Qed.

Lemma trim_start_clean (s : string) : starts_clean (trim_start s).
Proof.
  induction s as [|c s IH]; simpl; [exact I|].
  destruct (is_ws c) eqn:E; [exact IH | exact E].
Qed.

Lemma trim_start_of_clean (s : string) : starts_clean s -> trim_start s = s.
Proof. destruct s as [|c s]; simpl; [reflexivity|]. now intros ->. Qed.

Lemma trim_end_clean (s : string) : starts_clean s -> starts_clean (trim_end s).
Proof.
  destruct s as [|c s]; simpl; [trivial|]. intros H.
  destruct (trim_end s); simpl; [rewrite H|]; exact H.
Qed.

Lemma trim_end_idem (s : string) : trim_end (trim_end s) = trim_end s.
Proof.
  induction s as [|c s IH]; simpl; [reflexivity|].
  destruct (trim_end s) as [|d r] eqn:E.
  - destruct (is_ws c) eqn:W; simpl; [reflexivity | now rewrite W].
  - change (trim_end (String c (String d r))) with
      (match trim_end (String d r) with
       | EmptyString => if is_ws c then EmptyString else String c EmptyString
       | r' => String c r'
       end).
    now rewrite IH.
Qed.

Lemma trim_idem (s : string) : trim (trim s) = trim s.
Proof.
  unfold trim.
  rewrite (trim_start_of_clean (trim_end (trim_start s))).
  - apply trim_end_idem.
  - apply trim_end_clean, trim_start_clean.
Qed.

(** The normal form the code gives to type, role and media-type fields. *)
Lemma lower_trim_idem (s : string) :
  toLowerCase (trim (toLowerCase (trim s))) = toLowerCase (trim s).
Proof. now rewrite trim_toLowerCase, trim_idem, toLowerCase_idem. Qed.

Lemma nonempty_false (s : string) : nonempty s = false -> s = "".
Proof. now destruct s. Qed.

Lemma nonempty_true (s : string) : nonempty s = true -> s <> "".
Proof. now destruct s. Qed.

Lemma toUpperCase_one (c : ascii) : toUpperCase (String c "") = upper_form c.
Proof.
  cbn [toUpperCase]. induction (upper_form c) as [|x r IH]; [reflexivity|].
  cbn [append]. now rewrite IH.
Qed.

Lemma upper_form_length (c : ascii) :
  (c = sharp_s -> upper_form c = "SS")
  /\ (c <> sharp_s -> String.length (upper_form c) = 1).
Proof.
  split.
  - now intros ->.
  - intros H. unfold upper_form.
    destruct (Nat.eqb_spec (nat_of_ascii c) 223) as [E|_].
    + elim H. rewrite <- (ascii_nat_embedding c), E. reflexivity.
    + now destruct (_ || _).
Qed.

(* ------------------------------------------------------------------ *)
(** ** Objects: lookup after assignment *)
(* ------------------------------------------------------------------ *)

Section ObjectLemmas.

Variables (k : string) (v : json).

Lemma assoc_replace_prop (k' : string) (o : props) :
  assoc k' (replace_prop k v o) =
  if (k' =? k) && has_key k o then Some v else assoc k' o.
Proof.
  unfold has_key.
  induction o as [|[k0 v0] o IH]; simpl.
  - now rewrite andb_false_r.
  - destruct (k =? k0) eqn:E; simpl.
    + apply String.eqb_eq in E. subst k0.
      destruct (k' =? k); reflexivity.
    + rewrite IH. destruct (k' =? k0) eqn:E'; [|reflexivity].
      apply String.eqb_eq in E'. subst k0.
      rewrite String.eqb_sym in E. now rewrite E.
Qed.

Lemma assoc_insert_prop (k' : string) (o : props) :
  assoc k o = None ->
  assoc k' (insert_prop k v o) = if k' =? k then Some v else assoc k' o.
Proof.
  induction o as [|[k0 v0] o IH]; simpl; intros H.
  - reflexivity.
  - destruct (k =? k0) eqn:E; [discriminate|].
    destruct (key_leb k0 k); simpl.
    + rewrite (IH H). destruct (k' =? k0) eqn:E'; [|reflexivity].
      apply String.eqb_eq in E'. subst k0.
      rewrite String.eqb_sym in E. now rewrite E.
    + reflexivity.
Qed.

Lemma assoc_obj_set (k' : string) (o : props) :
  assoc k' (obj_set k v o) = if k' =? k then Some v else assoc k' o.
Proof.
  unfold obj_set. destruct (has_key k o) eqn:H.
  - now rewrite assoc_replace_prop, H, andb_true_r.
  - apply assoc_insert_prop. unfold has_key in H. now destruct (assoc k o).
Qed.

Lemma assoc_obj_set_same (o : props) : assoc k (obj_set k v o) = Some v.
Proof. now rewrite assoc_obj_set, String.eqb_refl. Qed.

Lemma replace_prop_same_value (o : props) :
  assoc k o = Some v -> replace_prop k v o = o.
Proof.
  induction o as [|[k0 v0] o IH]; simpl; [reflexivity|].
  destruct (k =? k0) eqn:E.
  - now intros [= ->].
  - intros H. now rewrite (IH H).
Qed.

(** Assigning the value a property already has leaves the object as it
    is. *)
Lemma obj_set_same_value (o : props) : assoc k o = Some v -> obj_set k v o = o.
Proof.
  intros H. unfold obj_set, has_key. rewrite H.
  now apply replace_prop_same_value.
Qed.

End ObjectLemmas.

Lemma assoc_set_if (c : bool) (k : string) (v : json) (k' : string) (o : props) :
  assoc k' (set_if c k v o) = if c && (k' =? k) then Some v else assoc k' o.
Proof.
  unfold set_if. destruct c; simpl; [apply assoc_obj_set | reflexivity].
Qed.

Lemma filter_map_app {A B : Type} (f : A -> option B) (l1 l2 : list A) :
  filter_map f (l1 ++ l2) = (filter_map f l1 ++ filter_map f l2)%list.
Proof.
  induction l1 as [|x l1 IH]; simpl; [reflexivity|].
  rewrite IH. now destruct (f x).
Qed.

Lemma in_filter_map {A B : Type} (f : A -> option B) (l : list A) (y : B) :
  In y (filter_map f l) <-> exists x, In x l /\ f x = Some y.
Proof.
  induction l as [|a l IH]; simpl.
  - split; [tauto | now intros [? [[] _]]].
  - destruct (f a) eqn:E; simpl; rewrite IH; split.
    + intros [->|[x [H1 H2]]]; [now exists a; auto | exists x; auto].
    + intros [x [[->|H1] H2]]; [left; congruence | right; now exists x].
    + intros [x [H1 H2]]. exists x; auto.
    + intros [x [[->|H1] H2]]; [congruence | now exists x].
Qed.

(* ------------------------------------------------------------------ *)
(** ** Message normalisation *)
(* ------------------------------------------------------------------ *)

(** A message whose type field reads as something is an object. *)
Lemma messageType_needs_object (message : json) :
  messageType_of message <> "" -> exists o, message = JObj o.
Proof.
  destruct message; try (intros H; now elim H).
  intros _. now eexists.
Qed.

Lemma normalized_shape (role content messageType : string) (media : list json) (dateTime id : string) :
  set_if (nonempty id) "id" (JStr id)
    (set_if (nonempty dateTime) "dateTime" (JStr dateTime)
       (set_if (negb (Nat.eqb (List.length media) 0)) "media" (JArr media)
          (set_if (nonempty messageType) "messageType" (JStr messageType)
             [("role", JStr role); ("content", JStr content)])))
  = message_props role content messageType media dateTime id.
Proof.
  unfold message_props.
  destruct (nonempty messageType), media, (nonempty dateTime), (nonempty id);
    reflexivity.
Qed.

Lemma normalizeConversationMessage_cases (message : json) :
  normalizeConversationMessage message =
  if is_object message && nonempty (role_of message)
     && (nonempty (trim (content_of message))
         || isEventSystemMessage (messageType_of message))
  then Some (normalized_message message)
  else None.
Proof.
  unfold normalizeConversationMessage, normalized_message.
  destruct (is_object message); simpl; [|reflexivity].
  destruct (nonempty (role_of message)); simpl; [|reflexivity].
  destruct (nonempty (trim (content_of message))); simpl.
  - now rewrite normalized_shape.
  - destruct (isEventSystemMessage (messageType_of message)); simpl;
      [now rewrite normalized_shape | reflexivity].
Qed.

Lemma event_message_has_role (message : json) :
  isEventSystemMessage (messageType_of message) = true ->
  is_object message = true /\ nonempty (role_of message) = true.
Proof.
  intros H.
  assert (Hne : messageType_of message <> "").
  { intros E. rewrite E in H. discriminate. }
  destruct (messageType_needs_object _ Hne) as [o ->].
  split; [reflexivity|].
  unfold role_of. destruct (nonempty (explicitRole_of (JObj o))) eqn:E; [exact E|].
  unfold isEventSystemMessage in H. apply orb_true_iff in H.
  destruct H as [H|H]; apply String.eqb_eq in H; rewrite H; reflexivity.
Qed.

(** C3.  A message whose content is blank (empty or white space only) is
    dropped by normalisation when its type is not a system event, "agent" in
    particular: [normalizeConversationMessage] returns null and the message
    contributes nothing to the normalised conversation.  When its type is
    "template" or "escalation" it is kept, with its blank content, its role
    and its type. *)
Theorem blank_message_dropped_unless_event (message : json) :
  nonempty (trim (content_of message)) = false ->
  (messageType_of message <> "template" ->
   messageType_of message <> "escalation" ->
   normalizeConversationMessage message = None
   /\ forall before after : list json,
        normalizeConversationList (Some (JArr (before ++ message :: after)))
        = normalizeConversationList (Some (JArr (before ++ after))))
  /\ (messageType_of message = "agent" ->
      normalizeConversationMessage message = None)
  /\ (messageType_of message = "template" \/ messageType_of message = "escalation" ->
      exists normalized : props,
        normalizeConversationMessage message = Some (JObj normalized)
        /\ assoc "role" normalized = Some (JStr (role_of message))
        /\ assoc "content" normalized = Some (JStr (content_of message))
        /\ assoc "messageType" normalized = Some (JStr (messageType_of message))
        /\ forall before after : list json,
             In (JObj normalized)
               (normalizeConversationList (Some (JArr (before ++ message :: after))))).
Proof.
  intros Hblank.
  assert (Hdrop : isEventSystemMessage (messageType_of message) = false ->
                  normalizeConversationMessage message = None).
  { intros Hev. rewrite normalizeConversationMessage_cases, Hblank, Hev.
    simpl. now rewrite andb_false_r. }
  split; [|split].
  - intros Ht He.
    assert (Hev : isEventSystemMessage (messageType_of message) = false).
    { unfold isEventSystemMessage. apply orb_false_iff.
      split; apply String.eqb_neq; assumption. }
    split; [now apply Hdrop|].
    intros before after. simpl.
    rewrite !filter_map_app. simpl. now rewrite (Hdrop Hev).
  - intros Ha. apply Hdrop. now rewrite Ha.
  - intros Hev.
    assert (Hev' : isEventSystemMessage (messageType_of message) = true).
    { destruct Hev as [-> | ->]; reflexivity. }
    destruct (event_message_has_role _ Hev') as [Hobj Hrole].
    assert (Hkept : normalizeConversationMessage message
                    = Some (normalized_message message)).
    { rewrite normalizeConversationMessage_cases, Hobj, Hrole, Hev'.
      simpl. now rewrite orb_true_r. }
    eexists. split; [exact Hkept|].
    assert (Hmt : nonempty (messageType_of message) = true).
    { destruct Hev as [-> | ->]; reflexivity. }
    repeat split.
    + unfold message_props. rewrite Hmt. reflexivity.
    + intros before after. simpl. rewrite filter_map_app. simpl.
      rewrite Hkept. apply in_or_app. right. now left.
Qed.

(** A blank "agent" message and a blank "template" message, as the
    specification's example has them. *)
Lemma blank_message_dropped_unless_event_witness :
  normalizeConversationMessage
    (JObj [("message_type", JStr "agent"); ("message_text", JStr "  ")]) = None
  /\ exists normalized : props,
       normalizeConversationMessage
         (JObj [("message_type", JStr "template"); ("message_text", JStr "")])
       = Some (JObj normalized).
Proof.
  split.
  - apply (blank_message_dropped_unless_event
             (JObj [("message_type", JStr "agent"); ("message_text", JStr "  ")]));
      reflexivity.
  - destruct (blank_message_dropped_unless_event
                (JObj [("message_type", JStr "template"); ("message_text", JStr "")]))
      as [_ [_ H]]; [reflexivity|].
    destruct H as [normalized [H _]]; [left; reflexivity|].
    exists normalized. exact H.
Defined.

(* ------------------------------------------------------------------ *)
(** ** Scenario records *)
(* ------------------------------------------------------------------ *)

Lemma assoc_fold_obj_set (k : string) (entries acc : props) :
  assoc k entries = None ->
  assoc k (fold_left (fun a kv => obj_set (fst kv) (snd kv) a) entries acc)
  = assoc k acc.
Proof.
  revert acc. induction entries as [|[k0 v0] entries IH]; simpl; intros acc H.
  - reflexivity.
  - destruct (k =? k0) eqn:E; [discriminate|].
    rewrite (IH _ H), assoc_obj_set. simpl. now rewrite E.
Qed.

(** Spreading a value that has no property [k] leaves property [k] as it
    was. *)
Lemma assoc_spread_absent (k : string) (acc : props) (v : json) :
  assoc k (own_entries v) = None -> assoc k (spread acc v) = assoc k acc.
Proof. apply assoc_fold_obj_set. Qed.

Ltac assoc_through :=
  repeat (rewrite ?assoc_obj_set, ?assoc_set_if; simpl String.eqb;
          rewrite ?andb_false_r, ?andb_true_r).

Lemma assoc_fill_customerMessage (k : string) (conversation : list json) (m : props) :
  (k =? "customerMessage") = false ->
  assoc k (fill_customerMessage conversation m) = assoc k m.
Proof.
  intros H. unfold fill_customerMessage.
  destruct (negb (otruthy (assoc "customerMessage" m))); [|reflexivity].
  destruct (find is_customer_with_content conversation); [|reflexivity].
  destruct (get "content" j); [|reflexivity].
  now rewrite assoc_obj_set, H.
Qed.

Lemma fill_record_conversation (key : string) (conversation : list json) (m : props) :
  assoc "conversation" (fill_record key conversation m) = Some (JArr conversation).
Proof.
  unfold fill_record. assoc_through.
  rewrite assoc_fill_customerMessage by reflexivity.
  now rewrite assoc_obj_set_same.
Qed.

Lemma fill_record_companyName (key : string) (conversation : list json) (m : props) :
  assoc "companyName" (fill_record key conversation m) =
  if otruthy (assoc "companyName" m) then assoc "companyName" m
  else Some (JStr ("Scenario " ++ key)).
Proof.
  unfold fill_record. assoc_through.
  rewrite assoc_fill_customerMessage by reflexivity.
  assoc_through.
  now destruct (otruthy (assoc "companyName" m)).
Qed.

Lemma fill_record_agentInitial (key : string) (conversation : list json) (m : props) :
  assoc "agentInitial" (fill_record key conversation m) =
  Some (JStr (getCompanyInitial
                (assoc "companyName" (fill_record key conversation m)))).
Proof.
  unfold fill_record at 1. rewrite assoc_obj_set_same.
  do 3 f_equal. unfold fill_record. now assoc_through.
Qed.

Lemma assoc_preload_conversation (k : string) (so : json) (m : props) :
  (k =? "conversation") = false ->
  assoc k (preload_conversation so m) = assoc k m.
Proof.
  intros H. unfold preload_conversation.
  destruct (preloadedConversation so) as [[| | | |[|x l]|]|]; try reflexivity.
  now rewrite assoc_obj_set, H.
Qed.

Lemma record_companyName (rawScenario defaults : json) (key : string) :
  assoc "companyName" (normalizeScenarioRecord rawScenario defaults key) =
  if otruthy (merged_companyName rawScenario defaults)
  then merged_companyName rawScenario defaults
  else Some (JStr ("Scenario " ++ key)).
Proof.
  unfold normalizeScenarioRecord. rewrite fill_record_companyName.
  rewrite assoc_preload_conversation by reflexivity.
  unfold merge_with_defaults. assoc_through. reflexivity.
Qed.

Lemma trim_end_keeps_head (c : ascii) (s : string) :
  is_ws c = false -> exists r, trim_end (String c s) = String c r.
Proof.
  intros H. simpl. destruct (trim_end s); rewrite ?H; eauto.
Qed.

Lemma getCompanyInitial_blank (v : option json) :
  trim (string_or_empty v) = "" -> getCompanyInitial v = "".
Proof. unfold getCompanyInitial. now intros ->. Qed.

Lemma getCompanyInitial_head (v : option json) (c : ascii) (rest : string) :
  trim (string_or_empty v) = String c rest -> getCompanyInitial v = upper_form c.
Proof.
  unfold getCompanyInitial. intros ->. cbn [nonempty charAt0].
  apply toUpperCase_one.
Qed.

Lemma upper_form_nonempty (c : ascii) : upper_form c <> "".
Proof.
  destruct (ascii_dec c sharp_s) as [->|H]; [discriminate|].
  apply upper_form_length in H. now destruct (upper_form c).
Qed.

Lemma upper_form_at_most_two (c : ascii) : String.length (upper_form c) <= 2.
Proof.
  destruct (ascii_dec c sharp_s) as [->|H]; [simpl; lia|].
  apply upper_form_length in H. lia.
Qed.

Lemma getCompanyInitial_clean_head (c : ascii) (s : string) :
  is_ws c = false ->
  getCompanyInitial (Some (JStr (String c s))) = upper_form c.
Proof.
  intros H.
  assert (Ht : exists r, trim (String c s) = String c r).
  { unfold trim. simpl trim_start. rewrite H. now apply trim_end_keeps_head. }
  destruct Ht as [r Hr].
  apply getCompanyInitial_head with r.
  unfold string_or_empty.
  change (truthy (JStr (String c s))) with true. cbv iota.
  exact Hr.
Qed.

Lemma getCompanyInitial_default (key : string) :
  getCompanyInitial (Some (JStr ("Scenario " ++ key))) = "S".
Proof.
  change ("Scenario " ++ key) with (String "S" ("cenario " ++ key)).
  now rewrite getCompanyInitial_clean_head.
Qed.

(** C9.  Every record normalisation produces has a truthy [companyName]: the
    one the scenario merged over the defaults provides when that is truthy,
    "Scenario {key}" otherwise, in particular when neither the raw scenario
    nor the defaults have the property; a string there is never empty.
    [agentInitial] is a string derived from the name: the empty string
    exactly when the trimmed name is empty, and otherwise the upper-case form
    of the first code unit of the trimmed name, which is one code unit,
    except for the sharp s, whose upper-case form is the two letters SS.
    Where the upper-case form is a code unit below 256, it is [upper_form],
    and the initial is what [getCompanyInitial] gives.  A defaulted name
    gives "S". *)
Theorem record_companyName_and_initial (rawScenario defaults : json) (key : string) :
  let record := normalizeScenarioRecord rawScenario defaults key in
  let trimmed := trim (string_or_empty (assoc "companyName" record)) in
  (exists name : json,
     assoc "companyName" record = Some name
     /\ truthy name = true
     /\ (forall s, name = JStr s -> s <> ""))
  /\ (otruthy (merged_companyName rawScenario defaults) = true ->
      assoc "companyName" record = merged_companyName rawScenario defaults)
  /\ (otruthy (merged_companyName rawScenario defaults) = false ->
      assoc "companyName" record = Some (JStr ("Scenario " ++ key))
      /\ assoc "agentInitial" record = Some (JStr "S"))
  /\ (assoc "companyName" (own_entries (scenarioObject_of rawScenario)) = None ->
      assoc "companyName" (own_entries defaults) = None ->
      assoc "companyName" record = Some (JStr ("Scenario " ++ key)))
  /\ (exists initial : string,
        assoc "agentInitial" record = Some (JStr initial)
        /\ (initial = "" <-> trimmed = "")
        /\ String.length initial <= 2
        /\ forall (c : ascii) (rest : string),
             trimmed = String c rest ->
             (c <> sharp_s -> String.length initial = 1)
             /\ (c = sharp_s -> initial = "SS")
             /\ (has_upper_form c = true ->
                 initial = upper_form c
                 /\ initial = toUpperCase (charAt0 trimmed)
                 /\ initial = getCompanyInitial (assoc "companyName" record))).
Proof.
  intros record trimmed.
  pose proof (record_companyName rawScenario defaults key) as Hname.
  fold record in Hname.
  assert (Hinit : assoc "agentInitial" record
                  = Some (JStr (getCompanyInitial (assoc "companyName" record)))).
  { apply fill_record_agentInitial. }
  split; [|split; [|split; [|split]]].
  - destruct (otruthy (merged_companyName rawScenario defaults)) eqn:E.
    + destruct (merged_companyName rawScenario defaults) as [text|];
        [|discriminate].
      exists text. split; [exact Hname|]. split; [exact E|].
      intros s -> ->. discriminate.
    + exists (JStr ("Scenario " ++ key)).
      split; [exact Hname|]. split; [reflexivity|].
      intros s [= <-]. discriminate.
  - intros E. now rewrite E in Hname.
  - intros E. rewrite E in Hname. split; [exact Hname|].
    now rewrite Hinit, Hname, getCompanyInitial_default.
  - intros Hs Hd. rewrite Hname.
    unfold merged_companyName.
    rewrite (assoc_spread_absent _ _ _ Hs), (assoc_spread_absent _ _ _ Hd).
    reflexivity.
  - exists (getCompanyInitial (assoc "companyName" record)).
    split; [exact Hinit|].
    destruct trimmed as [|c rest] eqn:En; unfold trimmed in En.
    + rewrite (getCompanyInitial_blank _ En).
      split; [tauto|]. split; [simpl; lia|]. discriminate.
    + rewrite (getCompanyInitial_head _ _ _ En).
      split; [split; [intros H; now elim (upper_form_nonempty c) | discriminate]|].
      split; [apply upper_form_at_most_two|].
      intros c' rest' [= <- <-].
      split; [apply upper_form_length|]. split; [apply upper_form_length|].
      intros _. split; [reflexivity|]. split; [|reflexivity].
      cbn [charAt0]. symmetry. apply toUpperCase_one.
Qed.

(** A scenario without a company name, under key "7"; the initial of the
    name "acme" is "A". *)
Lemma record_companyName_and_initial_witness :
  (assoc "companyName"
     (normalizeScenarioRecord (JObj [("agentName", JStr "Kim")]) (JObj []) "7")
   = Some (JStr "Scenario 7")
   /\ assoc "agentInitial"
        (normalizeScenarioRecord (JObj [("agentName", JStr "Kim")]) (JObj []) "7")
      = Some (JStr "S"))
  /\ exists initial : string,
       assoc "agentInitial"
         (normalizeScenarioRecord (JObj [("companyName", JStr " acme ")]) (JObj []) "7")
       = Some (JStr initial)
       /\ String.length initial = 1.
Proof.
  split.
  - apply (record_companyName_and_initial
             (JObj [("agentName", JStr "Kim")]) (JObj []) "7").
    reflexivity.
  - destruct (record_companyName_and_initial
                (JObj [("companyName", JStr " acme ")]) (JObj []) "7")
      as (_ & _ & _ & _ & initial & Hfield & _ & _ & Hhead).
    exists initial. split; [exact Hfield|].
    apply (Hhead "a"%char "cme" eq_refl). discriminate.
Defined.

(** A company name of white space only is kept, and the initial derived from
    it is not a single character: it is empty. *)
Lemma blank_companyName_counterexample :
  let record :=
    normalizeScenarioRecord (JObj [("companyName", JStr "   ")]) (JObj []) "1" in
  assoc "companyName" record = Some (JStr "   ")
  /\ exists initial : string,
       assoc "agentInitial" record = Some (JStr initial)
       /\ String.length initial <> 1.
Proof. split; [reflexivity|]. exists "". split; [reflexivity | discriminate]. Qed.

(** Nor is the initial of a name that begins with the sharp s a single
    character: it is SS. *)
Lemma sharp_s_companyName_initial :
  let record :=
    normalizeScenarioRecord
      (JObj [("companyName", JStr (String sharp_s "eta"))]) (JObj []) "1" in
  assoc "agentInitial" record = Some (JStr "SS").
Proof. reflexivity. Qed.

(* ------------------------------------------------------------------ *)
(** ** The payload shapes of [coerceScenariosPayloadToMap] *)
(* ------------------------------------------------------------------ *)

Lemma record_conversation_preloaded (items : list json) (defaults : json) (key : string) :
  items <> [] ->
  assoc "conversation"
    (normalizeScenarioRecord (JObj [("conversation", JArr items)]) defaults key)
  = Some (JArr (normalizeConversationList (Some (JArr items)))).
Proof.
  intros Hne. destruct items as [|m ms]; [now elim Hne|].
  unfold normalizeScenarioRecord. rewrite fill_record_conversation.
  do 2 f_equal.
  change (scenarioObject_of (JObj [("conversation", JArr (m :: ms))]))
    with (JObj [("conversation", JArr (m :: ms))]).
  unfold preload_conversation.
  change (preloadedConversation (JObj [("conversation", JArr (m :: ms))]))
    with (Some (JArr (m :: ms))).
  unfold buildConversationFromScenario.
  change (truthy (JObj ?o)) with true. cbv iota. simpl negb. cbv iota.
  change (nonempty_array (Some (JObj ?o))) with false. cbv iota.
  unfold get at 1. rewrite assoc_obj_set_same.
  change (nonempty_array (Some (JArr (m :: ms)))) with true. cbv iota.
  unfold get. now rewrite assoc_obj_set_same.
Qed.

(** C2.  A non-empty top-level array, bare or under [scenarios], whose
    elements all look like single messages becomes exactly one scenario, keyed
    "1"; its conversation is that array after message normalisation (each
    message normalised, those that normalise to null left out). *)
Theorem message_array_is_one_scenario (data : json) (items : list json) :
  items <> [] ->
  forallb isConversationMessageObject items = true ->
  data = JArr items
  \/ (exists o, data = JObj o /\ assoc "scenarios" o = Some (JArr items)) ->
  exists record : props,
    coerceScenariosPayloadToMap data = [("1", JObj record)]
    /\ assoc "conversation" record
       = Some (JArr (normalizeConversationList (Some (JArr items)))).
Proof.
  intros Hne Hall Hshape.
  assert (Hmsg : isMessageArray (Some (JArr items)) = true).
  { unfold isMessageArray. rewrite Hall.
    destruct items; [now elim Hne | reflexivity]. }
  destruct Hshape as [-> | [o [-> Hs]]].
  - eexists. split.
    + unfold coerceScenariosPayloadToMap. cbv beta iota zeta.
      rewrite Hmsg. reflexivity.
    + now apply record_conversation_preloaded.
  - eexists. split.
    + unfold coerceScenariosPayloadToMap. cbv beta iota zeta.
      change (get "scenarios" (JObj o)) with (assoc "scenarios" o).
      rewrite Hs. cbv beta iota zeta delta [otruthy truthy isArray negb andb].
      rewrite Hmsg. reflexivity.
    + now apply record_conversation_preloaded.
Qed.

(** A conversation of two messages given as a bare array. *)
Lemma message_array_is_one_scenario_witness :
  exists record : props,
    coerceScenariosPayloadToMap
      (JArr [JObj [("message_type", JStr "subscriber"); ("message_text", JStr "Hi")];
             JObj [("message_type", JStr "agent"); ("message_text", JStr "Hello")]])
    = [("1", JObj record)]
    /\ assoc "conversation" record
       = Some (JArr [JObj [("role", JStr "customer"); ("content", JStr "Hi");
                           ("messageType", JStr "subscriber")];
                     JObj [("role", JStr "agent"); ("content", JStr "Hello");
                           ("messageType", JStr "agent")]]).
Proof.
  apply (message_array_is_one_scenario
           (JArr [JObj [("message_type", JStr "subscriber"); ("message_text", JStr "Hi")];
                  JObj [("message_type", JStr "agent"); ("message_text", JStr "Hello")]])
           [JObj [("message_type", JStr "subscriber"); ("message_text", JStr "Hi")];
            JObj [("message_type", JStr "agent"); ("message_text", JStr "Hello")]]).
  - discriminate.
  - reflexivity.
  - left. reflexivity.
Defined.

(** The empty array, whose elements all look like messages, gives no
    scenario at all; and the conversation of a message array is not the array
    itself but its normalisation. *)
Lemma message_array_counterexample :
  (forallb isConversationMessageObject [] = true
   /\ coerceScenariosPayloadToMap (JArr []) = [])
  /\ (forallb isConversationMessageObject
        [JObj [("role", JStr "Agent"); ("content", JStr "hi")]] = true
      /\ exists record : props,
           coerceScenariosPayloadToMap
             (JArr [JObj [("role", JStr "Agent"); ("content", JStr "hi")]])
           = [("1", JObj record)]
           /\ assoc "conversation" record
              <> Some (JArr [JObj [("role", JStr "Agent"); ("content", JStr "hi")]])).
Proof.
  split; [split; reflexivity|].
  split; [reflexivity|].
  eexists. split; [reflexivity|]. discriminate.
Qed.

(** Any other payload gives the empty map: null, a boolean, a number, a
    string, an empty array, and an object whose [scenarios] member is
    missing, falsy, a number, a boolean or empty. *)
Theorem malformed_payload_gives_empty_map (data : json) :
  enumerable_payload data = false -> coerceScenariosPayloadToMap data = [].
Proof.
  destruct data as [| b | n | s | [|x l] | o]; try reflexivity; try discriminate.
  unfold enumerable_payload, coerceScenariosPayloadToMap.
  destruct (get "scenarios" (JObj o)) as [[| [] | n | [|c s] | [|x l] | [|p ps]]|];
    try reflexivity; try discriminate.
  unfold or_empty_object, js_or, otruthy, truthy.
  destruct (n =? 0)%Z; reflexivity.
Qed.

Lemma malformed_payload_gives_empty_map_witness :
  coerceScenariosPayloadToMap JNull = []
  /\ coerceScenariosPayloadToMap (JStr "scenarios") = []
  /\ coerceScenariosPayloadToMap (JNum 7) = []
  /\ coerceScenariosPayloadToMap (JObj [("defaults", JObj [])]) = [].
Proof.
  exact (conj (malformed_payload_gives_empty_map JNull eq_refl)
           (conj (malformed_payload_gives_empty_map (JStr "scenarios") eq_refl)
              (conj (malformed_payload_gives_empty_map (JNum 7) eq_refl)
                 (malformed_payload_gives_empty_map
                    (JObj [("defaults", JObj [])]) eq_refl)))).
Defined.

(** C5.  An object whose [scenarios] member is a string has neither a
    scenarios object nor a scenarios array, yet the map returned for it is
    not empty: the string is enumerated like an object, one scenario per
    character. *)
Theorem string_scenarios_member_is_enumerated :
  coerceScenariosPayloadToMap (JObj [("scenarios", JStr "ab")])
  = [("0", JObj [("guidelines", JObj []); ("notes", JObj []);
                 ("rightPanel", JObj []); ("conversation", JArr []);
                 ("agentName", JStr ""); ("companyName", JStr "Scenario 0");
                 ("agentInitial", JStr "S")]);
     ("1", JObj [("guidelines", JObj []); ("notes", JObj []);
                 ("rightPanel", JObj []); ("conversation", JArr []);
                 ("agentName", JStr ""); ("companyName", JStr "Scenario 1");
                 ("agentInitial", JStr "S")])].
Proof. reflexivity. Qed.

(* ------------------------------------------------------------------ *)
(** ** The assignment context *)
(* ------------------------------------------------------------------ *)

Lemma loaded_context_inv (query : list (string * string)) (settled : outcome response) (scenarios : props) (ctx : assignment_context) :
  loadAssignmentContextFromUrl query settled scenarios = Returned (Some ctx) ->
  exists response assignment,
    fetchAssignment settled = Returned response
    /\ assignment_of response = Some assignment
    /\ role ctx = match get "role" assignment with
                  | Some (JStr "viewer") => "viewer"
                  | _ => "editor"
                  end
    /\ mode ctx = param_mode (getAssignmentParamsFromUrl query).
Proof.
  unfold loadAssignmentContextFromUrl.
  destruct (negb (nonempty (param_aid (getAssignmentParamsFromUrl query))));
    [discriminate|].
  destruct (negb (nonempty (param_token (getAssignmentParamsFromUrl query))));
    [discriminate|].
  destruct (fetchAssignment settled) as [response|] eqn:Hf; [|discriminate].
  destruct (assignment_of response) as [assignment|] eqn:Ha; [|discriminate].
  destruct (findScenarioBySendId scenarios (get "send_id" assignment)) as [[key sc]|];
    [|discriminate].
  intros [= <-]. exists response, assignment.
  split; [reflexivity|]. split; [exact Ha|]. split; reflexivity.
Qed.

Lemma viewer_role_cases (v : option json) :
  (v = Some (JStr "viewer")
   /\ match v with Some (JStr "viewer") => "viewer" | _ => "editor" end = "viewer")
  \/ (v <> Some (JStr "viewer")
      /\ match v with Some (JStr "viewer") => "viewer" | _ => "editor" end = "editor").
Proof.
  destruct v as [[| | | s | |]|]; try (right; split; [discriminate | reflexivity]).
  destruct (String.eqb_spec s "viewer") as [->|Hne].
  - left. split; reflexivity.
  - right. split; [congruence|].
    repeat (destruct s as [|[[] [] [] [] [] [] [] []] s]; try reflexivity).
    now elim Hne.
Qed.

(** C10.  When a context is built from a fetched assignment its role is
    "editor" or "viewer", and it is "viewer" exactly when the role the server
    returned is the string "viewer"; any other value, a missing one included,
    gives "editor", and with it the right to submit unless the page is in
    view mode. *)
Theorem context_role_is_editor_unless_viewer (query : list (string * string)) (settled : outcome response) (scenarios : props) (ctx : assignment_context) :
  loadAssignmentContextFromUrl query settled scenarios = Returned (Some ctx) ->
  exists response assignment,
    fetchAssignment settled = Returned response
    /\ assignment_of response = Some assignment
    /\ (role ctx = "editor" \/ role ctx = "viewer")
    /\ (role ctx = "viewer" <-> get "role" assignment = Some (JStr "viewer"))
    /\ (get "role" assignment <> Some (JStr "viewer") -> role ctx = "editor")
    /\ (get "role" assignment <> Some (JStr "viewer") -> mode ctx <> "view" ->
        submission_blocked (Some ctx) = false).
Proof.
  intros H.
  destruct (loaded_context_inv _ _ _ _ H) as [response [assignment [Hf [Ha [Hr Hm]]]]].
  exists response, assignment.
  split; [exact Hf|]. split; [exact Ha|].
  destruct (viewer_role_cases (get "role" assignment)) as [[Hv E]|[Hv E]];
    rewrite E in Hr.
  - split; [now right|]. split; [tauto|]. split; intros Hn; now elim Hn.
  - split; [now left|]. split; [|split].
    + split; [intros Hc; rewrite Hr in Hc; discriminate | intros Hc; now elim Hv].
    + intros _. exact Hr.
    + intros _ Hmode. unfold submission_blocked. rewrite Hr. simpl.
      now apply String.eqb_neq.
Qed.

(** An assignment whose role the server spells "Viewer" opens as editor. *)
Lemma context_role_is_editor_unless_viewer_witness :
  exists ctx : assignment_context,
    loadAssignmentContextFromUrl
      [("aid", "a1"); ("token", "t1")]
      (Returned {| res_ok := true; res_status := 200;
                   res_json := Some (JObj [("assignment",
                     JObj [("assignment_id", JStr "a1"); ("send_id", JStr "s9");
                           ("role", JStr "Viewer")])]) |})
      [("1", JObj [("id", JStr "s9")])]
    = Returned (Some ctx)
    /\ role ctx = "editor".
Proof.
  eexists. split; [reflexivity|].
  destruct (context_role_is_editor_unless_viewer _ _ _ _
              (eq_refl :
                 loadAssignmentContextFromUrl
                   [("aid", "a1"); ("token", "t1")]
                   (Returned {| res_ok := true; res_status := 200;
                                res_json := Some (JObj [("assignment",
                                  JObj [("assignment_id", JStr "a1"); ("send_id", JStr "s9");
                                        ("role", JStr "Viewer")])]) |})
                   [("1", JObj [("id", JStr "s9")])]
                 = Returned (Some _)))
    as [response [assignment [Hf [Ha [_ [_ [He _]]]]]]].
  injection Hf as <-. injection Ha as <-.
  apply He. discriminate.
Defined.

(* ------------------------------------------------------------------ *)
(** ** Evaluation form *)
(* ------------------------------------------------------------------ *)

Lemma existsb_selected_labels (valueMap : list (string * string)) (slugs : list string) (label : string) :
  label <> "" ->
  existsb (String.eqb label) (selected_labels valueMap slugs) = true
  <-> label_selected valueMap slugs label.
Proof.
  intros Hne. unfold selected_labels, label_selected.
  rewrite existsb_exists. split.
  - intros [x [Hin Heq]]. apply String.eqb_eq in Heq. subst x.
    apply filter_In in Hin. destruct Hin as [Hin _].
    apply in_filter_map in Hin. exact Hin.
  - intros Hex. exists label. split; [|apply String.eqb_refl].
    apply filter_In. split; [now apply in_filter_map|].
    now destruct label.
Qed.

Lemma filter_ext_in_bool {A : Type} (f g : A -> bool) (l : list A) :
  (forall x, In x l -> f x = g x) -> filter f l = filter g l.
Proof.
  induction l as [|a l IH]; simpl; intros H; [reflexivity|].
  rewrite (H a) by now left. rewrite IH; [reflexivity|].
  intros x Hx. apply H. now right.
Qed.

Lemma category_labels_nonempty (categoryKey label : string) :
  In label (category_labels categoryKey) -> label <> "".
Proof.
  unfold category_labels. unfold lookup, CATEGORY_LABELS.
  repeat match goal with
         | |- context [if ?b then _ else _] => destruct b
         end;
    simpl; intros H;
    repeat (destruct H as [<-|H]; [discriminate|]); now elim H.
Qed.

Lemma subsequence_filter {A : Type} (f : A -> bool) (l : list A) :
  subsequence (filter f l) l.
Proof.
  induction l as [|a l IH]; simpl; [constructor|].
  destruct (f a); now constructor.
Qed.

(** C7.  The cell of a category is the comma-joined list of the labels its
    selected slugs stand for, taken in the category's own order: a sublist of
    [CATEGORY_LABELS[category]] that holds a label exactly when a selected
    slug maps to it.  Two selections with the same slugs, in whatever order
    and multiplicity, give the same cell; selecting upsell then
    general_recommendation in product_sales gives
    "General Recommendation,Upsell". *)
Theorem category_cell_keeps_display_order (selection : list (string * list string)) (categoryKey : string) :
  (exists included : list string,
     buildCategoryCell selection categoryKey = join "," included
     /\ subsequence included (category_labels categoryKey)
     /\ forall label,
          In label included
          <-> In label (category_labels categoryKey)
              /\ label_selected (category_valueMap categoryKey)
                   (selected_slugs selection categoryKey) label)
  /\ (forall selection' : list (string * list string),
        (forall slug,
           In slug (selected_slugs selection categoryKey)
           <-> In slug (selected_slugs selection' categoryKey)) ->
        buildCategoryCell selection categoryKey
        = buildCategoryCell selection' categoryKey)
  /\ buildCategoryCell
       [("product_sales", ["upsell"; "general_recommendation"])] "product_sales"
     = "General Recommendation,Upsell".
Proof.
  split; [|split].
  - eexists. split; [reflexivity|]. split; [apply subsequence_filter|].
    intros label. rewrite filter_In.
    fold (category_labels categoryKey).
    split.
    + intros [Hin Hsel]. split; [exact Hin|].
      apply existsb_selected_labels in Hsel; [exact Hsel|].
      now apply category_labels_nonempty with categoryKey.
    + intros [Hin Hsel]. split; [exact Hin|].
      apply existsb_selected_labels; [|exact Hsel].
      now apply category_labels_nonempty with categoryKey.
  - intros selection' Hsame. unfold buildCategoryCell. f_equal.
    apply filter_ext_in_bool. intros label Hin.
    fold (category_labels categoryKey) in Hin.
    pose proof (category_labels_nonempty _ _ Hin) as Hne.
    apply eq_true_iff_eq.
    rewrite !existsb_selected_labels by exact Hne.
    fold (selected_slugs selection categoryKey).
    fold (selected_slugs selection' categoryKey).
    unfold label_selected. split; intros [slug [H1 H2]]; exists slug;
      (split; [now apply Hsame | exact H2]).
  - reflexivity.
Qed.

(** The specification's example, in both selection orders. *)
Lemma category_cell_keeps_display_order_witness :
  buildCategoryCell
    [("product_sales", ["upsell"; "general_recommendation"])] "product_sales"
  = buildCategoryCell
      [("product_sales", ["general_recommendation"; "upsell"; "upsell"])]
      "product_sales".
Proof.
  destruct (category_cell_keeps_display_order
              [("product_sales", ["upsell"; "general_recommendation"])] "product_sales")
    as [_ [Hsame _]].
  apply Hsame. intros slug. simpl. tauto.
Defined.

Lemma no_request_in_status (fp : form_page) (text color : string) :
  forallb (fun e => negb (is_request e)) (set_status fp text color) = true.
Proof. unfold set_status. now destruct (has_formStatus fp). Qed.

(** C8.  While the open assignment has role viewer (any role other than
    editor) or the page is in view mode, the submit handler stops at its
    first test: beyond cancelling the browser's own submission it only shows
    "View-only link cannot submit.", and none of its effects is a request,
    whatever the form holds and however the requests would settle. *)
Theorem viewer_submission_sends_nothing (fp : form_page) (ctx : assignment_context) :
  form_context fp = Some ctx ->
  role ctx = "viewer" \/ role ctx <> "editor" \/ mode ctx = "view" ->
  submit_handler fp
  = PreventDefault :: set_status fp "View-only link cannot submit." "#e74c3c"
  /\ forallb (fun e => negb (is_request e)) (submit_handler fp) = true
  /\ ~ exists payload, In (PostEvaluation payload) (submit_handler fp).
Proof.
  intros Hctx Hview.
  assert (Hblocked : submission_blocked (form_context fp) = true).
  { rewrite Hctx. unfold submission_blocked. apply orb_true_iff.
    destruct Hview as [Hr | [Hr | Hm]].
    - left. now rewrite Hr.
    - left. apply negb_true_iff. now apply String.eqb_neq.
    - right. now rewrite Hm. }
  assert (Heq : submit_handler fp
                = PreventDefault
                  :: set_status fp "View-only link cannot submit." "#e74c3c").
  { unfold submit_handler. now rewrite Hblocked. }
  split; [exact Heq|]. rewrite Heq. split.
  - simpl. apply no_request_in_status.
  - intros [payload [Hin|Hin]]; [discriminate|].
    unfold set_status in Hin. destruct (has_formStatus fp); simpl in Hin;
      [destruct Hin as [Hin|[]]; discriminate | exact Hin].
Qed.

(** Without the guard the same form is posted: an editor in edit mode, or no
    assignment at all, with notes filled in, sends the evaluation. *)
Lemma editor_submission_posts (fp : form_page) :
  submission_blocked (form_context fp) = false ->
  nonempty (trim (str_or (query_get "notes" (form_data fp)) "")) = true ->
  exists payload, In (PostEvaluation payload) (submit_handler fp).
Proof.
  intros Hb Hn. unfold submit_handler. rewrite Hb, Hn. simpl negb. cbv iota.
  eexists. right. right. apply in_or_app. right. apply in_or_app. right.
  left. reflexivity.
Qed.

(** The same form through an editor link is posted. *)
Lemma editor_submission_posts_witness :
  exists payload, In (PostEvaluation payload) (submit_handler editor_page).
Proof. apply (editor_submission_posts editor_page); reflexivity. Defined.

Lemma viewer_submission_sends_nothing_witness :
  submit_handler viewer_page
  = [PreventDefault; SetFormStatus "View-only link cannot submit." "#e74c3c"].
Proof.
  apply (viewer_submission_sends_nothing viewer_page
           {| assignment_id := Some (JStr "a1"); send_id := Some (JStr "s9");
              role := "viewer"; mode := "edit"; token := "t1";
              status := Some (JStr ""); scenarioKey := "1";
              form_state_json := Some (JStr ""); internal_note := Some (JStr "") |}).
  - reflexivity.
  - left. reflexivity.
Defined.

(* ------------------------------------------------------------------ *)
(** ** Navigation *)
(* ------------------------------------------------------------------ *)

Section NavigationLemmas.

Local Open Scope Z_scope.

Lemma targetIndex_found (current direction length : Z) :
  0 <= current < length ->
  direction = 1 \/ direction = -1 ->
  targetIndex current direction length = (current + direction + length) mod length
  /\ 0 <= targetIndex current direction length < length.
Proof.
  intros Hc Hd. unfold targetIndex.
  destruct (Z.leb_spec 0 current); [|lia].
  rewrite Z.rem_mod_nonneg by lia.
  split; [reflexivity|]. apply Z.mod_pos_bound. lia.
Qed.

Lemma targetIndex_wraps_forward (length : Z) :
  0 < length -> targetIndex (length - 1) 1 length = 0.
Proof.
  intros H.
  destruct (targetIndex_found (length - 1) 1 length) as [-> _]; [lia | now left|].
  replace (length - 1 + 1 + length) with (0 + 2 * length) by lia.
  rewrite Z.mod_add by lia. apply Z.mod_0_l. lia.
Qed.

Lemma targetIndex_wraps_backward (length : Z) :
  0 < length -> targetIndex 0 (-1) length = length - 1.
Proof.
  intros H.
  destruct (targetIndex_found 0 (-1) length) as [-> _]; [lia | now right|].
  replace (0 + -1 + length) with (length - 1) by lia.
  apply Z.mod_small. lia.
Qed.

Lemma targetIndex_step (current direction length : Z) :
  0 <= current < length ->
  (direction = 1 -> current < length - 1 ->
   targetIndex current direction length = current + 1)
  /\ (direction = -1 -> 0 < current ->
      targetIndex current direction length = current - 1).
Proof.
  intros Hc. split; intros -> H.
  - destruct (targetIndex_found current 1 length) as [-> _]; [lia | now left|].
    replace (current + 1 + length) with (current + 1 + 1 * length) by lia.
    rewrite Z.mod_add by lia. apply Z.mod_small. lia.
  - destruct (targetIndex_found current (-1) length) as [-> _]; [lia | now right|].
    replace (current + -1 + length) with (current - 1 + 1 * length) by lia.
    rewrite Z.mod_add by lia. apply Z.mod_small. lia.
Qed.

Lemma targetIndex_not_found (current direction length : Z) :
  current < 0 ->
  targetIndex current direction length = if 0 <? direction then 0 else length - 1.
Proof.
  intros H. unfold targetIndex. destruct (Z.leb_spec 0 current); [lia | reflexivity].
Qed.

Lemma findIndex_from_range {A : Type} (p : A -> bool) (l : list A) (i : Z) :
  0 <= i ->
  findIndex_from i p l = -1
  \/ i <= findIndex_from i p l < i + Z.of_nat (List.length l).
Proof.
  revert i. induction l as [|x l IH]; intros i Hi; simpl findIndex_from.
  - now left.
  - destruct (p x).
    + right. simpl List.length. lia.
    + destruct (IH (i + 1)) as [H|H]; [lia | now left | right].
      simpl List.length. lia.
Qed.

Lemma findIndex_range {A : Type} (p : A -> bool) (l : list A) :
  findIndex p l = -1 \/ 0 <= findIndex p l < Z.of_nat (List.length l).
Proof. apply (findIndex_from_range p l 0). lia. Qed.

Lemma findIndex_from_none {A : Type} (p : A -> bool) (l : list A) (i : Z) :
  (forall x, In x l -> p x = false) -> findIndex_from i p l = -1.
Proof.
  revert i. induction l as [|x l IH]; intros i H; simpl; [reflexivity|].
  rewrite (H x) by now left. apply IH. intros y Hy. apply H. now right.
Qed.

Lemma findIndex_from_first {A : Type} (p : A -> bool) (before : list A) (x : A) (after : list A) (i : Z) :
  (forall y, In y before -> p y = false) -> p x = true ->
  findIndex_from i p (before ++ x :: after) = i + Z.of_nat (List.length before).
Proof.
  revert i. induction before as [|b before IH]; intros i Hb Hx; simpl.
  - rewrite Hx. lia.
  - rewrite (Hb b) by now left. rewrite IH; [lia | | exact Hx].
    intros y Hy. apply Hb. now right.
Qed.

Lemma at_index_first {A : Type} (x : A) (l : list A) : at_index (x :: l) 0 = Some x.
Proof. reflexivity. Qed.

Lemma nth_error_last {A : Type} (d x : A) (l : list A) :
  nth_error (x :: l) (List.length l) = Some (last (x :: l) d).
Proof.
  revert x. induction l as [|y l IH]; intros x; [reflexivity|].
  change (nth_error (x :: y :: l) (List.length (y :: l)))
    with (nth_error (y :: l) (List.length l)).
  rewrite IH. reflexivity.
Qed.

Lemma at_index_last {A : Type} (x : A) (l : list A) :
  at_index (x :: l) (Z.of_nat (List.length (x :: l)) - 1) = Some (last (x :: l) x).
Proof.
  unfold at_index.
  destruct (Z.ltb_spec (Z.of_nat (List.length (x :: l)) - 1) 0) as [H|_];
    [simpl List.length in H; lia|].
  replace (Z.to_nat (Z.of_nat (List.length (x :: l)) - 1)) with (List.length l)
    by (simpl List.length; lia).
  apply nth_error_last.
Qed.

Lemma at_index_in_range {A : Type} (l : list A) (i : Z) :
  0 <= i < Z.of_nat (List.length l) -> exists x, at_index l i = Some x /\ In x l.
Proof.
  intros H. unfold at_index. destruct (Z.ltb_spec i 0); [lia|].
  destruct (nth_error l (Z.to_nat i)) as [x|] eqn:E.
  - exists x. split; [reflexivity|]. now apply nth_error_In with (Z.to_nat i).
  - apply nth_error_None in E. lia.
Qed.

Lemma insert_sorted_perm (n : Z) (l : list Z) : Permutation (n :: l) (insert_sorted n l).
Proof.
  induction l as [|m l IH]; simpl; [reflexivity|].
  destruct (n <? m); [reflexivity|].
  rewrite perm_swap. now constructor.
Qed.

Lemma insert_sorted_sorted (n : Z) (l : list Z) :
  Sorted Z.le l -> Sorted Z.le (insert_sorted n l).
Proof.
  induction l as [|m l IH]; simpl; intros H.
  - repeat constructor.
  - destruct (Z.ltb_spec n m).
    + constructor; [exact H|]. constructor. lia.
    + inversion H as [|? ? Hs Hh]; subst. constructor; [now apply IH|].
      destruct l as [|k l]; simpl.
      * constructor. exact H0.
      * inversion Hh; subst. destruct (n <? k); constructor; assumption.
Qed.

Lemma sort_ascending_spec (l : list Z) :
  Sorted Z.le (sort_ascending l) /\ Permutation l (sort_ascending l).
Proof.
  unfold sort_ascending.
  assert (H : forall acc, Sorted Z.le acc ->
            Sorted Z.le (fold_left (fun acc n => insert_sorted n acc) l acc)
            /\ Permutation (l ++ acc)
                 (fold_left (fun acc n => insert_sorted n acc) l acc)).
  { induction l as [|n l IH]; simpl; intros acc Hs.
    - split; [exact Hs | reflexivity].
    - destruct (IH (insert_sorted n acc) (insert_sorted_sorted n acc Hs)) as [H1 H2].
      split; [exact H1|]. rewrite <- H2.
      rewrite <- insert_sorted_perm. apply Permutation_middle. }
  destruct (H [] (Sorted_nil _)) as [H1 H2].
  split; [exact H1|]. now rewrite app_nil_r in H2.
Qed.

End NavigationLemmas.

Lemma circular_rule_holds {A : Type} (first : A) (rest : list A) (current direction : Z) :
  (direction = 1 \/ direction = -1)%Z ->
  (current = -1 \/ 0 <= current < Z.of_nat (List.length (first :: rest)))%Z ->
  circular_rule (first :: rest) first current direction
    (at_index (first :: rest)
       (targetIndex current direction (Z.of_nat (List.length (first :: rest))))).
Proof.
  intros Hd Hc. unfold circular_rule.
  set (n := Z.of_nat (List.length (first :: rest))) in *.
  assert (Hn : (0 < n)%Z) by (unfold n; simpl List.length; lia).
  split; [exact Hc|]. split; [|split; [|split; [|split; [|split]]]].
  - intros H0. destruct (targetIndex_found current direction n) as [-> _];
      [lia | exact Hd | reflexivity].
  - intros H0. apply at_index_in_range.
    destruct (targetIndex_found current direction n) as [_ H]; [lia | exact Hd | exact H].
  - intros -> ->. now rewrite targetIndex_wraps_forward.
  - intros -> ->. rewrite targetIndex_wraps_backward by exact Hn.
    apply at_index_last.
  - intros -> ->. reflexivity.
  - intros -> ->. rewrite targetIndex_not_found by lia. apply at_index_last.
Qed.

Lemma queue_currentIndex_absent (pg : page) (queue : list json) :
  (forall item, In item queue -> queue_item_id item <> currentAssignmentId pg) ->
  queue_currentIndex pg queue = (-1)%Z.
Proof.
  intros H. unfold queue_currentIndex.
  destruct (nonempty (currentAssignmentId pg)); [|reflexivity].
  apply findIndex_from_none. intros item Hin. apply String.eqb_neq. now apply H.
Qed.

Lemma queue_currentIndex_range (pg : page) (queue : list json) :
  (queue_currentIndex pg queue = -1
   \/ 0 <= queue_currentIndex pg queue < Z.of_nat (List.length queue))%Z.
Proof.
  unfold queue_currentIndex.
  destruct (nonempty (currentAssignmentId pg)); [apply findIndex_range | now left].
Qed.

Lemma scenario_keys_sorted (data : props) :
  exists numbers : list Z,
    scenario_keys data = map number_to_string numbers
    /\ Sorted Z.le numbers
    /\ Permutation (filter_map (fun kv => parseInt10 (fst kv)) data) numbers.
Proof.
  eexists. split; [reflexivity|]. apply sort_ascending_spec.
Qed.

Lemma queue_currentIndex_present (pg : page) (before : list json) (item : json) (after : list json) :
  currentAssignmentId pg <> "" ->
  queue_item_id item = currentAssignmentId pg ->
  (forall x, In x before -> queue_item_id x <> currentAssignmentId pg) ->
  queue_currentIndex pg (before ++ item :: after) = Z.of_nat (List.length before).
Proof.
  intros Hid Hitem Hbefore. unfold queue_currentIndex.
  destruct (currentAssignmentId pg) as [|c r] eqn:E; [now elim Hid|].
  cbn [nonempty]. unfold findIndex. rewrite findIndex_from_first.
  - reflexivity.
  - intros y Hy. apply String.eqb_neq. now apply Hbefore.
  - now apply String.eqb_eq.
Qed.

Lemma scenario_currentIndex_present (pg : page) (before after : list string) :
  ~ In (getCurrentScenarioNumber pg) before ->
  scenario_currentIndex pg (before ++ getCurrentScenarioNumber pg :: after)
  = Z.of_nat (List.length before).
Proof.
  intros Hbefore. unfold scenario_currentIndex, findIndex.
  rewrite findIndex_from_first.
  - reflexivity.
  - intros y Hy. apply String.eqb_neq. intros ->. now apply Hbefore.
  - apply String.eqb_refl.
Qed.

Lemma edit_url_of_object (target url : json) :
  get "edit_url" target = Some url -> truthy target = true.
Proof. destruct target; try discriminate; reflexivity. Qed.

(** C6.  Navigation is circular with a fallback, in the assignment queue and
    in the scenario list alike.  The queue is the cached one, or the one a
    refresh returns when the cache is empty.  The current position is that
    of the first item with the identifier of the open assignment (of the
    first key equal to the current scenario number), -1 when there is none.
    In a non-empty list of length n whose current item is at position c, a
    step in direction d (1 forward, -1 backward) goes to position
    (c + d + n) mod n: forward from the last item to the first, backward from
    the first to the last.  When the current item is not in the list, forward
    goes to the first item and backward to the last.  The page is sent to
    the text of the target's [edit_url] when that is not empty.  With an
    empty queue, or when the queue gives no URL to go to, the step is taken
    in the scenario list instead, by the same rule on the scenario keys in
    ascending numeric order, and the page goes to the target scenario when
    the user may open it.  The scenario list is stated for keys and an
    unlocked number that are safe integers, which a number holds exactly. *)
Theorem navigation_wraps_and_falls_back (pg : page) (direction : Z) :
  (direction = 1 \/ direction = -1)%Z ->
  (forall (first : json) (rest : list json),
     navigation_queue pg = first :: rest ->
     circular_rule (first :: rest) first
       (queue_currentIndex pg (first :: rest)) direction
       (targetAssignment pg direction (first :: rest))
     /\ ((forall item, In item (first :: rest) ->
            queue_item_id item <> currentAssignmentId pg) ->
         queue_currentIndex pg (first :: rest) = (-1)%Z)
     /\ (currentAssignmentId pg = "" ->
         queue_currentIndex pg (first :: rest) = (-1)%Z)
     /\ (forall (before : list json) (item : json) (after : list json),
           first :: rest = (before ++ item :: after)%list ->
           currentAssignmentId pg <> "" ->
           queue_item_id item = currentAssignmentId pg ->
           (forall x, In x before -> queue_item_id x <> currentAssignmentId pg) ->
           queue_currentIndex pg (first :: rest) = Z.of_nat (List.length before))
     /\ (forall target,
           targetAssignment pg direction (first :: rest) = Some target ->
           otruthy (get "edit_url" target) = false ->
           navigateAssignmentQueue pg direction = None)
     /\ (forall target url,
           targetAssignment pg direction (first :: rest) = Some target ->
           get "edit_url" target = Some url ->
           truthy url = true ->
           navigateAssignmentQueue pg direction
           = (if nonempty (ToString url) then Some (ToString url) else None)
           /\ (nonempty (ToString url) = true ->
               navigateConversation pg direction = Some (Href (ToString url)))))
  /\ (navigation_queue pg = [] -> navigateAssignmentQueue pg direction = None)
  /\ (cached_assignmentQueue pg <> [] ->
      navigation_queue pg = cached_assignmentQueue pg)
  /\ (cached_assignmentQueue pg = [] ->
      (forall assignments, refreshAssignmentQueue pg = Returned assignments ->
                           navigation_queue pg = assignments)
      /\ (forall msg, refreshAssignmentQueue pg = Threw msg ->
                      navigation_queue pg = []))
  /\ (cached_assignmentQueue pg = [] ->
      (forall assignments, refreshAssignmentQueue pg = Returned assignments ->
                           assignments = []) ->
      navigation_queue pg = [])
  /\ (navigateAssignmentQueue pg direction = None ->
      navigateConversation pg direction
      = option_map snd (navigateScenarioList pg direction))
  /\ (loadScenariosData pg = None -> navigateScenarioList pg direction = None)
  /\ (forall data : props,
        loadScenariosData pg = Some data ->
        safe_keys data = true ->
        safe_unlocked pg = true ->
        (exists numbers : list Z,
           scenario_keys data = map number_to_string numbers
           /\ Sorted Z.le numbers
           /\ Permutation (filter_map (fun kv => parseInt10 (fst kv)) data) numbers)
        /\ (scenario_keys data = [] -> navigateScenarioList pg direction = None)
        /\ forall (first : string) (rest : list string),
             scenario_keys data = first :: rest ->
             circular_rule (first :: rest) first
               (scenario_currentIndex pg (first :: rest)) direction
               (targetScenario pg direction (first :: rest))
             /\ (~ In (getCurrentScenarioNumber pg) (first :: rest) ->
                 scenario_currentIndex pg (first :: rest) = (-1)%Z)
             /\ (forall before after : list string,
                   first :: rest
                   = (before ++ getCurrentScenarioNumber pg :: after)%list ->
                   ~ In (getCurrentScenarioNumber pg) before ->
                   scenario_currentIndex pg (first :: rest)
                   = Z.of_nat (List.length before))
             /\ (canAccessScenario pg (targetScenario pg direction (first :: rest)) = true ->
                 navigateScenarioList pg direction
                 = Some (targetScenario pg direction (first :: rest),
                         buildScenarioUrl pg
                           (targetScenario pg direction (first :: rest)) data))
             /\ (canAccessScenario pg (targetScenario pg direction (first :: rest)) = false ->
                 navigateScenarioList pg direction = None)).
Proof.
  intros Hd. split; [|split; [|split; [|split; [|split; [|split; [|split]]]]]].
  - intros first rest Hq. split; [|split; [|split; [|split; [|split]]]].
    + apply circular_rule_holds; [exact Hd | apply queue_currentIndex_range].
    + apply queue_currentIndex_absent.
    + intros E. unfold queue_currentIndex. now rewrite E.
    + intros before item after -> Hid Hitem Hbefore.
      now apply queue_currentIndex_present.
    + intros target Ht Hurl. unfold navigateAssignmentQueue.
      rewrite Hq, Ht, Hurl. now rewrite andb_false_r.
    + intros target url Ht Hget Hurl.
      assert (Hnav : navigateAssignmentQueue pg direction
                     = if nonempty (ToString url) then Some (ToString url) else None).
      { unfold navigateAssignmentQueue. rewrite Hq, Ht, Hget.
        rewrite (edit_url_of_object _ _ Hget). cbn [otruthy]. rewrite Hurl.
        reflexivity. }
      split; [exact Hnav|].
      intros Hne. unfold navigateConversation. now rewrite Hnav, Hne.
  - intros Hq. unfold navigateAssignmentQueue. now rewrite Hq.
  - intros Hcache. unfold navigation_queue.
    now destruct (cached_assignmentQueue pg).
  - intros Hcache. unfold navigation_queue. rewrite Hcache.
    split; [intros assignments -> | intros msg ->]; reflexivity.
  - intros Hcache Hrefresh. unfold navigation_queue. rewrite Hcache.
    destruct (refreshAssignmentQueue pg) as [assignments|]; [|reflexivity].
    now apply Hrefresh.
  - intros Hn. unfold navigateConversation. rewrite Hn.
    now destruct (navigateScenarioList pg direction) as [[stored loc]|].
  - intros Hdata. unfold navigateScenarioList. now rewrite Hdata.
  - intros data Hdata _ _. split; [apply scenario_keys_sorted|].
    split; [intros Hkeys; unfold navigateScenarioList; now rewrite Hdata, Hkeys|].
    intros first rest Hkeys. split; [|split; [|split; [|split]]].
    + apply circular_rule_holds; [exact Hd | apply findIndex_range].
    + intros Hnot. apply findIndex_from_none. intros k Hin.
      apply String.eqb_neq. intros ->. now apply Hnot.
    + intros before after -> Hbefore. now apply scenario_currentIndex_present.
    + intros Hacc. unfold navigateScenarioList.
      rewrite Hdata, Hkeys, Hacc. reflexivity.
    + intros Hacc. unfold navigateScenarioList.
      rewrite Hdata, Hkeys, Hacc. reflexivity.
Qed.

(** The third of three assignments is open: its position is 2, a step forward
    goes to the first, whose page is opened, and a step backward to the
    second. *)
Lemma navigation_wraps_and_falls_back_witness :
  queue_currentIndex queue_page (cached_assignmentQueue queue_page) = 2%Z
  /\ targetAssignment queue_page 1 (cached_assignmentQueue queue_page)
     = Some (JObj [("assignment_id", JStr "a1"); ("edit_url", JStr "app.html?aid=a1")])
  /\ navigateConversation queue_page 1 = Some (Href "app.html?aid=a1").
Proof.
  destruct (navigation_wraps_and_falls_back queue_page 1 (or_introl eq_refl))
    as [Hqueue _].
  destruct (Hqueue _ _ eq_refl) as (Hrule & _ & _ & Hposition & _ & Hurl).
  assert (Hcurrent : queue_currentIndex queue_page (cached_assignmentQueue queue_page)
                     = 2%Z).
  { apply (Hposition
             [JObj [("assignment_id", JStr "a1"); ("edit_url", JStr "app.html?aid=a1")];
              JObj [("assignment_id", JStr "a2"); ("edit_url", JStr "app.html?aid=a2")]]
             (JObj [("assignment_id", JStr "a3"); ("edit_url", JStr "app.html?aid=a3")])
             []).
    - reflexivity.
    - discriminate.
    - reflexivity.
    - intros x [<-|[<-|[]]]; discriminate. }
  destruct Hrule as (_ & _ & _ & Hforward & _).
  assert (Htarget : targetAssignment queue_page 1 (cached_assignmentQueue queue_page)
                    = Some (JObj [("assignment_id", JStr "a1");
                                  ("edit_url", JStr "app.html?aid=a1")])).
  { apply Hforward; [reflexivity | exact Hcurrent]. }
  split; [exact Hcurrent|]. split; [exact Htarget|].
  apply (Hurl _ (JStr "app.html?aid=a1") Htarget); reflexivity.
Defined.

(* ------------------------------------------------------------------ *)
(** ** Label lists *)
(* ------------------------------------------------------------------ *)

Section EditorLemmas.

Variable string_cast : psvalue -> string.

Lemma collect_texts_clean (values : list psvalue) (x : string) :
  In x (collect_texts string_cast values) -> clean_text x.
Proof.
  unfold collect_texts. intros H. apply filter_In in H. destruct H as [Hin Hk].
  apply in_map_iff in Hin. destruct Hin as [v [<- _]].
  split; [apply trim_idem|].
  unfold keeps_text in Hk. now destruct (nonempty (trim (Get_StringValue string_cast v))).
Qed.

Lemma Convert_ToStringArray_clean (v : psvalue) (x : string) :
  In x (Convert_ToStringArray string_cast v) -> clean_text x.
Proof.
  destruct v as [| s | items | entries | [|p ps] | text]; simpl;
    try (apply collect_texts_clean); intros [].
Qed.

Lemma unique_loop_appended (items seen result : list string) :
  (forall x, In x items -> clean_text x) ->
  unique_loop string_cast items seen result = (result ++ appended seen items)%list.
Proof.
  revert seen result. induction items as [|x items IH]; intros seen result H; simpl.
  - now rewrite app_nil_r.
  - destruct (H x (or_introl eq_refl)) as [Ht Hn].
    rewrite Ht, Hn. simpl.
    assert (H' : forall y, In y items -> clean_text y) by (intros y Hy; apply H; now right).
    destruct (existsb (String.eqb (toLowerCase x)) seen).
    + now apply IH.
    + rewrite IH by exact H'. now rewrite <- app_assoc.
Qed.

Lemma same_keys_step (seen earlier : list string) (x : string) :
  same_keys seen earlier ->
  (existsb (String.eqb (toLowerCase x)) seen = true ->
   same_keys seen (earlier ++ [x]))
  /\ same_keys (seen ++ [toLowerCase x]) (earlier ++ [x]).
Proof.
  intros H. split.
  - intros Hin k. rewrite existsb_app. simpl. rewrite orb_false_r, <- H.
    destruct (String.eqb_spec (toLowerCase x) k) as [<-|_].
    + now rewrite Hin.
    + now rewrite orb_false_r.
  - intros k. rewrite !existsb_app, H. simpl.
    now rewrite (String.eqb_sym k).
Qed.

Lemma appended_first_occurrences (items seen earlier : list string) :
  same_keys seen earlier ->
  appended seen items = first_occurrences earlier items.
Proof.
  revert seen earlier. induction items as [|x items IH]; intros seen earlier H; simpl.
  - reflexivity.
  - destruct (same_keys_step seen earlier x H) as [H1 H2].
    rewrite (H (toLowerCase x)).
    destruct (existsb (fun y => toLowerCase y =? toLowerCase x) earlier) eqn:E.
    + apply IH, H1. now rewrite (H (toLowerCase x)).
    + f_equal. now apply IH.
Qed.

Lemma appended_subsequence (items seen : list string) :
  subsequence (appended seen items) items.
Proof.
  revert seen. induction items as [|x items IH]; intros seen; simpl; [constructor|].
  destruct (existsb (String.eqb (toLowerCase x)) seen); now constructor.
Qed.

Lemma appended_keys_fresh (items seen : list string) (x : string) :
  In x (appended seen items) ->
  existsb (String.eqb (toLowerCase x)) seen = false.
Proof.
  revert seen. induction items as [|y items IH]; intros seen; simpl; [now intros []|].
  destruct (existsb (String.eqb (toLowerCase y)) seen) eqn:E.
  - apply IH.
  - intros [<-|Hin]; [exact E|].
    apply IH in Hin. rewrite existsb_app in Hin.
    now apply orb_false_iff in Hin.
Qed.

Lemma appended_NoDup (items seen : list string) :
  NoDup (map toLowerCase (appended seen items)).
Proof.
  revert seen. induction items as [|x items IH]; intros seen; simpl; [constructor|].
  destruct (existsb (String.eqb (toLowerCase x)) seen); [apply IH|].
  simpl. constructor; [|apply IH].
  intros Hin. apply in_map_iff in Hin. destruct Hin as [y [Hy Hin]].
  apply appended_keys_fresh in Hin. rewrite existsb_app in Hin.
  apply orb_false_iff in Hin. destruct Hin as [_ Hin]. simpl in Hin.
  rewrite Hy, String.eqb_refl in Hin. discriminate.
Qed.

Lemma appended_complete (items seen : list string) (x : string) :
  In x items ->
  existsb (String.eqb (toLowerCase x)) seen = true
  \/ In (toLowerCase x) (map toLowerCase (appended seen items)).
Proof.
  revert seen. induction items as [|y items IH]; intros seen; simpl; [now intros []|].
  intros [->|Hin].
  - destruct (existsb (String.eqb (toLowerCase x)) seen); [now left|].
    right. now left.
  - destruct (existsb (String.eqb (toLowerCase y)) seen) eqn:E.
    + now apply IH.
    + destruct (IH (seen ++ [toLowerCase y])%list Hin) as [H|H].
      * rewrite existsb_app in H. apply orb_true_iff in H.
        destruct H as [H|H]; [now left|].
        simpl in H. rewrite orb_false_r in H. apply String.eqb_eq in H.
        right. left. now symmetry.
      * right. now right.
Qed.


End EditorLemmas.



(* ------------------------------------------------------------------ *)
(** ** Objects in property order *)
(* ------------------------------------------------------------------ *)

Lemma key_leb_total (k1 k2 : string) : key_leb k1 k2 = false -> key_leb k2 k1 = true.
Proof.
  unfold key_leb. destruct (array_index k1), (array_index k2); try easy.
  intros H. apply N.leb_gt in H. apply N.leb_le. lia.
Qed.

Lemma key_le_trans (k1 k2 k3 : string) : key_le k1 k2 -> key_le k2 k3 -> key_le k1 k3.
Proof.
  unfold key_le, key_leb.
  destruct (array_index k1), (array_index k2), (array_index k3); try easy.
  intros H1 H2. apply N.leb_le in H1, H2. apply N.leb_le. lia.
Qed.

Lemma keys_replace_prop (k : string) (v : json) (o : props) :
  map fst (replace_prop k v o) = map fst o.
Proof.
  induction o as [|[k0 v0] o IH]; simpl; [reflexivity|].
  destruct (k =? k0); simpl; [reflexivity | now rewrite IH].
Qed.

Lemma in_insert_prop (k : string) (v : json) (o : props) (kv : string * json) :
  In kv (insert_prop k v o) <-> kv = (k, v) \/ In kv o.
Proof.
  induction o as [|[k0 v0] o IH]; simpl; [intuition|].
  destruct (key_leb k0 k); simpl; [rewrite IH|]; intuition.
Qed.

Lemma assoc_none_keys (k : string) (o : props) :
  assoc k o = None <-> ~ In k (map fst o).
Proof.
  induction o as [|[k0 v0] o IH]; simpl; [intuition|].
  destruct (String.eqb_spec k k0) as [->|Hne].
  - split; [discriminate | intros H; elim H; now left].
  - rewrite IH. intuition.
Qed.

Lemma keys_insert_prop (k : string) (v : json) (o : props) (k' : string) :
  In k' (map fst (insert_prop k v o)) <-> k' = k \/ In k' (map fst o).
Proof.
  rewrite !in_map_iff. split.
  - intros [[k1 v1] [<- H]]. apply in_insert_prop in H.
    destruct H as [[= -> ->]|H]; [now left|]. right. now exists (k1, v1).
  - intros [->|[[k1 v1] [<- H]]].
    + exists (k, v). split; [reflexivity|]. apply in_insert_prop. now left.
    + exists (k1, v1). split; [reflexivity|]. apply in_insert_prop. now right.
Qed.

Lemma ordered_insert_prop (k : string) (v : json) (o : props) :
  assoc k o = None -> ordered_keys o -> ordered_keys (insert_prop k v o).
Proof.
  intros Hk [Hnd Hs]. split.
  - clear Hs. induction o as [|[k0 v0] o IH]; simpl in *.
    + constructor; [easy | constructor].
    + destruct (k =? k0) eqn:E; [discriminate|]. apply String.eqb_neq in E.
      inversion Hnd as [|? ? Hnot Hnd']; subst.
      destruct (key_leb k0 k); simpl.
      * constructor; [|now apply IH].
        intros Hin. apply keys_insert_prop in Hin. destruct Hin as [->|Hin]; auto.
      * constructor; [|exact Hnd].
        simpl. intros [->|Hin]; [now elim E|].
        apply assoc_none_keys in Hk. contradiction.
  - clear Hnd Hk. induction o as [|[k0 v0] o IH]; simpl in *.
    + repeat constructor.
    + inversion Hs as [|? ? Hs' Hall]; subst.
      destruct (key_leb k0 k) eqn:E; simpl.
      * constructor; [now apply IH|].
        apply Forall_forall. intros k' Hin.
        apply keys_insert_prop in Hin. destruct Hin as [->|Hin]; [exact E|].
        eapply Forall_forall in Hall; eauto.
      * apply key_leb_total in E.
        constructor; [exact Hs|]. constructor; [exact E|].
        apply Forall_forall. intros k' Hin.
        eapply Forall_forall in Hall; eauto.
        now apply key_le_trans with k0.
Qed.

Lemma ordered_obj_set (k : string) (v : json) (o : props) :
  ordered_keys o -> ordered_keys (obj_set k v o).
Proof.
  intros H. unfold obj_set, has_key. destruct (assoc k o) eqn:E.
  - unfold ordered_keys. now rewrite keys_replace_prop.
  - now apply ordered_insert_prop.
Qed.

Lemma ordered_set_if (c : bool) (k : string) (v : json) (o : props) :
  ordered_keys o -> ordered_keys (set_if c k v o).
Proof. unfold set_if. destruct c; [apply ordered_obj_set | trivial]. Qed.

Lemma ordered_nil : ordered_keys [].
Proof. split; constructor. Qed.

Lemma ordered_fold_obj_set (entries acc : props) :
  ordered_keys acc ->
  ordered_keys (fold_left (fun a kv => obj_set (fst kv) (snd kv) a) entries acc).
Proof.
  revert acc. induction entries as [|kv entries IH]; simpl; intros acc H; [exact H|].
  apply IH. now apply ordered_obj_set.
Qed.

Lemma ordered_spread (acc : props) (v : json) :
  ordered_keys acc -> ordered_keys (spread acc v).
Proof. apply ordered_fold_obj_set. Qed.

Lemma insert_prop_at_end (k : string) (v : json) (o : props) :
  Forall (fun k' => key_le k' k) (map fst o) ->
  insert_prop k v o = (o ++ [(k, v)])%list.
Proof.
  induction o as [|[k0 v0] o IH]; simpl; intros H; [reflexivity|].
  inversion H as [|? ? Hk Hrest]; subst. unfold key_le in Hk. rewrite Hk.
  now rewrite IH.
Qed.

Lemma ordered_app_inv (o1 : props) (k : string) (v : json) (o2 : props) :
  ordered_keys (o1 ++ (k, v) :: o2)%list ->
  assoc k o1 = None
  /\ Forall (fun k' => key_le k' k) (map fst o1)
  /\ ordered_keys (o1 ++ [(k, v)])%list.
Proof.
  intros [Hnd Hs]. rewrite map_app in Hnd, Hs. simpl in Hnd, Hs.
  split; [|split].
  - apply assoc_none_keys. now apply NoDup_remove_2 in Hnd; intros H; apply Hnd, in_or_app; left.
  - clear Hnd. induction o1 as [|[k0 v0] o1 IH]; simpl in *; [constructor|].
    inversion Hs as [|? ? Hs' Hall]; subst.
    constructor; [|now apply IH].
    eapply Forall_forall in Hall; [exact Hall|]. apply in_or_app. right. now left.
  - split; rewrite map_app; simpl.
    + clear Hs. induction o1 as [|[k0 v0] o1 IH]; simpl in *.
      * constructor; [easy | constructor].
      * inversion Hnd as [|? ? Hnot Hnd']; subst. constructor; [|now apply IH].
        intros Hin. apply Hnot. apply in_app_or in Hin. apply in_or_app.
        destruct Hin as [Hin|[<-|[]]]; [now left | right; now left].
    + clear Hnd. induction o1 as [|[k0 v0] o1 IH]; simpl in *.
      * repeat constructor.
      * inversion Hs as [|? ? Hs' Hall]; subst. constructor; [now apply IH|].
        apply Forall_forall. intros k' Hin.
        eapply Forall_forall in Hall; [exact Hall|].
        apply in_app_or in Hin. apply in_or_app.
        destruct Hin as [Hin|[<-|[]]]; [now left | right; now left].
Qed.

Lemma obj_set_appends (o1 : props) (k : string) (v : json) (o2 : props) :
  ordered_keys (o1 ++ (k, v) :: o2)%list -> obj_set k v o1 = (o1 ++ [(k, v)])%list.
Proof.
  intros H. destruct (ordered_app_inv _ _ _ _ H) as [Hk [Hall _]].
  unfold obj_set, has_key. rewrite Hk. now apply insert_prop_at_end.
Qed.

(** Copying an object property by property rebuilds it as it is. *)
Lemma fold_obj_set_rebuilds (entries acc : props) :
  ordered_keys (acc ++ entries)%list ->
  fold_left (fun a kv => obj_set (fst kv) (snd kv) a) entries acc
  = (acc ++ entries)%list.
Proof.
  revert acc. induction entries as [|[k v] entries IH]; simpl; intros acc H.
  - now rewrite app_nil_r.
  - rewrite (obj_set_appends _ _ _ _ H). rewrite IH.
    + now rewrite <- app_assoc.
    + now rewrite <- app_assoc.
Qed.

Lemma spread_rebuilds (o : props) : ordered_keys o -> spread [] (JObj o) = o.
Proof. intros H. unfold spread. now rewrite fold_obj_set_rebuilds. Qed.

Lemma in_obj_set (k : string) (v : json) (o : props) (kv : string * json) :
  In kv (obj_set k v o) -> kv = (k, v) \/ In kv o.
Proof.
  unfold obj_set. destruct (has_key k o).
  - induction o as [|[k0 v0] o IH]; simpl; [tauto|].
    destruct (String.eqb_spec k k0) as [->|Hne]; simpl.
    + intros [<-|H]; [now left | right; now right].
    + intros [<-|H]; [right; now left|].
      destruct (IH H); [now left | right; now right].
  - apply in_insert_prop.
Qed.

Lemma assoc_in_ordered (o : props) (k : string) (v : json) :
  NoDup (map fst o) -> In (k, v) o -> assoc k o = Some v.
Proof.
  induction o as [|[k0 v0] o IH]; simpl; intros Hnd Hin; [easy|].
  inversion Hnd as [|? ? Hnot Hnd']; subst.
  destruct Hin as [[= -> ->]|Hin].
  - now rewrite String.eqb_refl.
  - destruct (String.eqb_spec k k0) as [->|_]; [|now apply IH].
    elim Hnot. apply in_map_iff. now exists (k0, v).
Qed.

(* ------------------------------------------------------------------ *)
(** ** Normalised messages are fixed points of normalisation *)
(* ------------------------------------------------------------------ *)

Lemma string_or_empty_str (s : string) : string_or_empty (Some (JStr s)) = s.
Proof. now destruct s. Qed.

Lemma string_or_empty_optional (s : string) :
  string_or_empty (if nonempty s then Some (JStr s) else None) = s.
Proof. now destruct s. Qed.

Lemma normalizeMediaItem_normal (item n : json) :
  normalizeMediaItem item = Some n -> normal_media_item n.
Proof.
  assert (Hgen : forall rawUrl rawType : option json,
            (if negb (nonempty (trim (string_or_empty rawUrl))) then None
             else Some (JObj [("url", JStr (trim (string_or_empty rawUrl)));
                              ("type", JStr (toLowerCase (trim (string_or_empty rawType))))]))
            = Some n -> normal_media_item n).
  { intros rawUrl rawType H.
    destruct (nonempty (trim (string_or_empty rawUrl))) eqn:E; [|discriminate].
    injection H as <-. eexists _, _. split; [reflexivity|].
    split; [exact E|]. split; [apply trim_idem | apply lower_trim_idem]. }
  destruct item as [| b | z | s | l | o]; simpl; try discriminate.
  - now destruct (negb (is_object (JBool b))).
  - now destruct (negb (is_object (JNum z))).
  - destruct (nonempty (trim s)) eqn:E; [|discriminate].
    intros [= <-]. exists (trim s), "". split; [reflexivity|].
    split; [exact E|]. split; [apply trim_idem | reflexivity].
  - apply Hgen.
Qed.

Lemma normal_media_item_fixed (item : json) :
  normal_media_item item -> normalizeMediaItem item = Some item.
Proof.
  intros [url [type [-> [Hu [Ht Hl]]]]].
  unfold normalizeMediaItem.
  change (is_object (JObj ?o)) with true. cbv beta iota zeta.
  change (negb true) with false. cbv iota.
  assert (Hraw : first_truthy
                   [get "url" (JObj [("url", JStr url); ("type", JStr type)]);
                    get "media_url" (JObj [("url", JStr url); ("type", JStr type)]);
                    get "src" (JObj [("url", JStr url); ("type", JStr type)]);
                    get "link" (JObj [("url", JStr url); ("type", JStr type)]);
                    Some (JStr "")] = Some (JStr url)).
  { simpl. now rewrite Hu. }
  assert (Htype : string_or_empty
                    (first_truthy
                       [get "type" (JObj [("url", JStr url); ("type", JStr type)]);
                        get "media_type" (JObj [("url", JStr url); ("type", JStr type)]);
                        get "mime_type" (JObj [("url", JStr url); ("type", JStr type)]);
                        get "mimeType" (JObj [("url", JStr url); ("type", JStr type)]);
                        get "content_type" (JObj [("url", JStr url); ("type", JStr type)])])
                  = type).
  { simpl. now destruct type. }
  rewrite Hraw, Htype, string_or_empty_str, Ht, Hu, Hl. reflexivity.
Qed.

Lemma filter_map_fixed {A : Type} (f : A -> option A) (l : list A) :
  Forall (fun x => f x = Some x) l -> filter_map f l = l.
Proof.
  induction 1 as [|x l Hx _ IH]; simpl; [reflexivity|]. now rewrite Hx, IH.
Qed.

Lemma filter_map_Forall {A B : Type} (f : A -> option B) (P : B -> Prop) (l : list A) :
  (forall x y, f x = Some y -> P y) -> Forall P (filter_map f l).
Proof.
  intros H. induction l as [|x l IH]; simpl; [constructor|].
  destruct (f x) eqn:E; [constructor; eauto | exact IH].
Qed.

Lemma normalizeMessageMedia_normal (media : option json) :
  Forall normal_media_item (normalizeMessageMedia media).
Proof.
  destruct media as [[| | | | items |]|]; simpl; try constructor.
  apply filter_map_Forall. apply normalizeMediaItem_normal.
Qed.

Lemma role_of_normal (message : json) :
  toLowerCase (trim (role_of message)) = role_of message.
Proof.
  unfold role_of.
  destruct (nonempty (explicitRole_of message)); [apply lower_trim_idem|].
  unfold mapMessageTypeToRole.
  repeat match goal with
         | |- context [if ?b then _ else _] => destruct b
         end; reflexivity.
Qed.

Lemma normalized_message_normal (message n : json) :
  normalizeConversationMessage message = Some n -> normal_message n.
Proof.
  rewrite normalizeConversationMessage_cases.
  destruct (is_object message); simpl; [|discriminate].
  destruct (nonempty (role_of message)) eqn:Hr; simpl; [|discriminate].
  destruct (nonempty (trim (content_of message))
            || isEventSystemMessage (messageType_of message)) eqn:Hc;
    [|discriminate].
  intros [= <-]. unfold normalized_message.
  eexists _, _, _, _, _, _. split; [reflexivity|].
  split; [exact Hr|]. split; [apply role_of_normal|].
  split; [apply lower_trim_idem|]. split; [exact Hc|].
  split; [apply normalizeMessageMedia_normal|].
  split; apply trim_idem.
Qed.

(** What a normalised message holds under each name the normaliser reads. *)
Lemma message_props_lookup (role content messageType : string) (media : list json) (dateTime id : string) :
  let p := message_props role content messageType media dateTime id in
  assoc "role" p = Some (JStr role)
  /\ assoc "content" p = Some (JStr content)
  /\ assoc "message_type" p = None
  /\ assoc "messageType" p = (if nonempty messageType then Some (JStr messageType) else None)
  /\ assoc "media" p = (match media with [] => None | _ :: _ => Some (JArr media) end)
  /\ assoc "message_media" p = None
  /\ assoc "dateTime" p = (if nonempty dateTime then Some (JStr dateTime) else None)
  /\ assoc "date_time" p = None
  /\ assoc "timestamp" p = None
  /\ assoc "id" p = (if nonempty id then Some (JStr id) else None)
  /\ assoc "message_id" p = None.
Proof.
  unfold message_props.
  destruct (nonempty messageType), media, (nonempty dateTime), (nonempty id);
    repeat split.
Qed.

Lemma normal_message_fixed (n : json) :
  normal_message n -> normalizeConversationMessage n = Some n.
Proof.
  intros (role & content & mt & media & dt & id & -> & Hr & Hrn & Hmn & Hc & Hmedia & Hdt & Hid).
  destruct (message_props_lookup role content mt media dt id)
    as (Lrole & Lcontent & Lmtype & LmType & Lmedia & Lmm & Ldt & Ldt' & Lts & Lid & Lmid).
  set (p := message_props role content mt media dt id) in *.
  assert (Emt : messageType_of (JObj p) = mt).
  { unfold messageType_of, get, own_entries. rewrite Lmtype, LmType.
    unfold js_or. simpl otruthy. cbv iota.
    now rewrite string_or_empty_optional. }
  assert (Erole : role_of (JObj p) = role).
  { unfold role_of, explicitRole_of, get. rewrite Lrole, string_or_empty_str, Hrn.
    now rewrite Hr. }
  assert (Econtent : content_of (JObj p) = content).
  { unfold content_of, get. rewrite Lcontent. reflexivity. }
  assert (Emedia : normalizeMessageMedia
                     (js_or (get "media" (JObj p)) (get "message_media" (JObj p)))
                   = media).
  { unfold get. rewrite Lmedia, Lmm. destruct media as [|x media]; [reflexivity|].
    change (filter_map normalizeMediaItem (x :: media) = x :: media).
    apply filter_map_fixed.
    eapply Forall_impl; [|exact Hmedia]. apply normal_media_item_fixed. }
  assert (Edt : dateTime_of (JObj p) = dt).
  { unfold dateTime_of, get. rewrite Ldt, Ldt', Lts.
    destruct dt; [reflexivity | exact Hdt]. }
  assert (Eid : id_of (JObj p) = id).
  { unfold id_of, get. rewrite Lid, Lmid.
    replace (js_or (if nonempty id then Some (JStr id) else None) None)
      with (if nonempty id then Some (JStr id) else None) by now destruct id.
    now rewrite string_or_empty_optional. }
  rewrite normalizeConversationMessage_cases.
  unfold normalized_message. rewrite Emt, Erole, Econtent, Emedia, Edt, Eid.
  change (is_object (JObj p)) with true. now rewrite Hr, Hc.
Qed.

(** Message normalisation is idempotent: a conversation that has been
    normalised is returned as it is. *)
Lemma normalizeConversationList_normal (value : option json) :
  Forall normal_message (normalizeConversationList value).
Proof.
  destruct value as [[| | | | items |]|]; simpl; try constructor.
  apply filter_map_Forall. apply normalized_message_normal.
Qed.

Lemma normal_conversation_fixed (conversation : list json) :
  Forall normal_message conversation ->
  normalizeConversationList (Some (JArr conversation)) = conversation.
Proof.
  intros H. simpl. apply filter_map_fixed.
  eapply Forall_impl; [|exact H]. apply normal_message_fixed.
Qed.

Lemma normalizeConversationList_idempotent (value : option json) :
  normalizeConversationList (Some (JArr (normalizeConversationList value)))
  = normalizeConversationList value.
Proof. apply normal_conversation_fixed, normalizeConversationList_normal. Qed.

(* ------------------------------------------------------------------ *)
(** ** Normalised records and maps *)
(* ------------------------------------------------------------------ *)

Lemma get_obj (k : string) (o : props) : get k (JObj o) = assoc k o.
Proof. reflexivity. Qed.

Lemma ordered_merge_with_defaults (so defaults : json) :
  ordered_keys (merge_with_defaults so defaults).
Proof.
  unfold merge_with_defaults.
  repeat apply ordered_obj_set. repeat apply ordered_spread. apply ordered_nil.
Qed.

Lemma ordered_preload_conversation (so : json) (m : props) :
  ordered_keys m -> ordered_keys (preload_conversation so m).
Proof.
  intros H. unfold preload_conversation.
  destruct (preloadedConversation so) as [[| | | |[|x l]|]|]; trivial.
  now apply ordered_obj_set.
Qed.

Lemma ordered_fill_customerMessage (conversation : list json) (m : props) :
  ordered_keys m -> ordered_keys (fill_customerMessage conversation m).
Proof.
  intros H. unfold fill_customerMessage.
  destruct (negb (otruthy (assoc "customerMessage" m))); [|exact H].
  destruct (find is_customer_with_content conversation); [|exact H].
  destruct (get "content" j); [|exact H].
  now apply ordered_obj_set.
Qed.

Lemma ordered_fill_record (key : string) (conversation : list json) (m : props) :
  ordered_keys m -> ordered_keys (fill_record key conversation m).
Proof.
  intros H. unfold fill_record.
  apply ordered_obj_set. do 2 apply ordered_set_if.
  apply ordered_fill_customerMessage. now apply ordered_obj_set.
Qed.

(** The three merged sub-objects of a record: each is an object with ordered
    keys. *)
Lemma record_merged_objects (rawScenario defaults : json) (key : string) (k : string) :
  k = "guidelines" \/ k = "notes" \/ k = "rightPanel" ->
  exists o, assoc k (normalizeScenarioRecord rawScenario defaults key) = Some (JObj o)
            /\ ordered_keys o.
Proof.
  intros Hk. unfold normalizeScenarioRecord.
  assert (Hfill : assoc k (fill_record key
                    (buildConversationFromScenario
                       (Some (JObj (preload_conversation (scenarioObject_of rawScenario)
                          (merge_with_defaults (scenarioObject_of rawScenario) defaults)))))
                    (preload_conversation (scenarioObject_of rawScenario)
                       (merge_with_defaults (scenarioObject_of rawScenario) defaults)))
                  = assoc k (merge_with_defaults (scenarioObject_of rawScenario) defaults)).
  { unfold fill_record.
    destruct Hk as [-> | [-> | ->]]; assoc_through;
      rewrite assoc_fill_customerMessage by reflexivity; assoc_through;
      now rewrite assoc_preload_conversation by reflexivity. }
  rewrite Hfill. unfold merge_with_defaults.
  destruct Hk as [-> | [-> | ->]]; assoc_through; eexists;
    (split; [reflexivity|]); repeat apply ordered_spread; apply ordered_nil.
Qed.

Lemma buildConversationFromScenario_normal (scenario : option json) :
  Forall normal_message (buildConversationFromScenario scenario).
Proof.
  unfold buildConversationFromScenario.
  destruct scenario as [sc|]; [|constructor].
  repeat match goal with
         | |- context [if ?b then _ else _] => destruct b
         end;
    try constructor; apply normalizeConversationList_normal.
Qed.

Lemma fill_customerMessage_found (conversation : list json) (m : props) :
  otruthy (assoc "customerMessage" (fill_customerMessage conversation m)) = false ->
  find is_customer_with_content conversation = None.
Proof.
  unfold fill_customerMessage.
  destruct (otruthy (assoc "customerMessage" m)) eqn:E; simpl.
  - intros H. rewrite E in H. discriminate.
  - destruct (find is_customer_with_content conversation) as [fc|] eqn:F;
      [|reflexivity].
    apply find_some in F. destruct F as [_ F].
    unfold is_customer_with_content in F.
    apply andb_true_iff in F. destruct F as [_ F].
    destruct (get "content" fc) as [c|]; [|discriminate].
    rewrite assoc_obj_set_same. intros H. simpl in F, H. congruence.
Qed.

Lemma normalizeScenarioRecord_normal (rawScenario defaults : json) (key : string) :
  normal_record (normalizeScenarioRecord rawScenario defaults key).
Proof.
  unfold normal_record.
  split; [|split; [|split; [|split; [|split; [|split; [|split]]]]]].
  - apply ordered_fill_record, ordered_preload_conversation,
      ordered_merge_with_defaults.
  - apply record_merged_objects. auto.
  - apply record_merged_objects. auto.
  - apply record_merged_objects. auto.
  - eexists. split; [apply fill_record_conversation|].
    split; [apply buildConversationFromScenario_normal|].
    unfold normalizeScenarioRecord, fill_record. assoc_through.
    apply fill_customerMessage_found.
  - unfold normalizeScenarioRecord, fill_record. assoc_through.
    match goal with
    | |- context [otruthy (assoc "agentName" ?m)] =>
        destruct (otruthy (assoc "agentName" m)) eqn:E
    end; simpl; [now left | now right].
  - rewrite record_companyName.
    destruct (otruthy (merged_companyName rawScenario defaults)) eqn:E;
      [exact E | reflexivity].
  - apply fill_record_agentInitial.
Qed.

(** Normalising a normalised record whose conversation is not empty, with no
    defaults, gives the record back. *)
Lemma normal_record_fixed (r : props) (key : string) :
  normal_record r ->
  nonempty_array (assoc "conversation" r) = true ->
  normalizeScenarioRecord (JObj r) (JObj []) key = r.
Proof.
  intros (Hord & (g & Hg & Hgo) & (n & Hn & Hno) & (p & Hp & Hpo)
          & (conv & Hconv & Hnormal & Hcustomer) & Hagent & Hcompany & Hinitial)
         Hnonempty.
  assert (Hmerge : merge_with_defaults (JObj r) (JObj []) = r).
  { unfold merge_with_defaults.
    rewrite !get_obj, Hg, Hn, Hp.
    change (assoc ?k []) with (@None json).
    change (js_or None None) with (@None json).
    change (or_empty_object None) with (JObj []).
    change (js_or (Some (JObj n)) (Some (JObj g))) with (Some (JObj n)).
    change (or_empty_object (Some (JObj ?o))) with (JObj o).
    change (spread [] (JObj [])) with (@nil (string * json)).
    rewrite !spread_rebuilds by assumption.
    rewrite (obj_set_same_value _ _ _ Hg).
    rewrite (obj_set_same_value _ _ _ Hn).
    now rewrite (obj_set_same_value _ _ _ Hp). }
  rewrite Hconv in Hnonempty.
  destruct conv as [|m ms]; [discriminate|].
  assert (Hpre : preload_conversation (JObj r) r = r).
  { unfold preload_conversation, preloadedConversation.
    rewrite !get_obj, Hconv. simpl isArray. cbv iota.
    now apply obj_set_same_value. }
  assert (Hbuild : buildConversationFromScenario (Some (JObj r)) = m :: ms).
  { unfold buildConversationFromScenario.
    change (truthy (JObj r)) with true. simpl negb. cbv iota.
    change (nonempty_array (Some (JObj r))) with false. cbv iota.
    rewrite get_obj, Hconv. simpl nonempty_array. cbv iota.
    now apply normal_conversation_fixed. }
  unfold normalizeScenarioRecord.
  change (scenarioObject_of (JObj r)) with (JObj r).
  rewrite Hmerge, Hpre, Hbuild.
  unfold fill_record.
  rewrite (obj_set_same_value _ _ _ Hconv).
  assert (Hcm : fill_customerMessage (m :: ms) r = r).
  { unfold fill_customerMessage.
    destruct (otruthy (assoc "customerMessage" r)) eqn:E; [reflexivity|].
    simpl negb. cbv iota. now rewrite (Hcustomer eq_refl). }
  rewrite Hcm.
  assert (Han : set_if (negb (otruthy (assoc "agentName" r))) "agentName" (JStr "") r = r).
  { unfold set_if. destruct Hagent as [Ha|Ha].
    - now rewrite Ha.
    - destruct (negb (otruthy (assoc "agentName" r))); [|reflexivity].
      now apply obj_set_same_value. }
  rewrite Han. rewrite Hcompany. simpl negb. unfold set_if.
  now apply obj_set_same_value.
Qed.

Lemma normal_map_nil : normal_map [].
Proof. split; [apply ordered_nil | split; [intros ? ? [] | intros []]]. Qed.

Lemma normal_map_addScenario (defaults : json) (scenarios : props) (key : string) (raw : json) :
  normal_map scenarios -> normal_map (addScenario defaults scenarios key raw).
Proof.
  intros [Hord [Hall Hproto]]. unfold addScenario.
  destruct (String.eqb_spec key "__proto__") as [_|Hkey];
    [now split; [|split]|].
  split; [now apply ordered_obj_set|]. split.
  - intros k v Hin. apply in_obj_set in Hin. destruct Hin as [[= -> ->]|Hin].
    + eexists. split; [reflexivity | apply normalizeScenarioRecord_normal].
    + now apply Hall with k.
  - intros Hin. apply in_map_iff in Hin. destruct Hin as [[k v] [Hk Hin]].
    simpl in Hk. subst k.
    apply in_obj_set in Hin. destruct Hin as [[= <- _]|Hin]; [now elim Hkey|].
    apply Hproto. apply in_map_iff. now exists ("__proto__", v).
Qed.

Lemma normal_map_add_indexed (defaults : json) (items : list json) (i : N) (scenarios : props) :
  normal_map scenarios -> normal_map (add_indexed defaults i items scenarios).
Proof.
  revert i scenarios. induction items as [|item items IH]; simpl; intros i sc H;
    [exact H|].
  apply IH. now apply normal_map_addScenario.
Qed.

Lemma coerceScenariosPayloadToMap_normal (data : json) :
  normal_map (coerceScenariosPayloadToMap data).
Proof.
  unfold coerceScenariosPayloadToMap.
  match goal with |- context [if ?b then _ else _] => destruct b end.
  - match goal with
    | |- normal_map (fold_left ?f ?keys []) =>
        assert (H : forall acc, normal_map acc -> normal_map (fold_left f keys acc))
    end.
    { induction (map fst
                   (own_entries (or_empty_object (get "scenarios" data))))
        as [|k keys IH]; simpl; intros acc Hacc; [exact Hacc|].
      apply IH.
      destruct (get k (or_empty_object (get "scenarios" data)));
        [now apply normal_map_addScenario | exact Hacc]. }
    apply H, normal_map_nil.
  - match goal with
    | |- normal_map (match ?a with _ => _ end) =>
        destruct a as [[| | | | items |]|]; try apply normal_map_nil
    end.
    match goal with |- context [if ?b then _ else _] => destruct b end.
    + apply normal_map_addScenario, normal_map_nil.
    + apply normal_map_add_indexed, normal_map_nil.
Qed.

Lemma renormalize_entries (scenarios rest acc : props) :
  scenarios = (acc ++ rest)%list ->
  ordered_keys scenarios ->
  ~ In "__proto__" (map fst rest) ->
  (forall key value, In (key, value) rest ->
     exists r, value = JObj r
               /\ normalizeScenarioRecord value (JObj []) key = r) ->
  fold_left
    (fun acc scenarioKey =>
       match get scenarioKey (JObj scenarios) with
       | Some raw => addScenario (JObj []) acc scenarioKey raw
       | None => acc
       end)
    (map fst rest) acc
  = scenarios.
Proof.
  revert acc. induction rest as [|[k v] rest IH]; intros acc Heq Hord Hproto Hfix; simpl.
  - now rewrite Heq, app_nil_r.
  - assert (Hget : assoc k scenarios = Some v).
    { apply assoc_in_ordered; [apply Hord|].
      rewrite Heq. apply in_or_app. right. now left. }
    rewrite Hget. unfold addScenario.
    destruct (String.eqb_spec k "__proto__") as [->|_];
      [elim Hproto; now left|].
    destruct (Hfix k v (or_introl eq_refl)) as [r [-> Hr]]. rewrite Hr.
    rewrite Heq in Hord. rewrite (obj_set_appends _ _ _ _ Hord).
    apply IH.
    + now rewrite <- app_assoc.
    + now rewrite <- Heq in Hord.
    + intros Hin. apply Hproto. now right.
    + intros key value Hin. apply Hfix. now right.
Qed.

Lemma coerce_without_scenarios (o : props) :
  assoc "scenarios" o = None -> coerceScenariosPayloadToMap (JObj o) = [].
Proof.
  intros H. unfold coerceScenariosPayloadToMap. rewrite !get_obj, H. reflexivity.
Qed.

Lemma coerce_as_payload (scenarios : props) :
  coerceScenariosPayloadToMap (as_payload scenarios)
  = fold_left
      (fun acc scenarioKey =>
         match get scenarioKey (JObj scenarios) with
         | Some raw => addScenario (JObj []) acc scenarioKey raw
         | None => acc
         end)
      (map fst scenarios) [].
Proof. reflexivity. Qed.




(** Why the conversations have to be non-empty: a conversation emptied by
    the message filter lets the next normalisation fall back on [messages]. *)
Lemma emptied_conversation_is_rebuilt :
  let data :=
    JArr [JObj [("conversation", JArr [JObj []]);
                ("messages", JArr [JObj [("role", JStr "agent"); ("content", JStr "hi")]])]] in
  assoc "conversation"
    (normalizeScenarioRecord
       (JObj [("conversation", JArr [JObj []]);
              ("messages", JArr [JObj [("role", JStr "agent"); ("content", JStr "hi")]])])
       (JObj []) "1")
  = Some (JArr [])
  /\ coerceScenariosPayloadToMap (as_payload (coerceScenariosPayloadToMap data))
     <> coerceScenariosPayloadToMap data.
Proof. split; [reflexivity | vm_compute; discriminate]. Qed.

Lemma in_set_status (fp : form_page) (text color : string) (e : effect) :
  In e (set_status fp text color) -> e = SetFormStatus text color.
Proof.
  unfold set_status. destruct (has_formStatus fp); simpl; [|tauto].
  intros [H|[]]. now symmetry.
Qed.

Lemma in_set_disabled (fp : form_page) (b : bool) (e : effect) :
  In e (set_disabled fp b) -> e = SetSubmitDisabled b.
Proof.
  unfold set_disabled. destruct (has_formSubmitBtn fp); simpl; [|tauto].
  intros [H|[]]. now symmetry.
Qed.

(** A submission whose notes are blank stops at the validation: the handler
    shows "Notes field is required." and does nothing else; no request is
    sent, nothing is stored and the form is not reset. *)
Theorem blank_notes_send_nothing (fp : form_page) :
  submission_blocked (form_context fp) = false ->
  nonempty (trim (str_or (query_get "notes" (form_data fp)) "")) = false ->
  submit_handler fp
  = PreventDefault :: set_status fp "Notes field is required." "#e74c3c"
  /\ forallb (fun e => negb (is_request e)) (submit_handler fp) = true
  /\ forall e, In e (submit_handler fp) -> concluding e = false.
Proof.
  intros Hb Hn.
  assert (Heq : submit_handler fp
                = PreventDefault
                  :: set_status fp "Notes field is required." "#e74c3c").
  { unfold submit_handler. now rewrite Hb, Hn. }
  split; [exact Heq|]. rewrite Heq. split.
  - simpl. apply no_request_in_status.
  - intros e [<-|Hin]; [reflexivity|].
    apply in_set_status in Hin. now subst e.
Qed.

Lemma blank_notes_send_nothing_witness :
  submit_handler
    {| form_context := form_context editor_page;
       has_formStatus := true;
       has_formSubmitBtn := true;
       form_data := [("product_sales", "upsell"); ("notes", "   ")];
       zeroToleranceLabel := "None";
       form_state_raw := "{}";
       internalNotes_value := Some "";
       form_agentName := Some "Kim";
       form_agentEmail := Some "kim@example.com";
       timer_time := "00:42";
       est_timestamp := "1/30/2025 13:24:49";
       app_base_url := "https://example.com/app.html";
       evaluation_request := evaluation_request editor_page;
       done_request := done_request editor_page |}
  = [PreventDefault; SetFormStatus "Notes field is required." "#e74c3c"].
Proof.
  refine (proj1 (blank_notes_send_nothing _ _ _)); reflexivity.
Defined.

(** The handler concludes a submission (saves the draft, marks the
    assignment done, redraws the queue, opens the next assignment, shows the
    success message, resets the form or clears the stored state) only when
    the submission was allowed, the notes were filled in and the evaluation
    request came back with an ok status and, if its body is JSON, with
    status "success". *)
Theorem conclusion_needs_accepted_evaluation (fp : form_page) (e : effect) :
  In e (submit_handler fp) ->
  concluding e = true ->
  submission_blocked (form_context fp) = false
  /\ nonempty (trim (str_or (query_get "notes" (form_data fp)) "")) = true
  /\ exists res,
       evaluation_request fp = Returned res
       /\ res_ok res = true
       /\ forall body, res_json res = Some body ->
            truthy body = true /\ get "status" body = Some (JStr "success").
Proof.
  unfold submit_handler. intros [<-|Hin] Hc; [discriminate|].
  destruct (submission_blocked (form_context fp)).
  { apply in_set_status in Hin. subst e. discriminate. }
  split; [reflexivity|].
  destruct (nonempty (trim (str_or (query_get "notes" (form_data fp)) ""))).
  2:{ apply in_set_status in Hin. subst e. discriminate. }
  split; [reflexivity|]. simpl negb in Hin. cbv iota in Hin.
  destruct Hin as [<-|Hin]; [discriminate|].
  apply in_app_or in Hin. destruct Hin as [Hin|Hin].
  { apply in_set_disabled in Hin. subst e. discriminate. }
  apply in_app_or in Hin. destruct Hin as [Hin|Hin].
  { apply in_set_status in Hin. subst e. discriminate. }
  destruct Hin as [<-|Hin]; [discriminate|].
  apply in_app_or in Hin. destruct Hin as [Hin|Hin].
  2:{ apply in_set_disabled in Hin. subst e. discriminate. }
  destruct (evaluation_request fp) as [res|msg].
  2:{ destruct Hin as [<-|Hin]; [discriminate|].
      apply in_set_status in Hin. subst e. discriminate. }
  exists res. split; [reflexivity|].
  destruct (res_json res) as [body|] eqn:Hbody.
  - destruct (res_ok res); simpl in Hin.
    2:{ apply in_set_status in Hin. subst e. discriminate. }
    destruct (truthy body) eqn:Ht; simpl in Hin.
    2:{ apply in_set_status in Hin. subst e. discriminate. }
    destruct (get "status" body) as [[| | | s | |]|] eqn:Hs;
      try (apply in_set_status in Hin; subst e; discriminate).
    destruct (String.eqb_spec s "success") as [->|Hne].
    + split; [reflexivity|]. intros body' [= <-]. split; [exact Ht | exact Hs].
    + exfalso.
      assert (Hfail : In e (set_status fp
                 ("Submission failed. "
                  ++ (if otruthy (if otruthy (get "message" body)
                                  then get "message" body else None)
                      then "Details: "
                           ++ template_text (if otruthy (get "message" body)
                                             then get "message" body else None)
                      else "Please try again."))
                 "#e74c3c")).
      { revert Hin.
        repeat (destruct s as [|[[] [] [] [] [] [] [] []] s]; try (intros H; exact H)).
        now elim Hne. }
      apply in_set_status in Hfail. subst e. discriminate.
  - destruct (res_ok res).
    + split; [reflexivity|]. discriminate.
    + apply in_set_status in Hin. subst e. discriminate.
Qed.

Lemma conclusion_needs_accepted_evaluation_witness :
  exists res,
    evaluation_request editor_page = Returned res
    /\ res_ok res = true
    /\ forall body, res_json res = Some body ->
         truthy body = true /\ get "status" body = Some (JStr "success").
Proof.
  refine (proj2 (proj2 (conclusion_needs_accepted_evaluation editor_page ResetForm _ _))).
  - vm_compute. tauto.
  - reflexivity.
Defined.

Lemma find_by_id_first (target : string) (entries : props) (key : string) (scenario : json) :
  find_by_id target entries = Some (key, scenario) ->
  exists before after,
    entries = (before ++ (key, scenario) :: after)%list
    /\ scenario_id_text scenario = target
    /\ Forall (fun kv => scenario_id_text (snd kv) <> target) before.
Proof.
  induction entries as [|[k sc] entries IH]; simpl; [discriminate|].
  fold (scenario_id_text sc).
  destruct (String.eqb_spec (scenario_id_text sc) target) as [He|Hne].
  - intros [= <- <-]. exists [], entries. split; [reflexivity|]. split; [exact He|constructor].
  - intros H. destruct (IH H) as [before [after [-> [Hid Hb]]]].
    exists ((k, sc) :: before), after. split; [reflexivity|]. split; [exact Hid|].
    constructor; [exact Hne | exact Hb].
Qed.

Lemma find_by_id_none (target : string) (entries : props) :
  find_by_id target entries = None ->
  Forall (fun kv => scenario_id_text (snd kv) <> target) entries.
Proof.
  induction entries as [|[k sc] entries IH]; simpl; [constructor|].
  fold (scenario_id_text sc).
  destruct (String.eqb_spec (scenario_id_text sc) target) as [He|Hne]; [discriminate|].
  intros H. constructor; [exact Hne | exact (IH H)].
Qed.

(** The scenario an assignment context points at is the first scenario of
    the loaded map whose trimmed id is the trimmed send_id of the
    assignment; the context is only built for a page that names an
    assignment and carries a token. *)
Theorem context_scenario_matches_send_id (query : list (string * string)) (settled : outcome response) (scenarios : props) (ctx : assignment_context) :
  loadAssignmentContextFromUrl query settled scenarios = Returned (Some ctx) ->
  (exists scenario before after,
     scenarios = (before ++ (scenarioKey ctx, scenario) :: after)%list
     /\ scenario_id_text scenario = trim (string_or_empty (send_id ctx))
     /\ Forall (fun kv => scenario_id_text (snd kv)
                          <> trim (string_or_empty (send_id ctx))) before)
  /\ nonempty (token ctx) = true
  /\ query_get "token" query = Some (token ctx)
  /\ exists aid, query_get "aid" query = Some aid /\ nonempty aid = true.
Proof.
  unfold loadAssignmentContextFromUrl, getAssignmentParamsFromUrl. simpl.
  destruct (nonempty (str_or (query_get "aid" query) "")) eqn:Haid;
    [|discriminate].
  destruct (nonempty (str_or (query_get "token" query) "")) eqn:Htok;
    [|discriminate].
  simpl.
  destruct (fetchAssignment settled) as [response|]; [|discriminate].
  destruct (assignment_of response) as [assignment|]; [|discriminate].
  destruct (findScenarioBySendId scenarios (get "send_id" assignment))
    as [[key sc]|] eqn:Hfind; [|discriminate].
  intros [= <-]. simpl.
  unfold findScenarioBySendId in Hfind.
  destruct (find_by_id_first _ _ _ _ Hfind) as [before [after [Hs [Hid Hb]]]].
  split; [exists sc, before, after; auto|].
  split; [exact Htok|].
  split.
  - unfold str_or in *. destruct (query_get "token" query) as [t|]; [|discriminate].
    destruct (nonempty t); [reflexivity | discriminate].
  - unfold str_or in Haid. destruct (query_get "aid" query) as [a|]; [|discriminate].
    exists a. split; [reflexivity|]. destruct (nonempty a); [reflexivity | discriminate].
Qed.

Lemma context_scenario_matches_send_id_witness :
  exists scenario before after,
    [("1", JObj [("id", JStr "s1")]); ("2", JObj [("id", JStr " s9 ")])]
    = (before ++ ("2", scenario) :: after)%list
    /\ scenario_id_text scenario = "s9"
    /\ Forall (fun kv => scenario_id_text (snd kv) <> "s9") before.
Proof.
  refine (proj1 (context_scenario_matches_send_id
            [("aid", "a1"); ("token", "t1")]
            (Returned {| res_ok := true; res_status := 200;
                         res_json := Some (JObj [("assignment",
                           JObj [("assignment_id", JStr "a1");
                                 ("send_id", JStr "s9")])]) |})
            [("1", JObj [("id", JStr "s1")]); ("2", JObj [("id", JStr " s9 ")])]
            {| assignment_id := Some (JStr "a1"); send_id := Some (JStr "s9");
               role := "editor"; mode := "edit"; token := "t1";
               status := Some (JStr ""); scenarioKey := "2";
               form_state_json := Some (JStr ""); internal_note := Some (JStr "") |}
            _)).
  reflexivity.
Defined.

(** Arrow navigation through the scenario list never opens a locked
    scenario: for a user who is not the administrator, whenever it
    navigates, the scenario it stores and opens is one of the sorted keys and
    its number is the unlocked one. *)
Theorem navigation_respects_unlock (pg : page) (direction : Z) (stored : option string) (loc : location) :
  isAdminUser pg = false ->
  navigateScenarioList pg direction = Some (stored, loc) ->
  exists data key n,
    loadScenariosData pg = Some data
    /\ stored = Some key
    /\ In key (scenario_keys data)
    /\ loc = buildScenarioUrl pg (Some key) data
    /\ parseInt key = Some n
    /\ getCurrentUnlockedScenario pg = Some n.
Proof.
  intros Hadmin. unfold navigateScenarioList.
  destruct (loadScenariosData pg) as [data|]; [|discriminate].
  destruct (scenario_keys data) as [|k keys] eqn:Hkeys; [discriminate|].
  unfold canAccessScenario. rewrite Hadmin. unfold isCsvScenarioMode. simpl negb.
  destruct (targetScenario pg direction (k :: keys)) as [key|] eqn:Ht;
    [|discriminate].
  destruct (parseInt key) as [requested|] eqn:Hp; [|discriminate].
  destruct (getCurrentUnlockedScenario pg) as [unlocked|]; [|discriminate].
  destruct (Z.eqb_spec requested unlocked) as [->|]; [|discriminate].
  intros [= <- <-]. exists data, key, unlocked.
  split; [reflexivity|]. split; [reflexivity|]. split.
  - unfold targetScenario, at_index in Ht.
    destruct (_ <? 0)%Z; [discriminate|]. apply nth_error_In in Ht. now rewrite Hkeys.
  - split; [reflexivity|]. split; [exact Hp | reflexivity].
Qed.

Lemma navigation_respects_unlock_witness :
  exists data key n,
    loadScenariosData trainee_page = Some data
    /\ Some "2" = Some key
    /\ In key (scenario_keys data)
    /\ AppHtmlQuery [("scenario", "2"); ("mode", "edit")]
       = buildScenarioUrl trainee_page (Some key) data
    /\ parseInt key = Some n
    /\ getCurrentUnlockedScenario trainee_page = Some n.
Proof.
  apply (navigation_respects_unlock trainee_page 1); reflexivity.
Defined.

(* ------------------------------------------------------------------ *)
(** ** Numerals: printing and reading back *)
(* ------------------------------------------------------------------ *)

Lemma leading_digits_acc (d : Decimal.uint) (p : positive) :
  leading_digits (NilEmpty.string_of_uint d) (Some (N.pos p))
  = Some (N.pos (Pos.of_uint_acc d p)).
Proof.
  revert p. induction d; intros p; [reflexivity|..];
    cbn [NilEmpty.string_of_uint leading_digits Pos.of_uint_acc];
    match goal with
    | |- context [is_digit ?c] => change (is_digit c) with true
    end; cbv iota; rewrite <- IHd; do 2 f_equal;
    match goal with
    | |- context [digit_value ?c] =>
        let v := eval vm_compute in (digit_value c) in
        change (digit_value c) with v
    end; lia.
Qed.

Lemma leading_digits_zero (d : Decimal.uint) :
  leading_digits (NilEmpty.string_of_uint d) (Some 0%N) = Some (Pos.of_uint d).
Proof.
  induction d; [reflexivity|..];
    cbn [NilEmpty.string_of_uint leading_digits Pos.of_uint];
    match goal with
    | |- context [is_digit ?c] => change (is_digit c) with true
    end; cbv iota;
    match goal with
    | |- context [digit_value ?c] =>
        let v := eval vm_compute in (digit_value c) in
        change (digit_value c) with v
    end; cbn [N.mul N.add]; solve [exact IHd | apply leading_digits_acc].
Qed.

Lemma leading_digits_numeral (d : Decimal.uint) :
  d <> Decimal.Nil ->
  leading_digits (NilEmpty.string_of_uint d) None = Some (Pos.of_uint d).
Proof.
  destruct d; [congruence|..]; intros _;
    cbn [NilEmpty.string_of_uint leading_digits Pos.of_uint];
    match goal with
    | |- context [is_digit ?c] => change (is_digit c) with true
    end; cbv iota;
    match goal with
    | |- context [digit_value ?c] =>
        let v := eval vm_compute in (digit_value c) in
        change (digit_value c) with v
    end; solve [apply leading_digits_zero | apply leading_digits_acc].
Qed.

Lemma parseInt10_numeral (d : Decimal.uint) :
  d <> Decimal.Nil ->
  parseInt10 (NilEmpty.string_of_uint d) = Some (Z.of_N (Pos.of_uint d)).
Proof.
  intros Hd. pose proof (leading_digits_numeral d Hd) as H.
  destruct d; [congruence|..]; unfold parseInt10, skip_ws;
    cbn [NilEmpty.string_of_uint trim_start];
    match goal with
    | |- context [is_ws ?c] => change (is_ws c) with false
    end; cbv iota; cbn [NilEmpty.string_of_uint] in H; rewrite H; reflexivity.
Qed.

Lemma string_of_uint_nonnil (d : Decimal.uint) :
  d <> Decimal.Nil -> NilZero.string_of_uint d = NilEmpty.string_of_uint d.
Proof. destruct d; [congruence|..]; reflexivity. Qed.

Lemma nzhead_not_D0 (d u : Decimal.uint) : Decimal.nzhead d <> Decimal.D0 u.
Proof. induction d; simpl; try discriminate. exact IHd. Qed.

Lemma to_uint_head (p : positive) (u : Decimal.uint) :
  Pos.to_uint p <> Decimal.D0 u.
Proof.
  intros H.
  pose proof (DecimalPos.Unsigned.to_of (Pos.to_uint p)) as Hn.
  rewrite DecimalPos.Unsigned.of_to in Hn. cbn [N.to_uint] in Hn.
  rewrite H in Hn. unfold Decimal.unorm in Hn.
  destruct (Decimal.nzhead (Decimal.D0 u)) eqn:E; try discriminate.
  - injection Hn as ->. now apply (DecimalPos.Unsigned.to_uint_nonzero p).
  - now apply (nzhead_not_D0 (Decimal.D0 u) u0).
Qed.

(** A decimal numeral that does not begin with 0 has no [0x] prefix. *)
Lemma leading_numeral_decimal (d : Decimal.uint) :
  (forall u, d <> Decimal.D0 u) ->
  leading_numeral (NilEmpty.string_of_uint d)
  = leading_digits (NilEmpty.string_of_uint d) None.
Proof.
  intros H. destruct d; try reflexivity. now elim (H d).
Qed.

(** Reading back a printed integer gives the integer. *)
Lemma parseInt_number_to_string (n : Z) :
  parseInt (number_to_string n) = Some n.
Proof.
  unfold number_to_string. destruct n as [|p|p]; [reflexivity|..];
    cbn [Z.to_int NilZero.string_of_int];
    pose proof (DecimalPos.Unsigned.to_uint_nonnil p) as Hnil;
    pose proof (to_uint_head p) as Hhead;
    rewrite (string_of_uint_nonnil _ Hnil).
  - assert (Hws : skip_ws (NilEmpty.string_of_uint (Pos.to_uint p))
                  = NilEmpty.string_of_uint (Pos.to_uint p)).
    { destruct (Pos.to_uint p); reflexivity. }
    assert (Hsign : parseInt (NilEmpty.string_of_uint (Pos.to_uint p))
                    = match leading_numeral (NilEmpty.string_of_uint (Pos.to_uint p)) with
                      | Some n => Some (Z.of_N n)
                      | None => None
                      end).
    { unfold parseInt. rewrite Hws. destruct (Pos.to_uint p); reflexivity. }
    rewrite Hsign, (leading_numeral_decimal _ Hhead).
    rewrite leading_digits_numeral by exact Hnil.
    now rewrite DecimalPos.Unsigned.of_to.
  - unfold parseInt, skip_ws.
    cbn [trim_start]. change (is_ws "-") with false. cbv iota.
    rewrite (leading_numeral_decimal _ Hhead).
    rewrite leading_digits_numeral by exact Hnil.
    now rewrite DecimalPos.Unsigned.of_to.
Qed.

(** Reading back a printed integer gives the integer. *)
Lemma parseInt10_number_to_string (n : Z) :
  parseInt10 (number_to_string n) = Some n.
Proof.
  unfold number_to_string. destruct n as [|p|p]; [reflexivity|..];
    cbn [Z.to_int NilZero.string_of_int];
    pose proof (DecimalPos.Unsigned.to_uint_nonnil p) as Hnil;
    rewrite (string_of_uint_nonnil _ Hnil).
  - rewrite parseInt10_numeral by exact Hnil.
    now rewrite DecimalPos.Unsigned.of_to.
  - unfold parseInt10, skip_ws.
    cbn [trim_start]. change (is_ws "-") with false. cbv iota.
    rewrite leading_digits_numeral by exact Hnil.
    now rewrite DecimalPos.Unsigned.of_to.
Qed.

Lemma nonempty_number_to_string (n : Z) : nonempty (number_to_string n) = true.
Proof.
  pose proof (parseInt10_number_to_string n) as H.
  destruct (number_to_string n); [discriminate | reflexivity].
Qed.

(* ------------------------------------------------------------------ *)
(** ** The unlock counter *)
(* ------------------------------------------------------------------ *)

(** Ending a conversation moves the trainee forward and never back: when
    the unlocked number is [n], a safe integer whose successor is one too,
    [unlockNextScenario] returns [n + 1] and stores it; afterwards a user who
    is not the administrator can open scenario [n + 1], and no scenario that
    could be opened before. *)
Theorem unlock_moves_access_forward (pg : page) (n : Z) :
  isAdminUser pg = false ->
  getCurrentUnlockedScenario pg = Some n ->
  (- 9007199254740992 <= n < 9007199254740992)%Z ->
  fst (unlockNextScenario pg) = Some (n + 1)%Z
  /\ getCurrentUnlockedScenario (snd (unlockNextScenario pg)) = Some (n + 1)%Z
  /\ canAccessScenario (snd (unlockNextScenario pg))
       (Some (number_to_string (n + 1))) = true
  /\ forall scenarioNumber,
       canAccessScenario pg scenarioNumber = true ->
       canAccessScenario (snd (unlockNextScenario pg)) scenarioNumber = false.
Proof.
  intros Hadmin Hn _.
  assert (Hnext : getCurrentUnlockedScenario (snd (unlockNextScenario pg))
                  = Some (n + 1)%Z).
  { unfold unlockNextScenario. rewrite Hn. simpl.
    unfold getCurrentUnlockedScenario. simpl.
    rewrite nonempty_number_to_string. apply parseInt_number_to_string. }
  assert (Hadmin' : isAdminUser (snd (unlockNextScenario pg)) = false)
    by exact Hadmin.
  split; [unfold unlockNextScenario; now rewrite Hn|].
  split; [exact Hnext|]. split.
  - unfold canAccessScenario. rewrite Hadmin', Hnext. unfold isCsvScenarioMode.
    rewrite parseInt_number_to_string. apply Z.eqb_refl.
  - intros s. unfold canAccessScenario.
    rewrite Hadmin, Hadmin', Hnext, Hn. unfold isCsvScenarioMode.
    destruct s as [number|]; [|discriminate].
    destruct (parseInt number) as [requested|]; [|discriminate].
    intros H. apply Z.eqb_eq in H. apply Z.eqb_neq. lia.
Qed.

Lemma unlock_moves_access_forward_witness :
  canAccessScenario trainee_page (Some "2") = true
  /\ canAccessScenario (snd (unlockNextScenario trainee_page)) (Some "3") = true
  /\ canAccessScenario (snd (unlockNextScenario trainee_page)) (Some "2") = false.
Proof.
  destruct (unlock_moves_access_forward trainee_page 2 eq_refl eq_refl)
    as [_ [_ [Hnext Hback]]]; [lia|].
  split; [reflexivity|]. split; [exact Hnext|]. apply Hback. reflexivity.
Defined.

(* ------------------------------------------------------------------ *)
(** ** The requested scenario *)
(* ------------------------------------------------------------------ *)

Lemma find_key_by_id_spec (target : string) (entries : props) :
  find_key_by_id target entries
  = match find_by_id target entries with Some (key, _) => key | None => "" end.
Proof.
  induction entries as [|[k sc] entries IH]; simpl; [reflexivity|].
  now destruct (_ =? target).
Qed.



Lemma assoc_some_in (o : props) (k : string) (v : json) :
  assoc k o = Some v -> In (k, v) o.
Proof.
  induction o as [|[k0 v0] o IH]; simpl; [discriminate|].
  destruct (String.eqb_spec k k0) as [->|_].
  - intros [= ->]. now left.
  - intros H. right. now apply IH.
Qed.

Lemma getPageModeFromUrl_cases (query : list (string * string)) :
  getPageModeFromUrl query = "view" \/ getPageModeFromUrl query = "edit".
Proof. unfold getPageModeFromUrl. destruct (_ =? "view"); auto. Qed.

(** The [sid] parameter [buildScenarioUrl] writes for a scenario is the text
    the searches by id compare. *)
Lemma scenario_id_text_truthy (scenario : json) :
  truthy scenario = true ->
  (if otruthy (get "id" scenario) then trim (template_text (get "id" scenario)) else "")
  = scenario_id_text scenario.
Proof.
  intros Ht. unfold scenario_id_text. rewrite Ht.
  destruct (get "id" scenario) as [v|]; simpl; [|reflexivity].
  now destruct (truthy v).
Qed.

Lemma trim_scenario_id_text (scenario : json) :
  trim (scenario_id_text scenario) = scenario_id_text scenario.
Proof. unfold scenario_id_text. apply trim_idem. Qed.

(** The scenario made active on a page whose query is the one
    [buildScenarioUrl] builds for a scenario. *)
Lemma active_scenario_round_trip (pg pg' : page) (key : string) (scenarios : props) (scenario : json) :
  NoDup (map fst scenarios) ->
  nonempty (trim key) = true ->
  assoc (trim key) scenarios = Some scenario ->
  truthy scenario = true ->
  exists params,
    buildScenarioUrl pg (Some key) scenarios = AppHtmlQuery params
    /\ getPageModeFromUrl params = getPageModeFromUrl (page_query pg)
    /\ (page_query pg' = params ->
        (exists opened,
           assoc (activeScenario pg' scenarios) scenarios = Some opened
           /\ truthy opened = true
           /\ scenario_id_text opened = scenario_id_text scenario)
        /\ ((forall k sc, In (k, sc) scenarios ->
               scenario_id_text sc = scenario_id_text scenario ->
               nonempty (scenario_id_text scenario) = true -> k = trim key) ->
            activeScenario pg' scenarios = trim key)).
Proof.
  intros Hnd Hkey Hassoc Htruthy.
  unfold buildScenarioUrl.
  assert (Hstr : str_or (Some key) "" = key) by (now destruct key).
  rewrite Hstr, Hkey, Hassoc, Htruthy. simpl negb. cbv iota.
  rewrite (scenario_id_text_truthy scenario Htruthy).
  eexists. split; [reflexivity|].
  assert (Hmember : has_member (trim key) scenarios = true).
  { unfold has_member. now rewrite Hassoc. }
  destruct (nonempty (scenario_id_text scenario)) eqn:Hsid.
  - (* the URL carries the id *)
    split.
    { unfold getPageModeFromUrl at 1. simpl.
      destruct (getPageModeFromUrl_cases (page_query pg)) as [-> | ->]; reflexivity. }
    intros Hq.
    assert (Hsidurl : getScenarioIdFromUrl pg' = scenario_id_text scenario).
    { unfold getScenarioIdFromUrl. rewrite Hq. simpl. rewrite Hsid.
      apply trim_scenario_id_text. }
    assert (Hnum : getScenarioNumberFromUrl pg' = Some (trim key)).
    { unfold getScenarioNumberFromUrl. rewrite Hq. simpl. now rewrite Hkey. }
    assert (Hfound : exists k sc,
               find_by_id (scenario_id_text scenario) scenarios = Some (k, sc)).
    { pose proof (find_by_id_none (scenario_id_text scenario) scenarios) as Hnone.
      destruct (find_by_id (scenario_id_text scenario) scenarios) as [[k sc]|];
        [now exists k, sc|].
      specialize (Hnone eq_refl). rewrite Forall_forall in Hnone.
      elim (Hnone _ (assoc_some_in _ _ _ Hassoc)). reflexivity. }
    destruct Hfound as [k [sc Hfind]].
    destruct (find_by_id_first _ _ _ _ Hfind) as [before [after [Hs [Hid _]]]].
    assert (Hin : In (k, sc) scenarios).
    { rewrite Hs. apply in_or_app. right. now left. }
    assert (Hsc : truthy sc = true).
    { destruct (truthy sc) eqn:Ht; [reflexivity|].
      assert (He : scenario_id_text sc = "").
      { unfold scenario_id_text, string_or_empty. now rewrite Ht, Ht. }
      rewrite <- Hid, He in Hsid. discriminate. }
    assert (Hresolved : resolveRequestedScenarioKey pg' scenarios
                        = if nonempty k then k else trim key).
    { unfold resolveRequestedScenarioKey. rewrite Hsidurl, Hsid.
      unfold findScenarioKeyById. rewrite string_or_empty_str.
      rewrite trim_scenario_id_text, Hsid. simpl negb. cbv iota.
      rewrite find_key_by_id_spec, Hfind.
      destruct (nonempty k); [reflexivity|].
      now rewrite Hnum, Hkey, Hmember. }
    assert (Hactive : activeScenario pg' scenarios
                      = if nonempty k then k else trim key).
    { unfold activeScenario. rewrite Hresolved.
      destruct (nonempty k) eqn:Hk.
      - rewrite Hk. unfold has_member.
        rewrite (assoc_in_ordered _ _ _ Hnd Hin). now rewrite Hsc.
      - rewrite Hkey. now rewrite Hmember. }
    split.
    + rewrite Hactive. destruct (nonempty k).
      * exists sc. split; [now apply assoc_in_ordered|]. split; [exact Hsc | exact Hid].
      * exists scenario. split; [exact Hassoc|]. split; [exact Htruthy | reflexivity].
    + intros Hunique. rewrite Hactive.
      destruct (nonempty k); [|reflexivity].
      apply (Hunique k sc Hin Hid eq_refl).
  - (* no id: the URL carries the key alone *)
    split.
    { unfold getPageModeFromUrl at 1. simpl.
      destruct (getPageModeFromUrl_cases (page_query pg)) as [-> | ->]; reflexivity. }
    intros Hq.
    assert (Hactive : activeScenario pg' scenarios = trim key).
    { unfold activeScenario, resolveRequestedScenarioKey, getScenarioIdFromUrl,
        getScenarioNumberFromUrl.
      rewrite Hq. simpl. repeat (rewrite ?Hkey, ?Hmember; simpl). reflexivity. }
    split.
    + rewrite Hactive. exists scenario.
      split; [exact Hassoc|]. split; [exact Htruthy | reflexivity].
    + intros _. exact Hactive.
Qed.

Lemma built_url_names_no_assignment (pg : page) (scenarioKey : option string) (scenarios : props) (params : list (string * string)) :
  buildScenarioUrl pg scenarioKey scenarios = AppHtmlQuery params ->
  param_aid (getAssignmentParamsFromUrl params) = "".
Proof.
  unfold buildScenarioUrl.
  destruct (negb (nonempty (trim (str_or scenarioKey "")))); [discriminate|].
  intros [= <-]. destruct (nonempty _); reflexivity.
Qed.

Lemma startup_opens_assignment (pg : page) (scenarios : props) (first : json) (rest : list json) (url : json) :
  refreshAssignmentQueue pg = Returned (first :: rest) ->
  get "edit_url" first = Some url ->
  truthy url = true ->
  startup_without_assignment pg scenarios = OpenedAssignment (ToString url).
Proof.
  intros Hq Hget Hurl. unfold startup_without_assignment. rewrite Hq.
  destruct first; try discriminate Hget.
  cbv zeta. rewrite Hget. unfold js_or. cbn [otruthy]. rewrite Hurl.
  cbn [otruthy]. rewrite Hurl. reflexivity.
Qed.

Lemma startup_opens_scenario (pg : page) (scenarios : props) :
  (forall first rest, refreshAssignmentQueue pg = Returned (first :: rest) ->
                      otruthy (get "edit_url" first) = false) ->
  startup_without_assignment pg scenarios = OpenedScenario (activeScenario pg scenarios).
Proof.
  intros H. unfold startup_without_assignment.
  destruct (refreshAssignmentQueue pg) as [[|first rest]|msg]; try reflexivity.
  specialize (H first rest eq_refl).
  destruct first; try reflexivity; cbv zeta; unfold js_or; rewrite H; reflexivity.
Qed.

(** Following the URL [buildScenarioUrl] builds for a scenario.  The URL
    keeps the mode and names no assignment, so on any page whose query is the
    one built the start-up code first refreshes the assignment queue: when
    the queue has a first assignment with a truthy [edit_url], the page goes
    to that assignment.  Otherwise, and when the refresh throws, the start-up
    opens the active scenario, which is an own member of the map with the
    same trimmed id; it is the scenario the URL was built for whenever no
    other scenario shares its id, or it has none. *)
Theorem scenario_url_round_trip (pg pg' : page) (key : string) (scenarios : props) (scenario : json) :
  NoDup (map fst scenarios) ->
  nonempty (trim key) = true ->
  assoc (trim key) scenarios = Some scenario ->
  truthy scenario = true ->
  exists params,
    buildScenarioUrl pg (Some key) scenarios = AppHtmlQuery params
    /\ getPageModeFromUrl params = getPageModeFromUrl (page_query pg)
    /\ param_aid (getAssignmentParamsFromUrl params) = ""
    /\ (page_query pg' = params ->
        (forall (first : json) (rest : list json) (url : json),
           refreshAssignmentQueue pg' = Returned (first :: rest) ->
           get "edit_url" first = Some url ->
           truthy url = true ->
           startup_without_assignment pg' scenarios = OpenedAssignment (ToString url))
        /\ ((forall first rest,
               refreshAssignmentQueue pg' = Returned (first :: rest) ->
               otruthy (get "edit_url" first) = false) ->
            startup_without_assignment pg' scenarios
            = OpenedScenario (activeScenario pg' scenarios))
        /\ (exists member,
              assoc (activeScenario pg' scenarios) scenarios = Some member
              /\ truthy member = true
              /\ scenario_id_text member = scenario_id_text scenario)
        /\ ((forall k sc, In (k, sc) scenarios ->
               scenario_id_text sc = scenario_id_text scenario ->
               nonempty (scenario_id_text scenario) = true -> k = trim key) ->
            activeScenario pg' scenarios = trim key)).
Proof.
  intros Hnd Hkey Hassoc Htruthy.
  destruct (active_scenario_round_trip pg pg' key scenarios scenario
              Hnd Hkey Hassoc Htruthy) as [params [Hbuilt [Hmode Hactive]]].
  exists params. split; [exact Hbuilt|]. split; [exact Hmode|]. split.
  - exact (built_url_names_no_assignment _ _ _ _ Hbuilt).
  - intros Hq. destruct (Hactive Hq) as [Hmember Hsame].
    split; [intros first rest url; apply startup_opens_assignment|].
    split; [apply startup_opens_scenario|].
    split; [exact Hmember | exact Hsame].
Qed.

(** The trainee's queue cannot be fetched, so the start-up opens the
    scenario of the URL. *)
Lemma scenario_url_round_trip_witness :
  buildScenarioUrl trainee_page (Some " 2") two_with_ids
  = AppHtmlQuery [("scenario", "2"); ("sid", "s9"); ("mode", "edit")]
  /\ startup_without_assignment
       (page_at trainee_page [("scenario", "2"); ("sid", "s9"); ("mode", "edit")])
       two_with_ids = OpenedScenario "2".
Proof.
  destruct (scenario_url_round_trip trainee_page
              (page_at trainee_page [("scenario", "2"); ("sid", "s9"); ("mode", "edit")])
              " 2" two_with_ids (JObj [("id", JStr " s9 ")]))
    as [params [Hbuilt [_ [_ Hopen]]]].
  - repeat constructor; simpl; intuition discriminate.
  - reflexivity.
  - reflexivity.
  - reflexivity.
  - split; [reflexivity|].
    assert (Hp : params = [("scenario", "2"); ("sid", "s9"); ("mode", "edit")])
      by (vm_compute in Hbuilt; congruence).
    destruct (Hopen (eq_sym Hp)) as (_ & Hscenario & _ & Hsame).
    rewrite Hscenario by (intros first rest; discriminate).
    rewrite Hsame; [reflexivity|].
    intros k sc [[= <- <-]|[[= <- <-]|[]]] Hid _; [discriminate Hid | reflexivity].
Defined.

(* ------------------------------------------------------------------ *)
(** ** Arrow navigation under the unlock rule *)
(* ------------------------------------------------------------------ *)

Lemma findIndex_from_found (x : string) (l : list string) (i : Z) :
  In x l ->
  exists j, findIndex_from i (fun k => k =? x) l = (i + Z.of_nat j)%Z
            /\ nth_error l j = Some x.
Proof.
  revert i. induction l as [|y l IH]; intros i; simpl; [tauto|].
  destruct (String.eqb_spec y x) as [->|Hne].
  - intros _. exists 0%nat. split; [lia | reflexivity].
  - intros [H|H]; [congruence|].
    destruct (IH (i + 1)%Z H) as [j [Hj Hn]].
    exists (S j). split; [lia | exact Hn].
Qed.

(** A trainee cannot leave the unlocked scenario with the arrows: for a user
    who is not the administrator, on a scenario of the list that may be
    opened, with at least two scenarios listed under distinct keys, all of
    them safe integers, going to the next or the previous scenario does
    nothing. *)
Theorem arrows_blocked_on_unlocked_scenario (pg : page) (direction : Z) (data : props) :
  isAdminUser pg = false ->
  loadScenariosData pg = Some data ->
  safe_keys data = true ->
  NoDup (scenario_keys data) ->
  (2 <= List.length (scenario_keys data))%nat ->
  In (getCurrentScenarioNumber pg) (scenario_keys data) ->
  canAccessScenario pg (Some (getCurrentScenarioNumber pg)) = true ->
  direction = 1%Z \/ direction = (-1)%Z ->
  navigateScenarioList pg direction = None.
Proof.
  intros Hadmin Hdata _ Hnd Hlen Hin Hcan Hdir.
  unfold navigateScenarioList. rewrite Hdata.
  destruct (scenario_keys data) as [|k0 keys] eqn:Hkeys; [reflexivity|].
  set (l := k0 :: keys) in *.
  set (current := getCurrentScenarioNumber pg) in *.
  destruct (findIndex_from_found current l 0 Hin) as [i [Hi Hnth]].
  assert (Hrange : (i < List.length l)%nat)
    by (apply nth_error_Some; congruence).
  assert (Hcur : scenario_currentIndex pg l = Z.of_nat i).
  { unfold scenario_currentIndex, findIndex. fold current. rewrite Hi. lia. }
  set (n := Z.of_nat (List.length l)).
  assert (Ht : (0 <= targetIndex (Z.of_nat i) direction n < n
                /\ targetIndex (Z.of_nat i) direction n <> Z.of_nat i)%Z).
  { destruct (targetIndex_found (Z.of_nat i) direction n) as [_ Hr];
      [unfold n; lia | exact Hdir|].
    split; [exact Hr|].
    destruct (targetIndex_step (Z.of_nat i) direction n) as [Hf Hb];
      [unfold n; lia|].
    destruct Hdir as [-> | ->].
    - destruct (Z.eq_dec (Z.of_nat i) (n - 1)) as [E|E].
      + rewrite E, targetIndex_wraps_forward by (unfold n; lia). unfold n in *. lia.
      + rewrite Hf by (unfold n in *; lia). lia.
    - destruct (Z.eq_dec (Z.of_nat i) 0) as [E|E].
      + rewrite E, targetIndex_wraps_backward by (unfold n; lia). unfold n in *. lia.
      + rewrite Hb by lia. lia. }
  destruct Ht as [Hr Hne].
  unfold targetScenario. rewrite Hcur. fold n.
  destruct (at_index_in_range l _ Hr) as [target [Hat Htin]].
  rewrite Hat.
  assert (Hdiff : target <> current).
  { intros ->. unfold at_index in Hat.
    destruct (Z.ltb_spec (targetIndex (Z.of_nat i) direction n) 0); [lia|].
    assert (E : Z.to_nat (targetIndex (Z.of_nat i) direction n) = i).
    { apply (proj1 (NoDup_nth_error l) Hnd); [|congruence].
      apply nth_error_Some. congruence. }
    lia. }
  assert (Hnum : forall k, In k l -> exists m, k = number_to_string m).
  { intros k Hk. rewrite <- Hkeys in Hk. unfold scenario_keys in Hk.
    apply in_map_iff in Hk. destruct Hk as [m [<- _]]. now exists m. }
  destruct (Hnum target Htin) as [mt ->].
  destruct (Hnum current Hin) as [mc Hmc].
  revert Hcan. unfold canAccessScenario. rewrite Hadmin. unfold isCsvScenarioMode.
  simpl negb. rewrite Hmc, !parseInt_number_to_string.
  destruct (getCurrentUnlockedScenario pg) as [unlocked|]; [|discriminate].
  intros E. apply Z.eqb_eq in E. subst unlocked.
  destruct (Z.eqb_spec mt mc) as [->|_]; [|reflexivity].
  elim Hdiff. now rewrite Hmc.
Qed.

Lemma arrows_blocked_on_unlocked_scenario_witness :
  navigateScenarioList (page_at trainee_page [("scenario", "2")]) (-1) = None.
Proof.
  apply (arrows_blocked_on_unlocked_scenario
           (page_at trainee_page [("scenario", "2")]) (-1)
           (coerceScenariosPayloadToMap
              (JArr [JObj [("companyName", JStr "Acme")];
                     JObj [("companyName", JStr "Bolt")]]))).
  - reflexivity.
  - reflexivity.
  - reflexivity.
  - vm_compute. repeat constructor; simpl; intuition discriminate.
  - vm_compute. lia.
  - vm_compute. tauto.
  - reflexivity.
  - right. reflexivity.
Defined.

(* ------------------------------------------------------------------ *)
(** ** Templates and amounts *)
(* ------------------------------------------------------------------ *)

Lemma trim_fixed_cons (c : ascii) (s : string) :
  is_ws c = false -> trim s = s -> trim (String c s) = String c s.
Proof.
  intros Hc Hs.
  assert (Hstart : trim_start s = s).
  { apply trim_start_of_clean. rewrite <- Hs. unfold trim.
    apply trim_end_clean, trim_start_clean. }
  assert (Hend : trim_end s = s).
  { unfold trim in Hs. now rewrite Hstart in Hs. }
  unfold trim. simpl trim_start. rewrite Hc. simpl trim_end. rewrite Hend.
  destruct s; [now rewrite Hc | reflexivity].
Qed.

(** What [formatDollarAmount] makes of the trimmed text of its argument. *)
Lemma formatDollarAmount_text (text : string) :
  trim text = text ->
  formatDollarAmount (Some (JStr text))
  = if nonempty text
    then match text with String "$" _ => text | _ => "$" ++ text end
    else "".
Proof.
  intros Ht. unfold formatDollarAmount. simpl. rewrite Ht.
  now destruct (nonempty text).
Qed.

Lemma with_dollar_sign (text : string) :
  trim text = text ->
  nonempty text = true ->
  exists rest,
    match text with String "$" _ => text | _ => "$" ++ text end = String "$" rest
    /\ trim (String "$" rest) = String "$" rest.
Proof.
  intros Ht Hn. destruct text as [|c text]; [discriminate|].
  destruct (Ascii.eqb_spec c "$") as [->|Hne].
  - exists text. split; [reflexivity | exact Ht].
  - exists (String c text). split.
    + destruct c as [[] [] [] [] [] [] [] []]; try reflexivity. now elim Hne.
    + apply trim_fixed_cons; [reflexivity | exact Ht].
Qed.


Lemma fold_sort_template (companyKey : string) (source matching global : list json) :
  fold_left (sort_template companyKey) source (matching, global)
  = ((matching ++ filter (company_template companyKey) source)%list,
     (global ++ filter isGlobalTemplate source)%list).
Proof.
  revert matching global.
  induction source as [|t source IH]; intros matching global.
  - simpl. now rewrite !app_nil_r.
  - cbn [fold_left filter].
    assert (Hc : company_template companyKey t
                 = nonempty (normalizeName (template_companyName t))
                   && (normalizeName (template_companyName t) =? companyKey)).
    { unfold company_template, isGlobalTemplate. now rewrite negb_involutive. }
    assert (Hg : isGlobalTemplate t
                 = negb (nonempty (normalizeName (template_companyName t))))
      by reflexivity.
    rewrite Hc, Hg. unfold sort_template. cbn [fst snd].
    destruct (nonempty (normalizeName (template_companyName t))); cbn [negb andb].
    + destruct (normalizeName (template_companyName t) =? companyKey).
      * rewrite IH. now rewrite <- app_assoc.
      * apply IH.
    + rewrite IH. now rewrite <- app_assoc.
Qed.

(** The templates offered for a scenario are the templates written for its
    company, in their order, followed by the global ones, in theirs; a
    template of another company is never offered.  They are taken from
    templates.json when it has entries; otherwise from the array
    [rightPanel.templates] of the scenario, and there are none to choose from
    when the scenario has no such array.  For [null] in place of the
    scenario the function throws. *)
Theorem templates_are_company_then_global (templatesData : list json) (scenario : json) :
  scenario <> JNull ->
  (exists msg, getTemplatesForScenario templatesData JNull = Threw msg)
  /\ (exists offered : list json,
     getTemplatesForScenario templatesData scenario = Returned offered
     /\ offered
        = (filter (company_template (normalizeName (get "companyName" scenario)))
             (sourceTemplates templatesData scenario)
           ++ filter isGlobalTemplate (sourceTemplates templatesData scenario))%list
     /\ forall template,
          In template offered
          <-> In template (sourceTemplates templatesData scenario)
              /\ (isGlobalTemplate template = true
                  \/ normalizeName (template_companyName template)
                     = normalizeName (get "companyName" scenario)))
  /\ (templatesData <> [] -> sourceTemplates templatesData scenario = templatesData)
  /\ (templatesData = [] ->
      forall (rightPanel : json) (templates : list json),
        get "rightPanel" scenario = Some rightPanel ->
        truthy rightPanel = true ->
        get "templates" rightPanel = Some (JArr templates) ->
        sourceTemplates templatesData scenario = templates)
  /\ (templatesData = [] ->
      (forall (rightPanel : json) (templates : list json),
         get "rightPanel" scenario = Some rightPanel ->
         truthy rightPanel = true ->
         get "templates" rightPanel <> Some (JArr templates)) ->
      sourceTemplates templatesData scenario = []
      /\ getTemplatesForScenario templatesData scenario = Returned []).
Proof.
  intros Hscenario.
  assert (Heq : getTemplatesForScenario templatesData scenario
                = Returned
                    (filter (company_template (normalizeName (get "companyName" scenario)))
                       (sourceTemplates templatesData scenario)
                     ++ filter isGlobalTemplate (sourceTemplates templatesData scenario))%list).
  { unfold getTemplatesForScenario.
    destruct scenario; try (now elim Hscenario); f_equal;
      match goal with
      | |- context [sourceTemplates ?t ?sc] =>
          destruct (sourceTemplates t sc) as [|t0 source]; [reflexivity|];
          cbv zeta; now rewrite fold_sort_template
      end. }
  assert (Hnone : templatesData = [] ->
            (forall (rightPanel : json) (templates : list json),
               get "rightPanel" scenario = Some rightPanel ->
               truthy rightPanel = true ->
               get "templates" rightPanel <> Some (JArr templates)) ->
            sourceTemplates templatesData scenario = []).
  { intros -> Hno. unfold sourceTemplates.
    destruct (get "rightPanel" scenario) as [rightPanel|] eqn:Hr; [|reflexivity].
    destruct (truthy rightPanel) eqn:Ht; [|reflexivity].
    destruct (get "templates" rightPanel) as [[| | | |templates|]|] eqn:Hts;
      try reflexivity.
    now elim (Hno rightPanel templates). }
  split; [eexists; reflexivity|]. split; [|split; [|split]].
  - eexists. split; [exact Heq|]. split; [reflexivity|].
    intros template. rewrite in_app_iff, !filter_In.
    unfold company_template.
    rewrite andb_true_iff, String.eqb_eq.
    destruct (isGlobalTemplate template); simpl; intuition congruence.
  - destruct templatesData; [congruence | reflexivity].
  - intros -> rightPanel templates Hr Ht Hts. unfold sourceTemplates.
    now rewrite Hr, Ht, Hts.
  - intros Hempty Hno. split; [now apply Hnone|].
    rewrite Heq, (Hnone Hempty Hno). reflexivity.
Qed.

(** With no templates.json, a scenario of Acme is offered its own template
    for Acme and its global one, not the one for Bolt. *)
Lemma templates_are_company_then_global_witness :
  getTemplatesForScenario []
    (JObj [("companyName", JStr "Acme");
           ("rightPanel",
            JObj [("templates",
                   JArr [JObj [("name", JStr "Thanks")];
                         JObj [("name", JStr "Refund"); ("companyName", JStr "Bolt")];
                         JObj [("name", JStr "Hello"); ("companyName", JStr " ACME ")]])])])
  = Returned [JObj [("name", JStr "Hello"); ("companyName", JStr " ACME ")];
              JObj [("name", JStr "Thanks")]].
Proof.
  destruct (templates_are_company_then_global []
              (JObj [("companyName", JStr "Acme");
                     ("rightPanel",
                      JObj [("templates",
                             JArr [JObj [("name", JStr "Thanks")];
                                   JObj [("name", JStr "Refund");
                                         ("companyName", JStr "Bolt")];
                                   JObj [("name", JStr "Hello");
                                         ("companyName", JStr " ACME ")]])])]))
    as [_ [[offered [Hreturned [Hoffered _]]] [_ [Hown _]]]]; [discriminate|].
  rewrite Hreturned, Hoffered.
  rewrite (Hown eq_refl _ _ eq_refl eq_refl eq_refl). reflexivity.
Defined.

(* ------------------------------------------------------------------ *)
(** ** The conversation view *)
(* ------------------------------------------------------------------ *)

Lemma system_displayText_event (systemType rawSystemText : string) :
  isEventSystemMessage systemType = true ->
  nonempty (system_displayText systemType rawSystemText) = true.
Proof.
  unfold isEventSystemMessage, system_displayText. intros H.
  destruct (systemType =? "template").
  - destruct (nonempty rawSystemText) eqn:Hn; simpl; [|reflexivity].
    destruct (starts_with_ci "template used:" rawSystemText); [exact Hn | reflexivity].
  - simpl in H. rewrite H.
    now destruct (nonempty (trim (trim_start
          (strip_prefix_ci "conversation escalated:" rawSystemText)))).
Qed.

Lemma system_displayText_plain (systemType rawSystemText : string) :
  isEventSystemMessage systemType = false ->
  system_displayText systemType rawSystemText = rawSystemText.
Proof.
  unfold isEventSystemMessage, system_displayText. intros H.
  apply orb_false_iff in H. destruct H as [-> ->]. reflexivity.
Qed.

Lemma is_text_str (s text : string) : is_text (Some (JStr s)) text = (s =? text).
Proof. reflexivity. Qed.

(** Which of the messages the normaliser keeps the chat shows.  A message
    kept by [normalizeConversationMessage] is shown unless its role is not
    "system" and its content is empty; so every kept message with text is
    shown, and so is every kept system message, a template or escalation
    event without text included. *)
Theorem kept_message_is_shown (message normalized : json) (lastAgent index : Z) :
  normalizeConversationMessage message = Some normalized ->
  (render_message lastAgent index normalized = Hidden
   <-> role_of message <> "system" /\ content_of message = "")
  /\ (nonempty (trim (content_of message)) = true ->
      render_message lastAgent index normalized <> Hidden).
Proof.
  rewrite normalizeConversationMessage_cases.
  destruct (is_object message); simpl; [|discriminate].
  destruct (nonempty (role_of message)) eqn:Hr; simpl; [|discriminate].
  destruct (nonempty (trim (content_of message))
            || isEventSystemMessage (messageType_of message)) eqn:Hc;
    [|discriminate].
  intros [= <-].
  assert (Hshown : render_message lastAgent index (normalized_message message) = Hidden
                   <-> role_of message <> "system" /\ content_of message = "").
  { unfold render_message, normalized_message.
    destruct (message_props_lookup (role_of message) (content_of message)
                (messageType_of message)
                (normalizeMessageMedia
                   (js_or (get "media" message) (get "message_media" message)))
                (dateTime_of message) (id_of message))
      as (Hrole & Hcontent & _ & Htype & _).
    cbn [truthy negb get]. rewrite Hrole, Hcontent, Htype, !is_text_str.
    assert (Hmt : toLowerCase (trim (string_or_empty
                    (if nonempty (messageType_of message)
                     then Some (JStr (messageType_of message)) else None)))
                  = messageType_of message).
    { rewrite string_or_empty_optional. apply lower_trim_idem. }
    rewrite Hmt, string_or_empty_str.
    destruct (String.eqb_spec (role_of message) "system") as [Hsys|Hsys].
    - assert (Hd : nonempty (system_displayText (messageType_of message)
                               (trim (content_of message))) = true).
      { destruct (isEventSystemMessage (messageType_of message)) eqn:He.
        - now apply system_displayText_event.
        - rewrite system_displayText_plain by exact He.
          now rewrite orb_false_r in Hc. }
      rewrite Hd. simpl negb. cbv iota.
      split; [|intros [H _]; now elim H].
      destruct (messageType_of message =? "template"); [discriminate|].
      destruct (messageType_of message =? "escalation"); discriminate.
    - cbn [truthy]. destruct (content_of message) as [|c s] eqn:Hcont; simpl.
      + split; [intros _; split; [exact Hsys | reflexivity] | reflexivity].
      + split; [discriminate | intros [_ H]; discriminate]. }
  split; [exact Hshown|].
  intros Hn Hh. apply Hshown in Hh. destruct Hh as [_ Hh].
  rewrite Hh in Hn. discriminate.
Qed.

Lemma kept_message_is_shown_witness :
  render_message 0 1
    (JObj [("role", JStr "system"); ("content", JStr " ");
           ("messageType", JStr "template")])
  <> Hidden.
Proof.
  intros H.
  destruct (kept_message_is_shown
              (JObj [("message_type", JStr "Template"); ("message_text", JStr " ")])
              (JObj [("role", JStr "system"); ("content", JStr " ");
                     ("messageType", JStr "template")])
              0 1 eq_refl) as [Hshown _].
  apply Hshown in H. destruct H as [H _]. now apply H.
Defined.

Lemma last_index_from_spec (p : json -> bool) (conversation : list json) (i : Z) :
  (0 <= i)%Z ->
  (forall k y, nth_error conversation k = Some y -> p y = true ->
     (i + Z.of_nat k <= last_index_from p i conversation)%Z)
  /\ (last_index_from p i conversation = (-1)%Z
      \/ exists j y,
           last_index_from p i conversation = (i + Z.of_nat j)%Z
           /\ nth_error conversation j = Some y /\ p y = true).
Proof.
  revert i. induction conversation as [|m rest IH]; intros i Hi.
  - split; [intros [|k] y H; discriminate | now left].
  - destruct (IH (i + 1)%Z ltac:(lia)) as [Hmax Hhit].
    cbn [last_index_from].
    destruct (Z.leb_spec 0 (last_index_from p (i + 1) rest)) as [Hpos|Hneg].
    + split.
      * intros [|k] y Hn Hp.
        -- destruct Hhit as [E | [j [_ [E _]]]]; lia.
        -- specialize (Hmax k y Hn Hp). lia.
      * right. destruct Hhit as [E | [j [y [E [Hn Hp]]]]]; [lia|].
        exists (S j), y. split; [lia|]. split; [exact Hn | exact Hp].
    + assert (Hnone : forall k y, nth_error rest k = Some y -> p y = false).
      { intros k y Hn. destruct (p y) eqn:Hp; [|reflexivity].
        specialize (Hmax k y Hn Hp). lia. }
      destruct (p m) eqn:Hm.
      * split.
        -- intros [|k] y Hn Hp; [lia|].
           simpl in Hn. rewrite (Hnone k y Hn) in Hp. discriminate.
        -- right. exists 0%nat, m. split; [lia|]. split; [reflexivity | exact Hm].
      * split; [|now left].
        intros [|k] y Hn Hp.
        -- simpl in Hn. injection Hn as <-. congruence.
        -- simpl in Hn. rewrite (Hnone k y Hn) in Hp. discriminate.
Qed.

Lemma nth_error_render_from (lastAgent : Z) (conversation : list json) (index : Z) (i : nat) (message : json) :
  nth_error conversation i = Some message ->
  nth_error (render_from lastAgent index conversation) i
  = Some (render_message lastAgent (index + Z.of_nat i) message).
Proof.
  revert index i. induction conversation as [|m rest IH]; intros index [|i] H;
    try discriminate.
  - simpl in H. injection H as ->. simpl. do 2 f_equal. lia.
  - simpl in H. simpl render_from. simpl nth_error. rewrite (IH (index + 1)%Z i H).
    do 2 f_equal. lia.
Qed.

Lemma render_selector (lastAgent index : Z) (message : json) :
  (exists content, render_message lastAgent index message = Bubble true content true)
  <-> has_role_and_content "agent" message = true /\ index <> lastAgent.
Proof.
  unfold render_message, has_role_and_content.
  destruct (truthy message); cbn [negb andb];
    [|split; [intros [c H]; discriminate | intros [H _]; discriminate]].
  assert (Hreceived : forall b,
            (exists content,
               match get "content" message with
               | Some content0 =>
                   if negb (truthy content0) then Hidden
                   else Bubble false content0 b
               | None => Hidden
               end = Bubble true content true)
            <-> false = true /\ index <> lastAgent).
  { intros b. split; [|intros [H _]; discriminate].
    intros [c H]. destruct (get "content" message) as [content|]; [|discriminate].
    destruct (truthy content); discriminate. }
  destruct (get "role" message) as [[| | | r | |]|]; cbn [is_text andb];
    try apply Hreceived.
  destruct (String.eqb_spec r "agent") as [->|Hagent]; cbn [andb].
  - cbn [String.eqb Ascii.eqb Bool.eqb].
    destruct (get "content" message) as [content|]; cbn [otruthy];
      [|split; [intros [c H]; discriminate | intros [H _]; discriminate]].
    destruct (truthy content); cbn [negb];
      [|split; [intros [c H]; discriminate | intros [H _]; discriminate]].
    split.
    + intros [c H]. injection H as _ H. apply negb_true_iff, Z.eqb_neq in H.
      split; [reflexivity | exact H].
    + intros [_ H]. exists content. do 2 f_equal.
      now apply negb_true_iff, Z.eqb_neq.
  - destruct (r =? "system"); [|apply Hreceived].
    split; [|intros [H _]; discriminate].
    intros [c H]. destruct (nonempty _); [|discriminate].
    destruct (_ =? "template"); [discriminate|].
    destruct (_ =? "escalation"); discriminate.
Qed.

(** The selector that sends an agent message to the sheet is put on every
    agent bubble but the last one: the message at a position is rendered as
    a sent bubble with a selector exactly when it is an agent message with
    content and a later message of the conversation is one too. *)
Theorem selector_on_all_but_last_agent (conversation : list json) (i : nat) (message : json) :
  nth_error conversation i = Some message ->
  exists shown,
    nth_error (render_conversation conversation) i = Some shown
    /\ ((exists content, shown = Bubble true content true)
        <-> has_role_and_content "agent" message = true
            /\ exists j later,
                 (i < j)%nat
                 /\ nth_error conversation j = Some later
                 /\ has_role_and_content "agent" later = true).
Proof.
  intros Hnth. unfold render_conversation.
  rewrite (nth_error_render_from _ _ 0 i message Hnth).
  eexists. split; [reflexivity|].
  rewrite render_selector.
  destruct (last_index_from_spec (has_role_and_content "agent") conversation 0 ltac:(lia))
    as [Hmax Hhit].
  fold (lastAgentConversationIndex conversation) in Hmax, Hhit.
  split; intros [Hm H]; (split; [exact Hm|]).
  - specialize (Hmax i message Hnth Hm).
    destruct Hhit as [E | [j [later [E [Hn Hp]]]]]; [lia|].
    exists j, later. split; [lia|]. split; [exact Hn | exact Hp].
  - destruct H as [j [later [Hlt [Hn Hp]]]].
    specialize (Hmax j later Hn Hp). lia.
Qed.

Lemma selector_on_all_but_last_agent_witness :
  exists shown,
    nth_error (render_conversation three_messages) 0 = Some shown
    /\ ((exists content, shown = Bubble true content true)
        <-> has_role_and_content "agent"
              (JObj [("role", JStr "agent"); ("content", JStr "Hello")]) = true
            /\ exists j later,
                 (0 < j)%nat
                 /\ nth_error three_messages j = Some later
                 /\ has_role_and_content "agent" later = true).
Proof.
  apply (selector_on_all_but_last_agent three_messages 0). reflexivity.
Defined.

(* ------------------------------------------------------------------ *)
(** ** Saving and restoring the form state *)
(* ------------------------------------------------------------------ *)

Lemma collect_control_other (state : props) (el : control) (k : string) :
  (negb (negb (nonempty (el_name el)) && negb (nonempty (el_id el)))
   && saved_kind el = true -> state_key el <> k) ->
  assoc k (collect_control state el) = assoc k state.
Proof.
  unfold collect_control, saved_kind, state_key. intros H.
  destruct (negb (nonempty (el_name el)) && negb (nonempty (el_id el)));
    [reflexivity|].
  destruct (el_type el =? "checkbox").
  - rewrite assoc_obj_set.
    destruct (String.eqb_spec k (checkbox_key el)) as [->|_]; [|reflexivity].
    now elim (H eq_refl).
  - destruct (is_valued el); [|reflexivity].
    rewrite assoc_obj_set.
    destruct (String.eqb_spec k (control_key el)) as [->|_]; [|reflexivity].
    now elim (H eq_refl).
Qed.

Lemma collect_lookup_other (elements : list control) (state : props) (k : string) :
  (forall el, In el elements ->
     negb (negb (nonempty (el_name el)) && negb (nonempty (el_id el)))
     && saved_kind el = true -> state_key el <> k) ->
  assoc k (fold_left collect_control elements state) = assoc k state.
Proof.
  revert state. induction elements as [|e rest IH]; intros state H; [reflexivity|].
  simpl. rewrite IH by (intros el Hin; apply H; now right).
  apply collect_control_other. apply H. now left.
Qed.

Lemma collect_control_own (state : props) (el : control) :
  negb (negb (nonempty (el_name el)) && negb (nonempty (el_id el))) = true ->
  saved_kind el = true ->
  assoc (state_key el) (collect_control state el)
  = Some (if el_type el =? "checkbox" then JBool (el_checked el)
          else JStr (el_value el)).
Proof.
  unfold collect_control, saved_kind, state_key. intros Hn Hs.
  apply negb_true_iff in Hn. rewrite Hn.
  destruct (el_type el =? "checkbox"); [apply assoc_obj_set_same|].
  simpl in Hs. rewrite Hs. apply assoc_obj_set_same.
Qed.

Lemma saved_keys_distinct (elements : list control) (a b : control) :
  NoDup (map state_key (filter saved_kind elements)) ->
  In a elements -> In b elements ->
  saved_kind a = true -> saved_kind b = true ->
  state_key a = state_key b -> a = b.
Proof.
  induction elements as [|e rest IH]; simpl; [tauto|].
  intros Hnd Ha Hb Hsa Hsb Hk.
  assert (Hin : forall x, In x rest -> saved_kind x = true ->
                  In (state_key x) (map state_key (filter saved_kind rest))).
  { intros x Hx Hsx. apply in_map. apply filter_In. now split. }
  destruct (saved_kind e) eqn:Hse.
  - simpl in Hnd. inversion Hnd as [|? ? Hnot Hnd']; subst.
    destruct Ha as [<-|Ha], Hb as [<-|Hb]; [reflexivity| | |now apply IH].
    + elim Hnot. rewrite Hk. now apply Hin.
    + elim Hnot. rewrite <- Hk. now apply Hin.
  - destruct Ha as [<-|Ha]; [congruence|].
    destruct Hb as [<-|Hb]; [congruence|]. now apply IH.
Qed.

Lemma collect_lookup_own (elements : list control) (state : props) (el : control) :
  NoDup (map state_key (filter saved_kind elements)) ->
  In el elements ->
  negb (negb (nonempty (el_name el)) && negb (nonempty (el_id el))) = true ->
  saved_kind el = true ->
  assoc (state_key el) (fold_left collect_control elements state)
  = Some (if el_type el =? "checkbox" then JBool (el_checked el)
          else JStr (el_value el)).
Proof.
  revert state. induction elements as [|e rest IH]; intros state Hnd Hin Hn Hs;
    [destruct Hin|].
  simpl fold_left.
  destruct (in_dec (fun a b : control =>
                      ltac:(decide equality; first [apply string_dec | apply bool_dec]))
              el rest) as [Hrest|Hrest].
  - apply IH; try assumption.
    simpl in Hnd. destruct (saved_kind e); [now inversion Hnd | exact Hnd].
  - destruct Hin as [->|Hin]; [|contradiction].
    rewrite collect_lookup_other; [now apply collect_control_own|].
    intros x Hx Hc E. apply andb_true_iff in Hc. destruct Hc as [_ Hsx].
    apply Hrest.
    rewrite (saved_keys_distinct (el :: rest) el x Hnd
               (or_introl eq_refl) (or_intror Hx) Hs Hsx (eq_sym E)).
    exact Hx.
Qed.

Lemma collect_lookup_unnamed (elements : list control) (el : control) :
  NoDup (map state_key (filter saved_kind elements)) ->
  In el elements ->
  negb (negb (nonempty (el_name el)) && negb (nonempty (el_id el))) = false ->
  saved_kind el = true ->
  assoc (state_key el) (fold_left collect_control elements []) = None.
Proof.
  intros Hnd Hin Hn Hs.
  rewrite collect_lookup_other; [reflexivity|].
  intros x Hx Hc E. apply andb_true_iff in Hc. destruct Hc as [Hnx Hsx].
  rewrite (saved_keys_distinct elements x el Hnd Hx Hin Hsx Hs E) in Hnx.
  congruence.
Qed.

Lemma set_checked_own (el : control) : set_checked el (el_checked el) = el.
Proof. now destruct el. Qed.

(** Restoring what was just collected leaves the form as it is: when the
    controls whose state is saved (check boxes, selects, text areas and text
    fields) have distinct keys, applying the collected state to the same form
    changes no control.  It is assumed of the browser that giving a control
    the value it already has changes nothing. *)
Theorem collected_state_restores_form (assign_value : control -> json -> control) (elements : list control) :
  (forall el, assign_value el (JStr (el_value el)) = el) ->
  NoDup (map state_key (filter saved_kind elements)) ->
  applyCustomFormState assign_value (Some elements)
    (Some (JObj (collectCustomFormState (Some elements))))
  = Some elements.
Proof.
  intros Hown Hnd. unfold applyCustomFormState, collectCustomFormState.
  cbn [truthy typeof_object negb orb]. f_equal.
  rewrite <- (map_id elements) at 3. apply map_ext_in. intros el Hin.
  unfold apply_to_control. cbn [get].
  destruct (negb (negb (nonempty (el_name el)) && negb (nonempty (el_id el))))
    eqn:Hnamed.
  - destruct (el_type el =? "checkbox") eqn:Hcb.
    + assert (Hs : saved_kind el = true) by (unfold saved_kind; now rewrite Hcb).
      pose proof (collect_lookup_own elements [] el Hnd Hin Hnamed Hs) as Hl.
      unfold state_key in Hl. rewrite Hcb in Hl. rewrite Hl.
      apply set_checked_own.
    + destruct (is_valued el) eqn:Hv; [|reflexivity].
      assert (Hs : saved_kind el = true)
        by (unfold saved_kind; now rewrite Hv, orb_true_r).
      pose proof (collect_lookup_own elements [] el Hnd Hin Hnamed Hs) as Hl.
      unfold state_key in Hl. rewrite Hcb in Hl. rewrite Hl. apply Hown.
  - destruct (el_type el =? "checkbox") eqn:Hcb.
    + assert (Hs : saved_kind el = true) by (unfold saved_kind; now rewrite Hcb).
      pose proof (collect_lookup_unnamed elements el Hnd Hin Hnamed Hs) as Hl.
      unfold state_key in Hl. rewrite Hcb in Hl. now rewrite Hl.
    + destruct (is_valued el) eqn:Hv; [|reflexivity].
      assert (Hs : saved_kind el = true)
        by (unfold saved_kind; now rewrite Hv, orb_true_r).
      pose proof (collect_lookup_unnamed elements el Hnd Hin Hnamed Hs) as Hl.
      unfold state_key in Hl. rewrite Hcb in Hl. now rewrite Hl.
Qed.

Lemma collected_state_restores_form_witness :
  collectCustomFormState (Some small_form)
  = [("tone::personalized", JBool true); ("tone::empathetic", JBool false);
     ("zeroTolerance", JStr "none"); ("notes", JStr "All good")]
  /\ applyCustomFormState assign_text (Some small_form)
       (Some (JObj (collectCustomFormState (Some small_form))))
     = Some small_form.
Proof.
  split; [reflexivity|].
  apply (collected_state_restores_form assign_text small_form).
  - intros []; reflexivity.
  - vm_compute. repeat constructor; simpl; intuition discriminate.
Defined.

(* ------------------------------------------------------------------ *)
(** ** The editor's JSON layout *)
(* ------------------------------------------------------------------ *)

Lemma string_app_assoc (a b c : string) : (a ++ b) ++ c = a ++ (b ++ c).
Proof. induction a as [|x a IH]; simpl; [reflexivity | now rewrite IH]. Qed.

Lemma string_app_nil_r (a : string) : a ++ "" = a.
Proof. induction a as [|x a IH]; simpl; [reflexivity | now rewrite IH]. Qed.

Lemma pretty_char_sb (NewLine : string) (IndentSize : nat) (st : pretty_state) (ch : ascii) :
  let st0 := {| sb := ""; indent := indent st; inString := inString st;
                escape := escape st |} in
  sb (pretty_char NewLine IndentSize st ch)
  = sb st ++ sb (pretty_char NewLine IndentSize st0 ch)
  /\ indent (pretty_char NewLine IndentSize st ch)
     = indent (pretty_char NewLine IndentSize st0 ch)
  /\ inString (pretty_char NewLine IndentSize st ch)
     = inString (pretty_char NewLine IndentSize st0 ch)
  /\ escape (pretty_char NewLine IndentSize st ch)
     = escape (pretty_char NewLine IndentSize st0 ch).
Proof.
  unfold pretty_char. cbn [sb indent inString escape].
  destruct (inString st) eqn:Hin; [repeat split|].
  destruct (Ascii.eqb ch (ascii_of_nat 34)); [repeat split|].
  destruct (Ascii.eqb ch "{" || Ascii.eqb ch "["); [repeat split|].
  destruct (Ascii.eqb ch "}" || Ascii.eqb ch "]"); [repeat split|].
  destruct (Ascii.eqb ch ","); [repeat split|].
  destruct (Ascii.eqb ch ":"); [repeat split|].
  destruct (negb (IsWhiteSpace ch)); repeat split.
  - cbn [sb]. now rewrite string_app_nil_r.
  - exact Hin.
Qed.

Lemma pretty_loop_sb (NewLine : string) (IndentSize : nat) (Json : string) (st : pretty_state) :
  sb (pretty_loop NewLine IndentSize st Json)
  = sb st ++ pretty_out NewLine IndentSize (indent st) (inString st) (escape st) Json.
Proof.
  revert st. induction Json as [|ch rest IH]; intros st.
  - simpl. now rewrite string_app_nil_r.
  - cbn [pretty_loop pretty_out]. rewrite IH.
    destruct (pretty_char_sb NewLine IndentSize st ch) as (Hs & Hi & Hb & He).
    rewrite Hs, Hi, Hb, He. apply string_app_assoc.
Qed.

Lemma significant_from_ws (w rest : string) :
  all_chars IsWhiteSpace w = true ->
  significant_from false false (w ++ rest) = significant_from false false rest.
Proof.
  induction w as [|c w IH]; simpl; [reflexivity|].
  intros H. apply andb_true_iff in H. destruct H as [Hc Hw].
  rewrite Hc.
  assert (Hq : Ascii.eqb c (ascii_of_nat 34) = false).
  { destruct (Ascii.eqb_spec c (ascii_of_nat 34)) as [->|]; [discriminate | reflexivity]. }
  rewrite Hq. now apply IH.
Qed.

Lemma all_ws_spaces (n : nat) : all_chars IsWhiteSpace (spaces n) = true.
Proof. induction n as [|n IH]; simpl; [reflexivity | exact IH]. Qed.

Lemma all_ws_app (a b : string) :
  all_chars IsWhiteSpace a = true -> all_chars IsWhiteSpace b = true ->
  all_chars IsWhiteSpace (a ++ b) = true.
Proof.
  induction a as [|c a IH]; simpl; [trivial|].
  intros H Hb. apply andb_true_iff in H. destruct H as [-> Ha]. now apply IH.
Qed.

Lemma pretty_out_significant (NewLine : string) (IndentSize : nat) (Json : string) (depth : nat) (inside escaped : bool) :
  all_chars IsWhiteSpace NewLine = true ->
  (inside = false -> escaped = false) ->
  significant_from inside escaped (pretty_out NewLine IndentSize depth inside escaped Json)
  = significant_from inside escaped Json.
Proof.
  intros Hnl. revert depth inside escaped.
  induction Json as [|ch rest IH]; intros depth inside escaped Hinv; [reflexivity|].
  cbn [pretty_out]. unfold pretty_char. cbn [sb indent inString escape].
  destruct inside.
  - cbn [sb indent inString escape append significant_from]. f_equal.
    apply IH. intros H. destruct escaped; [discriminate|].
    destruct (Ascii.eqb ch "\"); [discriminate | reflexivity].
  - rewrite (Hinv eq_refl).
    destruct (Ascii.eqb ch (ascii_of_nat 34)) eqn:Hq.
    { cbn [sb indent inString escape append significant_from]. rewrite Hq.
      f_equal. apply IH. discriminate. }
    destruct (Ascii.eqb ch "{" || Ascii.eqb ch "[") eqn:Hopen.
    { assert (Hw : IsWhiteSpace ch = false).
      { apply orb_true_iff in Hopen.
        destruct Hopen as [H|H]; apply Ascii.eqb_eq in H; now subst ch. }
      cbn [sb indent inString escape append significant_from].
      rewrite Hq, Hw. f_equal. rewrite string_app_assoc.
      rewrite significant_from_ws by exact Hnl.
      rewrite significant_from_ws by apply all_ws_spaces.
      apply IH. reflexivity. }
    destruct (Ascii.eqb ch "}" || Ascii.eqb ch "]") eqn:Hclose.
    { assert (Hw : IsWhiteSpace ch = false).
      { apply orb_true_iff in Hclose.
        destruct Hclose as [H|H]; apply Ascii.eqb_eq in H; now subst ch. }
      cbn [sb indent inString escape append].
      rewrite !string_app_assoc.
      rewrite significant_from_ws by exact Hnl.
      rewrite significant_from_ws by apply all_ws_spaces.
      cbn [append significant_from]. rewrite Hq, Hw. f_equal.
      apply IH. reflexivity. }
    destruct (Ascii.eqb ch ",") eqn:Hcomma.
    { assert (Hw : IsWhiteSpace ch = false)
        by (apply Ascii.eqb_eq in Hcomma; now subst ch).
      cbn [sb indent inString escape append significant_from].
      rewrite Hq, Hw. f_equal. rewrite string_app_assoc.
      rewrite significant_from_ws by exact Hnl.
      rewrite significant_from_ws by apply all_ws_spaces.
      apply IH. reflexivity. }
    destruct (Ascii.eqb ch ":") eqn:Hcolon.
    { apply Ascii.eqb_eq in Hcolon. subst ch.
      cbn [sb indent inString escape append significant_from].
      change (Ascii.eqb ":" (ascii_of_nat 34)) with false.
      change (IsWhiteSpace ":") with false. change (Ascii.eqb " " (ascii_of_nat 34)) with false.
      change (IsWhiteSpace " ") with true. cbv iota. f_equal. apply IH. reflexivity. }
    destruct (IsWhiteSpace ch) eqn:Hw; cbn [negb sb indent inString escape append significant_from].
    + rewrite Hq, Hw. apply IH. reflexivity.
    + rewrite Hq, Hw. f_equal. apply IH. reflexivity.
Qed.

(** [Format-JsonPretty] changes the white space of a JSON text only.  An
    empty argument is refused.  A non-empty argument of white space only is
    returned as it is.  For every other argument, whatever the indentation,
    and for a line break made of white space, the result and the argument are
    the same text once the white space outside string literals is taken
    away; string literals are copied as they are. *)
Theorem layout_keeps_json_content (NewLine : string) (IndentSize : nat) (Json : string) :
  all_chars IsWhiteSpace NewLine = true ->
  (Json = "" ->
   exists msg, Format_JsonPretty NewLine IndentSize Json = Threw msg)
  /\ (Json <> "" ->
      exists out,
        Format_JsonPretty NewLine IndentSize Json = Returned out
        /\ significant out = significant Json
        /\ (all_chars IsWhiteSpace Json = true -> out = Json)
        /\ (all_chars IsWhiteSpace Json = false ->
            out = pretty_out NewLine IndentSize 0 false false Json)).
Proof.
  intros Hnl. split.
  - intros ->. eexists. reflexivity.
  - intros Hne. destruct Json as [|ch rest]; [now elim Hne|].
    unfold Format_JsonPretty.
    destruct (all_chars IsWhiteSpace (String ch rest)) eqn:Hws.
    + eexists. split; [reflexivity|]. split; [reflexivity|].
      split; [reflexivity | discriminate].
    + eexists. split; [reflexivity|].
      rewrite pretty_loop_sb. cbn [sb indent inString escape append].
      split; [unfold significant; now apply pretty_out_significant|].
      split; [discriminate | reflexivity].
Qed.

Lemma layout_keeps_json_content_witness :
  exists out,
    Format_JsonPretty crlf 2 compact_sample = Returned out
    /\ significant out = compact_sample.
Proof.
  destruct (layout_keeps_json_content crlf 2 compact_sample eq_refl) as [_ H].
  destruct H as [out [Hout [Hsame _]]]; [discriminate|].
  exists out. split; [exact Hout|]. rewrite Hsame. reflexivity.
Defined.

(* ------------------------------------------------------------------ *)
(** ** Highlighting *)
(* ------------------------------------------------------------------ *)

Lemma take_drop_chars (n : nat) (s : string) : take_chars n s ++ drop_chars n s = s.
Proof.
  revert s. induction n as [|n IH]; intros [|c s]; simpl; try reflexivity.
  now rewrite IH.
Qed.

Lemma length_drop_chars (n : nat) (s : string) :
  String.length (drop_chars n s) = (String.length s - n)%nat.
Proof.
  revert s. induction n as [|n IH]; intros [|c s]; simpl;
    solve [reflexivity | lia | apply IH].
Qed.

Lemma take_chars_toLowerCase (n : nat) (s : string) :
  toLowerCase (take_chars n s) = take_chars n (toLowerCase s).
Proof.
  unfold toLowerCase. revert s.
  induction n as [|n IH]; intros [|c s]; simpl; try reflexivity.
  now rewrite IH.
Qed.

Lemma prefix_take_chars (p s : string) :
  String.prefix p s = true ->
  take_chars (String.length p) s = p /\ (String.length p <= String.length s)%nat.
Proof.
  revert s. induction p as [|a p IH]; intros [|b s]; simpl; try discriminate;
    try (split; [reflexivity | lia]).
  destruct (ascii_dec a b) as [->|]; [|discriminate].
  intros H. destruct (IH s H) as [-> Hl]. split; [reflexivity | lia].
Qed.

Lemma length_toLowerCase (s : string) :
  String.length (toLowerCase s) = String.length s.
Proof.
  unfold toLowerCase. induction s as [|c s IH]; simpl; [reflexivity | now f_equal].
Qed.

Lemma search_ci_found (searchTerm rest : string) (start : nat) :
  search_ci searchTerm rest = Some start ->
  toLowerCase (take_chars (String.length searchTerm) (drop_chars start rest))
  = toLowerCase searchTerm
  /\ (start + String.length searchTerm <= String.length rest)%nat.
Proof.
  revert start. induction rest as [|c rest IH]; intros start; [discriminate|].
  cbn [search_ci].
  destruct (starts_with_ci (toLowerCase searchTerm) (String c rest)) eqn:Hs.
  - intros [= <-]. unfold starts_with_ci in Hs.
    destruct (prefix_take_chars _ _ Hs) as [Ht Hl].
    rewrite length_toLowerCase in Ht, Hl. cbn [drop_chars].
    rewrite take_chars_toLowerCase, Ht. split; [reflexivity|].
    rewrite length_toLowerCase in Hl. exact Hl.
  - destruct (search_ci searchTerm rest) as [i|]; [|discriminate].
    intros [= <-]. destruct (IH i eq_refl) as [Ht Hl].
    cbn [drop_chars]. split; [exact Ht | simpl; lia].
Qed.

Lemma highlight_loop_text (rounds : nat) (searchTerm rest : string) :
  nonempty searchTerm = true ->
  (String.length rest < rounds)%nat ->
  fragment_text (highlight_loop rounds searchTerm rest) = rest
  /\ Forall (fun p => match p with
                      | MarkNode m => toLowerCase m = toLowerCase searchTerm
                      | TextNode t => nonempty t = true
                      end) (highlight_loop rounds searchTerm rest).
Proof.
  intros Hterm. revert rest.
  induction rounds as [|rounds IH]; intros rest Hlen; [lia|].
  cbn [highlight_loop].
  destruct (search_ci searchTerm rest) as [start|] eqn:Hsearch.
  - destruct (search_ci_found _ _ _ Hsearch) as [Hmark Hfits].
    assert (Hpos : (0 < String.length searchTerm)%nat)
      by (destruct searchTerm; [discriminate | simpl; lia]).
    destruct (IH (drop_chars (String.length searchTerm) (drop_chars start rest)))
      as [Htext Hall].
    { rewrite !length_drop_chars. lia. }
    split.
    + assert (Hjoin : fragment_text
                 (MarkNode (take_chars (String.length searchTerm) (drop_chars start rest))
                  :: highlight_loop rounds searchTerm
                       (drop_chars (String.length searchTerm) (drop_chars start rest)))
               = drop_chars start rest).
      { cbn [fragment_text piece_text]. rewrite Htext. apply take_drop_chars. }
      destruct (Nat.ltb_spec 0 start) as [Hs|Hs].
      * change (fragment_text
                  ([TextNode (take_chars start rest)] ++ ?l))
          with (take_chars start rest ++ fragment_text l).
        rewrite Hjoin. apply take_drop_chars.
      * cbn [app]. rewrite Hjoin. now replace start with 0%nat by lia.
    + destruct (Nat.ltb_spec 0 start) as [Hs|Hs].
      * cbn [app]. constructor; [|constructor; [exact Hmark | exact Hall]].
        destruct rest as [|c rest]; [simpl in Hfits; lia|].
        destruct start; [lia | reflexivity].
      * cbn [app]. constructor; [exact Hmark | exact Hall].
  - destruct (nonempty rest) eqn:Hn.
    + split; [cbn [fragment_text piece_text]; apply string_app_nil_r|].
      constructor; [exact Hn | constructor].
    + split; [now destruct rest | constructor].
Qed.

(** Highlighting a search term leaves the text as it is: the children of
    the fragment, joined, are the text; every marked piece is the search term
    up to the case of its letters; and with a search term no piece is
    empty. *)
Theorem highlighting_keeps_text (text searchTerm : string) :
  fragment_text (createHighlightedFragment text searchTerm) = text
  /\ Forall (fun p => match p with
                      | MarkNode m => toLowerCase m = toLowerCase searchTerm
                      | TextNode t => nonempty searchTerm = true -> nonempty t = true
                      end) (createHighlightedFragment text searchTerm).
Proof.
  unfold createHighlightedFragment.
  destruct (nonempty searchTerm) eqn:Hterm; cbn [negb].
  - destruct (highlight_loop_text (S (String.length text)) searchTerm text Hterm)
      as [Htext Hall]; [lia|].
    split; [exact Htext|].
    eapply Forall_impl; [|exact Hall]. intros [t|m] H; [now intros _ | exact H].
  - split; [cbn [fragment_text piece_text]; apply string_app_nil_r|].
    constructor; [discriminate | constructor].
Qed.

(* ------------------------------------------------------------------ *)
(** ** Numerals as property keys, and the scenarios of an array payload *)
(* ------------------------------------------------------------------ *)

Lemma all_digits_numeral (d : Decimal.uint) :
  all_chars is_digit (NilEmpty.string_of_uint d) = true.
Proof. induction d; simpl; [reflexivity|..]; exact IHd. Qed.

Lemma digits_value_acc (d : Decimal.uint) (p : positive) :
  digits_value (N.pos p) (NilEmpty.string_of_uint d) = N.pos (Pos.of_uint_acc d p).
Proof.
  revert p. induction d; intros p; [reflexivity|..];
    cbn [NilEmpty.string_of_uint digits_value Pos.of_uint_acc];
    rewrite <- IHd; f_equal;
    match goal with
    | |- context [digit_value ?c] =>
        let v := eval vm_compute in (digit_value c) in
        change (digit_value c) with v
    end; lia.
Qed.

Lemma digits_value_numeral (d : Decimal.uint) :
  digits_value 0 (NilEmpty.string_of_uint d) = Pos.of_uint d.
Proof.
  induction d; [reflexivity|..];
    cbn [NilEmpty.string_of_uint digits_value Pos.of_uint];
    match goal with
    | |- context [digit_value ?c] =>
        let v := eval vm_compute in (digit_value c) in
        change (digit_value c) with v
    end; cbn [N.mul N.add]; solve [exact IHd | apply digits_value_acc].
Qed.

(** The decimal numeral of a number is an array index when the number is
    below 2^32 - 1. *)
Lemma array_index_numeral (n : N) :
  array_index (number_to_string (Z.of_N n))
  = if (n <? 4294967295)%N then Some n else None.
Proof.
  destruct n as [|p]; [reflexivity|].
  unfold number_to_string. cbn [Z.of_N Z.to_int NilZero.string_of_int].
  pose proof (DecimalPos.Unsigned.to_uint_nonnil p) as Hnil.
  rewrite (string_of_uint_nonnil _ Hnil).
  pose proof (all_digits_numeral (Pos.to_uint p)) as Hall.
  pose proof (digits_value_numeral (Pos.to_uint p)) as Hval.
  rewrite DecimalPos.Unsigned.of_to in Hval.
  pose proof (to_uint_head p) as Hhead.
  destruct (Pos.to_uint p) as [|u|u|u|u|u|u|u|u|u|u]; [congruence|..];
    try (unfold array_index; cbn [NilEmpty.string_of_uint];
         cbn [NilEmpty.string_of_uint] in Hall, Hval;
         rewrite Hall, Hval; reflexivity).
  now elim (Hhead u).
Qed.

Lemma number_to_string_inj (a b : Z) :
  number_to_string a = number_to_string b -> a = b.
Proof.
  intros H. pose proof (parseInt10_number_to_string a) as Ha.
  rewrite H, parseInt10_number_to_string in Ha. congruence.
Qed.

Lemma key_le_numerals (a b : N) :
  (a <= b)%N ->
  key_le (number_to_string (Z.of_N a)) (number_to_string (Z.of_N b)).
Proof.
  intros H. unfold key_le, key_leb. rewrite !array_index_numeral.
  destruct (N.ltb_spec a 4294967295), (N.ltb_spec b 4294967295);
    try reflexivity; [now apply N.leb_le | lia].
Qed.

Lemma numeral_not_proto (n : Z) : (number_to_string n =? "__proto__") = false.
Proof.
  apply String.eqb_neq. intros H.
  pose proof (parseInt10_number_to_string n) as Hn.
  rewrite H in Hn. discriminate.
Qed.

Lemma add_indexed_appends (defaults : json) (items : list json) (i : N) (scenarios : props) :
  (forall k, In k (map fst scenarios) ->
     exists j, (j <= i)%N /\ k = number_to_string (Z.of_N j)) ->
  add_indexed defaults i items scenarios
  = (scenarios ++ numbered defaults (i + 1) items)%list.
Proof.
  revert i scenarios. induction items as [|item items IH]; intros i scenarios Hkeys.
  - simpl. now rewrite app_nil_r.
  - cbn [add_indexed numbered].
    assert (Hset : addScenario defaults scenarios
                     (number_to_string (Z.of_N (i + 1))) item
                   = (scenarios
                      ++ [(number_to_string (Z.of_N (i + 1)),
                           JObj (normalizeScenarioRecord item defaults
                                   (number_to_string (Z.of_N (i + 1)))))])%list).
    { unfold addScenario, obj_set, has_key. rewrite numeral_not_proto.
      assert (Hnone : assoc (number_to_string (Z.of_N (i + 1))) scenarios = None).
      { apply assoc_none_keys. intros Hin.
        destruct (Hkeys _ Hin) as [j [Hj E]].
        apply number_to_string_inj in E. lia. }
      rewrite Hnone. apply insert_prop_at_end.
      apply Forall_forall. intros k Hin.
      destruct (Hkeys _ Hin) as [j [Hj ->]]. apply key_le_numerals. lia. }
    rewrite Hset, IH.
    + rewrite <- app_assoc. cbn [app]. do 3 f_equal. lia.
    + intros k Hin. rewrite map_app, in_app_iff in Hin.
      destruct Hin as [Hin|[<-|[]]].
      * destruct (Hkeys _ Hin) as [j [Hj ->]]. exists j. split; [lia | reflexivity].
      * exists (i + 1)%N. split; [lia | reflexivity].
Qed.

(** An array of scenarios is numbered from 1 in its order: when the array
    is not an array of messages, its element at position i becomes the
    scenario under the key String(i + 1), normalised with the payload's
    defaults, and the map has these entries and no other, in this order.
    Nothing is dropped: an element that is not an object gives a scenario
    too. *)
Theorem array_payload_is_numbered (items : list json) (o : props) :
  isMessageArray (Some (JArr items)) = false ->
  coerceScenariosPayloadToMap (JArr items) = numbered (JObj []) 1 items
  /\ (get "scenarios" (JObj o) = Some (JArr items) ->
      coerceScenariosPayloadToMap (JObj o)
      = numbered (or_empty_object (get "defaults" (JObj o))) 1 items)
  /\ forall defaults,
       map fst (numbered defaults 1 items)
       = map (fun i => number_to_string (Z.of_nat i)) (seq 1 (List.length items)).
Proof.
  intros Hmsg. split; [|split].
  - unfold coerceScenariosPayloadToMap. rewrite Hmsg.
    rewrite add_indexed_appends; [reflexivity | intros k []].
  - intros Hsc. unfold coerceScenariosPayloadToMap. rewrite Hsc.
    cbn [otruthy truthy isArray negb andb]. rewrite Hmsg.
    rewrite add_indexed_appends; [reflexivity | intros k []].
  - intros defaults. clear Hmsg.
    change 1%N with (N.of_nat 1). generalize 1%nat.
    induction items as [|item items IH]; intros i; simpl; [reflexivity|].
    f_equal; [now rewrite nat_N_Z|].
    rewrite <- Nat2N.inj_succ. apply IH.
Qed.

Lemma array_payload_is_numbered_witness :
  map fst (coerceScenariosPayloadToMap
             (JArr [JObj [("companyName", JStr "Acme")]; JNum 7; JNull]))
  = ["1"; "2"; "3"].
Proof.
  rewrite (proj1 (array_payload_is_numbered
                    [JObj [("companyName", JStr "Acme")]; JNum 7; JNull] []
                    eq_refl)).
  reflexivity.
Defined.

Lemma ordered_keys_same (a b : props) :
  map fst a = map fst b -> ordered_keys a -> ordered_keys b.
Proof. unfold ordered_keys. now intros ->. Qed.

Lemma map_fst_keyed (defaults : json) (entries : props) :
  map fst (keyed defaults entries) = map fst entries.
Proof. unfold keyed. rewrite map_map. reflexivity. Qed.

Lemma ordered_keys_without (a : props) (x : string * json) (b : props) :
  ordered_keys (a ++ x :: b)%list -> ordered_keys (a ++ b)%list.
Proof.
  intros [Hnd Hs]. rewrite map_app in Hnd, Hs. cbn [map] in Hnd, Hs.
  split; rewrite map_app.
  - now apply NoDup_remove_1 in Hnd.
  - clear Hnd. induction (map fst a) as [|y keys IH]; cbn [app] in *.
    + now inversion Hs.
    + inversion Hs as [|? ? Hs' Hall]; subst. constructor; [now apply IH|].
      apply Forall_forall. intros k Hin.
      eapply Forall_forall in Hall; [exact Hall|].
      apply in_app_or in Hin. apply in_or_app.
      destruct Hin as [Hin|Hin]; [now left | right; now right].
Qed.

Lemma fold_addScenario_keyed (defaults : json) (container rest acc : props) :
  (forall k v, In (k, v) rest -> assoc k container = Some v) ->
  ordered_keys (acc ++ rest)%list ->
  fold_left
    (fun acc scenarioKey =>
       match get scenarioKey (JObj container) with
       | Some raw => addScenario defaults acc scenarioKey raw
       | None => acc
       end)
    (map fst rest) acc
  = (acc ++ keyed defaults (filter assignable rest))%list.
Proof.
  revert acc. induction rest as [|[k v] rest IH]; intros acc Hget Hord.
  - simpl. now rewrite app_nil_r.
  - cbn [map fst fold_left filter]. rewrite get_obj, (Hget k v) by now left.
    unfold addScenario at 2. unfold assignable at 1. cbn [fst].
    destruct (k =? "__proto__"); cbn [negb].
    + apply IH.
      * intros k' v' Hin. apply Hget. now right.
      * now apply ordered_keys_without in Hord.
    + cbn [keyed map fst snd].
      rewrite (obj_set_appends acc k _ rest).
      * rewrite IH.
        -- now rewrite <- app_assoc.
        -- intros k' v' Hin. apply Hget. now right.
        -- rewrite <- app_assoc. eapply ordered_keys_same; [|exact Hord].
           rewrite !map_app. reflexivity.
      * eapply ordered_keys_same; [|exact Hord]. rewrite !map_app. reflexivity.
Qed.

Lemma filter_assignable_all (entries : props) :
  ~ In "__proto__" (map fst entries) -> filter assignable entries = entries.
Proof.
  induction entries as [|[k v] entries IH]; intros H; [reflexivity|].
  cbn [filter]. unfold assignable at 1. cbn [fst].
  destruct (String.eqb_spec k "__proto__") as [->|_]; [elim H; now left|].
  cbn [negb]. f_equal. apply IH. intros Hin. apply H. now right.
Qed.

(** An object of scenarios keeps its keys and their order: when the
    [scenarios] member of the payload is an object, as an engine holds it,
    each of its members becomes the scenario under the same key, normalised
    with the payload's defaults, and the map has these entries and no other,
    in the same order.  The one exception is a member named [__proto__]: it
    gives no scenario, because assigning to that name does not create a
    property. *)
Theorem object_payload_keeps_keys (o container : props) :
  get "scenarios" (JObj o) = Some (JObj container) ->
  ordered_keys container ->
  coerceScenariosPayloadToMap (JObj o)
  = keyed (or_empty_object (get "defaults" (JObj o))) (filter assignable container)
  /\ map fst (coerceScenariosPayloadToMap (JObj o))
     = filter (fun k => negb (k =? "__proto__")) (map fst container)
  /\ (~ In "__proto__" (map fst container) ->
      coerceScenariosPayloadToMap (JObj o)
      = keyed (or_empty_object (get "defaults" (JObj o))) container
      /\ map fst (coerceScenariosPayloadToMap (JObj o)) = map fst container).
Proof.
  intros Hsc Hord.
  assert (Heq : coerceScenariosPayloadToMap (JObj o)
                = keyed (or_empty_object (get "defaults" (JObj o)))
                    (filter assignable container)).
  { unfold coerceScenariosPayloadToMap. rewrite Hsc.
    cbn [otruthy truthy isArray negb andb or_empty_object js_or own_entries].
    rewrite fold_addScenario_keyed; [reflexivity| |exact Hord].
    intros k v Hin. apply assoc_in_ordered; [apply Hord | exact Hin]. }
  split; [exact Heq|]. split.
  - rewrite Heq, map_fst_keyed. clear.
    induction container as [|[k v] container IH]; [reflexivity|].
    cbn [filter map fst]. unfold assignable at 1. cbn [fst].
    destruct (negb (k =? "__proto__")); cbn [map fst]; now rewrite IH.
  - intros Hproto. rewrite Heq, (filter_assignable_all _ Hproto).
    split; [reflexivity | apply map_fst_keyed].
Qed.

(** Three members keep their order, array indices first; a member named
    [__proto__] gives no scenario. *)
Lemma object_payload_keeps_keys_witness :
  map fst (coerceScenariosPayloadToMap
             (JObj [("scenarios",
                     JObj [("2", JObj [("companyName", JStr "Acme")]);
                           ("10", JNull); ("demo", JStr "x");
                           ("__proto__", JObj [("companyName", JStr "Bolt")])])]))
  = ["2"; "10"; "demo"].
Proof.
  refine (proj1 (proj2 (object_payload_keeps_keys
                   [("scenarios",
                     JObj [("2", JObj [("companyName", JStr "Acme")]);
                           ("10", JNull); ("demo", JStr "x");
                           ("__proto__", JObj [("companyName", JStr "Bolt")])])]
                   [("2", JObj [("companyName", JStr "Acme")]);
                    ("10", JNull); ("demo", JStr "x");
                    ("__proto__", JObj [("companyName", JStr "Bolt")])]
                   eq_refl _))).
  split.
  - repeat constructor; simpl; intuition discriminate.
  - repeat constructor.
Defined.

(* ------------------------------------------------------------------ *)
(** ** The delayed draft save *)
(* ------------------------------------------------------------------ *)

Lemma clearTimeout_absent (h : nat) (timers : list nat) :
  ~ In h timers -> clearTimeout h timers = timers.
Proof.
  unfold clearTimeout. induction timers as [|t timers IH]; simpl; [reflexivity|].
  intros H. destruct (Nat.eqb_spec t h) as [->|_]; simpl.
  - elim H. now left.
  - rewrite IH; [reflexivity | tauto].
Qed.

(** After an edit by the editor exactly one timer is set: the new one. *)
Lemma edit_leaves_one_timer (st : autosave_state) (runs : list draft_run) (fp : form_page) :
  one_timer st -> editing fp ->
  let st' := fst (autosave_step (st, runs) (FormEdited fp)) in
  snd (autosave_step (st, runs) (FormEdited fp)) = runs
  /\ armed st' = [next_timer st]
  /\ draftSaveTimer st' = Some (next_timer st)
  /\ next_timer st' = S (next_timer st)
  /\ form_now st' = fp
  /\ one_timer st'.
Proof.
  intros (Hpos & Harmed & Hnd) (c & Hc & Hrole).
  cbn [autosave_step fst snd]. unfold scheduleAssignmentDraftSave.
  cbn [form_now draftSaveTimer armed next_timer]. rewrite Hc, Hrole.
  cbn [String.eqb Ascii.eqb Bool.eqb negb fst snd draftSaveTimer armed next_timer form_now].
  assert (Hcleared : match draftSaveTimer st with
                     | Some handle =>
                         if negb (Nat.eqb handle 0)
                         then clearTimeout handle (armed st) else armed st
                     | None => armed st
                     end = []).
  { destruct (armed st) as [|h timers] eqn:Ha.
    - destruct (draftSaveTimer st) as [handle|]; [|reflexivity].
      now destruct (negb (Nat.eqb handle 0)).
    - destruct (Harmed h (or_introl eq_refl)) as [Ht Hh]. rewrite Ht.
      destruct (Nat.eqb_spec h 0) as [E|_]; [lia|]. cbn [negb].
      assert (Htimers : timers = []).
      { destruct timers as [|h' timers']; [reflexivity|].
        destruct (Harmed h' (or_intror (or_introl eq_refl))) as [Ht' _].
        rewrite Ht in Ht'. injection Ht' as <-.
        inversion Hnd as [|? ? Hnot _]. elim Hnot. now left. }
      subst timers. unfold clearTimeout. simpl. now rewrite Nat.eqb_refl. }
  rewrite Hcleared. cbn [app].
  do 5 (split; [reflexivity|]).
  unfold one_timer. cbn [draftSaveTimer armed next_timer form_now].
  split; [lia|]. split.
  - intros h [<-|[]]. split; [reflexivity | lia].
  - constructor; [simpl; tauto | constructor].
Qed.

Lemma edits_leave_one_timer (fps : list form_page) (st : autosave_state) (runs : list draft_run) (fp : form_page) :
  one_timer st -> (forall x, In x (fps ++ [fp])%list -> editing x) ->
  exists h,
    autosave_run (st, runs) (map FormEdited (fps ++ [fp])%list)
    = ({| draftSaveTimer := Some h; armed := [h]; next_timer := S h; form_now := fp |},
       runs)
    /\ (0 < h)%nat.
Proof.
  revert st. induction fps as [|x fps IH]; intros st Hone Hed.
  - destruct (edit_leaves_one_timer st runs fp Hone (Hed fp (or_introl eq_refl)))
      as (Hr & Ha & Ht & Hn & Hf & _).
    exists (next_timer st). split; [|exact (proj1 Hone)].
    unfold autosave_run. cbn [app map fold_left].
    destruct (autosave_step (st, runs) (FormEdited fp)) as [st' runs'].
    cbn [fst snd] in *. subst runs'. destruct st'.
    cbn [draftSaveTimer armed next_timer form_now] in *. now subst.
  - destruct (edit_leaves_one_timer st runs x Hone (Hed x (or_introl eq_refl)))
      as (Hr & _ & _ & _ & _ & Hone').
    unfold autosave_run. cbn [app map fold_left].
    destruct (autosave_step (st, runs) (FormEdited x)) as [st' runs'].
    cbn [fst snd] in *. subst runs'.
    apply (IH st' Hone'). intros y Hy. apply Hed. now right.
Qed.

Lemma dues_after_run (dues : list (nat * outcome response)) (st : autosave_state) (runs : list draft_run) :
  armed st = [] ->
  autosave_run (st, runs) (map (fun d => TimerDue (fst d) (snd d)) dues) = (st, runs).
Proof.
  intros Ha. induction dues as [|[h s] dues IH]; [reflexivity|].
  unfold autosave_run in *. cbn [map fold_left autosave_step fst snd].
  rewrite Ha. cbn [existsb]. exact IH.
Qed.

(** Edits made before the timer runs are saved once: after any number of
    edits by the editor of an assignment, one at least, a single timer is
    set, the last one; whatever timers the browser then runs, and however
    often, the draft is saved at most once - when the last timer comes due -
    and what is saved is the page as the last edit left it. *)
Theorem edits_are_saved_once (st : autosave_state) (fps : list form_page) (fp : form_page) (dues : list (nat * outcome response)) :
  one_timer st ->
  (forall x, In x (fps ++ [fp])%list -> editing x) ->
  exists h,
    fst (autosave_run (st, []) (map FormEdited (fps ++ [fp])%list))
    = {| draftSaveTimer := Some h; armed := [h]; next_timer := S h; form_now := fp |}
    /\ snd (autosave_run (st, [])
              (map FormEdited (fps ++ [fp])%list
               ++ map (fun d => TimerDue (fst d) (snd d)) dues)%list)
       = match find (fun d => Nat.eqb (fst d) h) dues with
         | Some (_, settled) => [draft_save_callback fp settled]
         | None => []
         end.
Proof.
  intros Hone Hed.
  destruct (edits_leave_one_timer fps st [] fp Hone Hed) as [h [Hrun Hh]].
  exists h. split; [now rewrite Hrun|].
  unfold autosave_run in *. rewrite fold_left_app, Hrun.
  clear Hrun. induction dues as [|[h' s] dues IH]; [reflexivity|].
  cbn [map fold_left autosave_step fst snd armed existsb find orb].
  destruct (Nat.eqb_spec h' h) as [->|Hne].
  - cbn [form_now draftSaveTimer next_timer app].
    unfold clearTimeout. cbn [filter]. rewrite Nat.eqb_refl. cbn [negb].
    pose proof (dues_after_run dues
                  {| draftSaveTimer := Some h; armed := []; next_timer := S h;
                     form_now := fp |}
                  [draft_save_callback fp s] eq_refl) as Hrest.
    unfold autosave_run in Hrest. cbn [orb]. now rewrite Hrest.
  - destruct (Nat.eqb_spec h' h) as [E|_]; [contradiction|]. cbn [orb]. exact IH.
Qed.

Lemma edits_are_saved_once_witness :
  snd (autosave_run (loaded editor_page, [])
         [FormEdited editor_page; FormEdited editor_page; FormEdited editor_page;
          TimerDue 1 (Threw "offline"); TimerDue 2 (Threw "offline");
          TimerDue 3 (Returned {| res_ok := true; res_status := 200;
                                  res_json := Some (JObj [("ok", JBool true)]) |});
          TimerDue 3 (Threw "offline")])
  = [{| run_effects := saveAssignmentDraft editor_page;
        run_message := "Draft saved."; run_isError := false |}].
Proof.
  destruct (edits_are_saved_once (loaded editor_page)
              [editor_page; editor_page] editor_page
              [(1, Threw "offline"); (2, Threw "offline");
               (3, Returned {| res_ok := true; res_status := 200;
                               res_json := Some (JObj [("ok", JBool true)]) |});
               (3, Threw "offline")])
    as [h [Hstate Hruns]].
  - split; [simpl; lia|]. split; [intros h []|constructor].
  - intros x Hx. exists {| assignment_id := Some (JStr "a1"); send_id := Some (JStr "s9");
               role := "editor"; mode := "edit"; token := "t1";
               status := Some (JStr ""); scenarioKey := "1";
               form_state_json := Some (JStr ""); internal_note := Some (JStr "") |}.
    simpl in Hx. destruct Hx as [<-|[<-|[<-|[]]]]; split; reflexivity.
  - assert (Eh : h = 3%nat) by (vm_compute in Hstate; congruence).
    subst h. exact Hruns.
Defined.

(* ------------------------------------------------------------------ *)
(** ** A scenario merged over the defaults *)
(* ------------------------------------------------------------------ *)

Lemma assoc_fold_obj_set_distinct (k : string) (entries acc : props) :
  NoDup (map fst entries) ->
  assoc k (fold_left (fun a kv => obj_set (fst kv) (snd kv) a) entries acc)
  = override entries acc k.
Proof.
  unfold override. revert acc.
  induction entries as [|[k0 v0] entries IH]; intros acc Hnd; [reflexivity|].
  inversion Hnd as [|? ? Hnot Hnd']; subst. cbn [fold_left fst snd assoc].
  destruct (String.eqb_spec k k0) as [->|Hne].
  - rewrite assoc_fold_obj_set by (now apply assoc_none_keys).
    apply assoc_obj_set_same.
  - rewrite IH by exact Hnd'. rewrite assoc_obj_set.
    destruct (String.eqb_spec k k0) as [E|_]; [contradiction | reflexivity].
Qed.

Lemma index_keys_from (i : N) (l : list json) (k : string) :
  In k (map fst (index_props_from i l)) ->
  exists j, (i <= j)%N /\ k = number_to_string (Z.of_N j).
Proof.
  revert i. induction l as [|x l IH]; intros i; simpl; [tauto|].
  intros [<-|H].
  - exists i. split; [lia | reflexivity].
  - destruct (IH _ H) as [j [Hj ->]]. exists j. split; [lia | reflexivity].
Qed.

Lemma index_keys_NoDup (i : N) (l : list json) :
  NoDup (map fst (index_props_from i l)).
Proof.
  revert i. induction l as [|x l IH]; intros i; simpl; constructor; [|apply IH].
  intros H. destruct (index_keys_from _ _ _ H) as [j [Hj E]].
  apply number_to_string_inj in E. lia.
Qed.

Lemma own_entries_NoDup (v : json) :
  distinct_keys v -> NoDup (map fst (own_entries v)).
Proof.
  destruct v; simpl; try (intros _; constructor).
  - intros _. apply index_keys_NoDup.
  - intros _. apply index_keys_NoDup.
  - now intros [H _].
Qed.

Lemma distinct_keys_member (o : props) (k : string) (v : json) :
  distinct_keys (JObj o) -> assoc k o = Some v -> distinct_keys v.
Proof.
  intros [_ Hm]. induction o as [|[k0 v0] o IH]; simpl; [discriminate|].
  destruct Hm as [Hv Hm]. destruct (k =? k0).
  - now intros [= <-].
  - now apply IH.
Qed.

Lemma distinct_keys_element (items : list json) (n : nat) (x : json) :
  distinct_keys (JArr items) -> nth_error items n = Some x -> distinct_keys x.
Proof.
  revert n. induction items as [|y items IH]; intros [|n] H; simpl;
    try discriminate.
  - intros [= <-]. apply H.
  - apply IH. apply H.
Qed.

Lemma distinct_keys_get (v : json) (k : string) (x : json) :
  distinct_keys v -> get k v = Some x -> distinct_keys x.
Proof.
  destruct v as [| | | s | items | o]; try discriminate.
  - intros _. cbn [get]. destruct (k =? "length"); [now intros [= <-]|].
    destruct (array_index k); [|discriminate].
    intros H. apply nth_error_In in H.
    clear - H. induction s as [|c s IH]; simpl in H; [tauto|].
    destruct H as [<-|H]; [exact I | now apply IH].
  - intros Hd. cbn [get]. destruct (k =? "length"); [now intros [= <-]|].
    destruct (array_index k); [|discriminate].
    now apply distinct_keys_element.
  - apply distinct_keys_member.
Qed.

Lemma distinct_keys_or_empty (v : option json) :
  (forall x, v = Some x -> distinct_keys x) ->
  distinct_keys (or_empty_object v).
Proof.
  intros H. unfold or_empty_object, js_or.
  destruct v as [x|]; simpl; [|split; [constructor | exact I]].
  destruct (truthy x); [now apply H | split; [constructor | exact I]].
Qed.

Lemma assoc_spread_distinct (k : string) (acc : props) (v : json) :
  distinct_keys v ->
  assoc k (spread acc v) = override (own_entries v) acc k.
Proof.
  intros H. apply assoc_fold_obj_set_distinct. now apply own_entries_NoDup.
Qed.

Lemma distinct_keys_scenarioObject (rawScenario : json) :
  distinct_keys rawScenario -> distinct_keys (scenarioObject_of rawScenario).
Proof.
  destruct rawScenario; simpl; try (intros _; split; [constructor | exact I]).
  - intros H. split; [repeat constructor; simpl; tauto|]. split; [exact H | exact I].
  - trivial.
Qed.

(** A scenario is merged over the defaults field by field, and its
    guidelines, notes and right panel key by key: in the record
    [normalizeScenarioRecord] returns, a field it does not set itself has the
    scenario's value when the scenario has the field and the default value
    otherwise; and each key of [rightPanel], [guidelines] and [notes] has the
    scenario's value when the scenario's object has the key and the default
    one otherwise ([notes] being read from [notes] or else [guidelines]). *)
Theorem scenario_merges_over_defaults (rawScenario defaults : json) (scenarioKey k : string) :
  distinct_keys rawScenario ->
  distinct_keys defaults ->
  let scenarioObject := scenarioObject_of rawScenario in
  let record := normalizeScenarioRecord rawScenario defaults scenarioKey in
  (~ In k derived_fields ->
   assoc k record = override (own_entries scenarioObject) (own_entries defaults) k)
  /\ (exists rightPanel,
        assoc "rightPanel" record = Some (JObj rightPanel)
        /\ assoc k rightPanel
           = override (own_entries (or_empty_object (get "rightPanel" scenarioObject)))
               (own_entries (or_empty_object (get "rightPanel" defaults))) k)
  /\ (exists guidelines,
        assoc "guidelines" record = Some (JObj guidelines)
        /\ assoc k guidelines
           = override (own_entries (or_empty_object (get "guidelines" scenarioObject)))
               (own_entries (or_empty_object (get "guidelines" defaults))) k)
  /\ (exists notes,
        assoc "notes" record = Some (JObj notes)
        /\ assoc k notes
           = override
               (own_entries (or_empty_object
                  (js_or (get "notes" scenarioObject) (get "guidelines" scenarioObject))))
               (own_entries (or_empty_object
                  (js_or (get "notes" defaults) (get "guidelines" defaults)))) k).
Proof.
  intros Hraw Hdef scenarioObject record.
  pose proof (distinct_keys_scenarioObject _ Hraw) as Hso.
  fold scenarioObject in Hso.
  assert (Hsub : forall v name, distinct_keys v ->
            distinct_keys (or_empty_object (get name v))).
  { intros v name Hv. apply distinct_keys_or_empty.
    intros x Hx. now apply (distinct_keys_get v name). }
  assert (Hsub2 : forall v, distinct_keys v ->
            distinct_keys (or_empty_object (js_or (get "notes" v) (get "guidelines" v)))).
  { intros v Hv. apply distinct_keys_or_empty. intros x Hx. unfold js_or in Hx.
    destruct (otruthy (get "notes" v));
      [now apply (distinct_keys_get v "notes") | now apply (distinct_keys_get v "guidelines")]. }
  assert (Hfill : forall name,
            (name =? "conversation") = false ->
            (name =? "customerMessage") = false ->
            (name =? "agentName") = false ->
            (name =? "companyName") = false ->
            (name =? "agentInitial") = false ->
            assoc name record
            = assoc name (merge_with_defaults scenarioObject defaults)).
  { intros name H1 H2 H3 H4 H5. unfold record, normalizeScenarioRecord.
    fold scenarioObject. unfold fill_record.
    rewrite assoc_obj_set, H5, assoc_set_if, H4, andb_false_r.
    rewrite assoc_set_if, H3, andb_false_r.
    rewrite assoc_fill_customerMessage by exact H2.
    rewrite assoc_obj_set, H1.
    now apply assoc_preload_conversation. }
  split; [|split; [|split]].
  - intros Hk. unfold derived_fields in Hk. simpl in Hk.
    assert (Hne : forall name, In name derived_fields -> (k =? name) = false).
    { intros name Hin. apply String.eqb_neq. intros ->. now apply Hk. }
    rewrite Hfill by (apply Hne; simpl; tauto).
    unfold merge_with_defaults.
    rewrite !assoc_obj_set.
    rewrite (Hne "rightPanel"), (Hne "notes"), (Hne "guidelines") by (simpl; tauto).
    rewrite assoc_spread_distinct by exact Hso.
    unfold override at 1. rewrite assoc_spread_distinct by exact Hdef.
    unfold override. destruct (assoc k (own_entries scenarioObject)); [reflexivity|].
    now destruct (assoc k (own_entries defaults)).
  - eexists. split.
    + rewrite Hfill by reflexivity. unfold merge_with_defaults.
      apply assoc_obj_set_same.
    + rewrite assoc_spread_distinct by (now apply Hsub).
      unfold override at 1. rewrite assoc_spread_distinct by (now apply Hsub).
      unfold override.
      destruct (assoc k (own_entries (or_empty_object (get "rightPanel" scenarioObject))));
        [reflexivity|].
      now destruct (assoc k (own_entries (or_empty_object (get "rightPanel" defaults)))).
  - eexists. split.
    + rewrite Hfill by reflexivity. unfold merge_with_defaults.
      rewrite !assoc_obj_set. cbn [String.eqb Ascii.eqb Bool.eqb]. reflexivity.
    + rewrite assoc_spread_distinct by (now apply Hsub).
      unfold override at 1. rewrite assoc_spread_distinct by (now apply Hsub).
      unfold override.
      destruct (assoc k (own_entries (or_empty_object (get "guidelines" scenarioObject))));
        [reflexivity|].
      now destruct (assoc k (own_entries (or_empty_object (get "guidelines" defaults)))).
  - eexists. split.
    + rewrite Hfill by reflexivity. unfold merge_with_defaults.
      rewrite !assoc_obj_set. cbn [String.eqb Ascii.eqb Bool.eqb]. reflexivity.
    + rewrite assoc_spread_distinct by (now apply Hsub2).
      unfold override at 1. rewrite assoc_spread_distinct by (now apply Hsub2).
      unfold override.
      destruct (assoc k (own_entries (or_empty_object
                  (js_or (get "notes" scenarioObject) (get "guidelines" scenarioObject)))));
        [reflexivity|].
      now destruct (assoc k (own_entries (or_empty_object
                  (js_or (get "notes" defaults) (get "guidelines" defaults))))).
Qed.

Lemma scenario_merges_over_defaults_witness :
  assoc "customerPhone" (normalizeScenarioRecord branded_scenario house_defaults "1")
  = Some (JStr "555")
  /\ assoc "messageTone" (normalizeScenarioRecord branded_scenario house_defaults "1")
     = Some (JStr "warm").
Proof.
  assert (Hs : distinct_keys branded_scenario).
  { simpl. repeat split; repeat constructor; simpl; intuition discriminate. }
  assert (Hd : distinct_keys house_defaults).
  { simpl. repeat split; repeat constructor; simpl; intuition discriminate. }
  split.
  - rewrite (proj1 (scenario_merges_over_defaults branded_scenario house_defaults
                      "1" "customerPhone" Hs Hd));
      [reflexivity | simpl; intuition discriminate].
  - rewrite (proj1 (scenario_merges_over_defaults branded_scenario house_defaults
                      "1" "messageTone" Hs Hd));
      [reflexivity | simpl; intuition discriminate].
Defined.

(* ------------------------------------------------------------------ *)
(** ** The navigation order of an array payload *)
(* ------------------------------------------------------------------ *)

Lemma insert_sorted_last (n : Z) (l : list Z) :
  Forall (fun m => (m <= n)%Z) l -> insert_sorted n l = (l ++ [n])%list.
Proof.
  induction l as [|m l IH]; simpl; intros H; [reflexivity|].
  inversion H as [|? ? Hm Hl]; subst.
  destruct (Z.ltb_spec n m); [lia|]. now rewrite IH.
Qed.

Lemma sort_ascending_from (n : nat) (acc : list Z) (lo : Z) :
  Forall (fun m => (m < lo)%Z) acc ->
  fold_left (fun acc n => insert_sorted n acc)
    (map (fun i => (lo + Z.of_nat i)%Z) (seq 0 n)) acc
  = (acc ++ map (fun i => (lo + Z.of_nat i)%Z) (seq 0 n))%list.
Proof.
  revert acc lo. induction n as [|n IH]; intros acc lo Hacc.
  - simpl. now rewrite app_nil_r.
  - cbn [seq map fold_left].
    rewrite insert_sorted_last
      by (eapply Forall_impl; [|exact Hacc]; intros m Hm; simpl in Hm; lia).
    rewrite <- seq_shift, map_map.
    rewrite (map_ext (fun i => (lo + Z.of_nat (S i))%Z)
               (fun i => ((lo + 1) + Z.of_nat i)%Z)) by (intros i; lia).
    rewrite IH.
    + rewrite <- app_assoc. cbn [app]. do 2 f_equal; lia.
    + apply Forall_app. split.
      * eapply Forall_impl; [|exact Hacc]. intros m Hm. simpl in Hm. lia.
      * constructor; [lia | constructor].
Qed.

Lemma numbered_numbers (defaults : json) (items : list json) (i : N) :
  filter_map (fun kv => parseInt10 (fst kv)) (numbered defaults i items)
  = map (fun j => (Z.of_N i + Z.of_nat j)%Z) (seq 0 (List.length items)).
Proof.
  revert i. induction items as [|item items IH]; intros i; [reflexivity|].
  cbn [numbered filter_map fst List.length seq map].
  rewrite parseInt10_number_to_string, IH. f_equal; [lia|].
  rewrite <- seq_shift, map_map. apply map_ext. intros j. lia.
Qed.

(** The arrows go through an array of scenarios in the order of the array:
    for an array payload that is not an array of messages, the key list the
    navigation works on is "1", "2", ... up to the number of elements, each
    once. *)
Theorem array_payload_navigation_order (items : list json) :
  isMessageArray (Some (JArr items)) = false ->
  scenario_keys (coerceScenariosPayloadToMap (JArr items))
  = map (fun i => number_to_string (Z.of_nat i)) (seq 1 (List.length items))
  /\ NoDup (scenario_keys (coerceScenariosPayloadToMap (JArr items))).
Proof.
  intros Hmsg.
  assert (Hkeys : scenario_keys (coerceScenariosPayloadToMap (JArr items))
                  = map (fun i => number_to_string (Z.of_nat i))
                      (seq 1 (List.length items))).
  { unfold coerceScenariosPayloadToMap. rewrite Hmsg.
    rewrite add_indexed_appends by (intros k []). cbn [app].
    unfold scenario_keys, sort_ascending. rewrite numbered_numbers.
    rewrite (sort_ascending_from (List.length items) [] (Z.of_N (0 + 1))) by constructor.
    cbn [app]. rewrite map_map, <- seq_shift, map_map.
    apply map_ext. intros i. f_equal. lia. }
  split; [exact Hkeys|]. rewrite Hkeys.
  apply Finite.Injective_map_NoDup; [|apply seq_NoDup].
  intros a b E. apply number_to_string_inj in E. lia.
Qed.

Lemma array_payload_navigation_order_witness :
  scenario_keys
    (coerceScenariosPayloadToMap
       (JArr [JObj [("companyName", JStr "Acme")]; JNum 7; JNull]))
  = ["1"; "2"; "3"].
Proof.
  rewrite (proj1 (array_payload_navigation_order
                    [JObj [("companyName", JStr "Acme")]; JNum 7; JNull] eq_refl)).
  reflexivity.
Defined.
